(** * PDF outline extraction: heading detection, merging, classification
      and title repair (main.py, helper.py)

    A shallow embedding of the two Python modules and the properties of
    their outline results.

    Conventions of the embedding.
    - Python [str] values are lists of 8-bit characters; the character
      classes ([isupper], [\s], [\w], ...) are those of Python on code
      points below 128, and every character from 128 up is an uncased
      symbol that is neither a space nor a word character.
    - Python floats (font sizes, coordinates, scores) are exact rationals
      [Q]; rounding of IEEE arithmetic is not modelled.
    - The PDF layer (fitz) and numpy are external: a document is the data
      the PDF layer returns for it, and numpy's [mean] and [std] are taken
      as given functions. *)

From Stdlib Require Import List Ascii String ZArith QArith Qround Qminmax Bool Lia Lqa.
Import ListNotations.

Set Implicit Arguments.

(* ===================================================================== *)
(** * Python strings *)
(* ===================================================================== *)

Definition str := list ascii.

(** A string literal as a [str]. *)
Definition lit (x : string) : str := list_ascii_of_string x.
Coercion lit : string >-> str.

Definition code (c : ascii) : nat := nat_of_ascii c.

Definition in_range (lo hi : nat) (c : ascii) : bool :=
  (lo <=? code c)%nat && (code c <=? hi)%nat.

Definition is_digit (c : ascii) : bool := in_range 48 57 c.
Definition is_upper (c : ascii) : bool := in_range 65 90 c.
Definition is_lower (c : ascii) : bool := in_range 97 122 c.
Definition is_alpha (c : ascii) : bool := is_upper c || is_lower c.

(** [str.isspace] on one character: TAB, LF, VT, FF, CR, FS, GS, RS, US
    and the blank. *)
Definition is_space (c : ascii) : bool :=
  in_range 9 13 c || in_range 28 32 c.

(** The class [\w]: letters, digits and the underscore. *)
Definition is_word (c : ascii) : bool :=
  is_alpha c || is_digit c || (code c =? 95)%nat.

Definition to_lower (c : ascii) : ascii :=
  if is_upper c then ascii_of_nat (code c + 32) else c.

Definition to_upper (c : ascii) : ascii :=
  if is_lower c then ascii_of_nat (code c - 32) else c.

Definition ascii_eqb (a b : ascii) : bool := Ascii.eqb a b.

Fixpoint str_eqb (a b : str) : bool :=
  match a, b with
  | [], [] => true
  | x :: a', y :: b' => ascii_eqb x y && str_eqb a' b'
  | _, _ => false
  end.

(** [text.lower()] *)
Definition lower (t : str) : str := map to_lower t.

(** [len(text)] *)
Definition len (t : str) : Z := Z.of_nat (List.length t).

(** [text.startswith(p)] *)
Fixpoint startswith (p t : str) : bool :=
  match p, t with
  | [], _ => true
  | x :: p', y :: t' => ascii_eqb x y && startswith p' t'
  | _ :: _, [] => false
  end.

(** [p in text] for strings: [p] occurs as a contiguous run of [text]. *)
Fixpoint contains (p t : str) : bool :=
  startswith p t ||
  match t with
  | [] => false
  | _ :: t' => contains p t'
  end.

(** [text.lstrip()], [text.rstrip()], [text.strip()] *)
Fixpoint lstrip (t : str) : str :=
  match t with
  | c :: t' => if is_space c then lstrip t' else t
  | [] => []
  end.

Definition rstrip (t : str) : str := rev (lstrip (rev t)).

Definition strip (t : str) : str := rstrip (lstrip t).

(** [text.isupper()]: some cased character, and no lower-case one. *)
Definition isupper (t : str) : bool :=
  existsb is_upper t && negb (existsb is_lower t).

(** [c.islower()] for the one-character string [text[0]]. *)
Definition islower (t : str) : bool :=
  existsb is_lower t && negb (existsb is_upper t).

(** [text.isdigit()] *)
Definition isdigit (t : str) : bool :=
  negb (Nat.eqb (List.length t) 0) && forallb is_digit t.

(** [text.istitle()]: upper-case letters only after uncased characters,
    lower-case letters only after cased ones, and some cased character.
    [prev] tells whether the previous character is cased, [seen] whether a
    cased character occurred. *)
Fixpoint istitle_from (prev seen : bool) (t : str) : bool :=
  match t with
  | [] => seen
  | c :: t' =>
      if is_upper c then
        if prev then false else istitle_from true true t'
      else if is_lower c then
        if prev then istitle_from true true t' else false
      else istitle_from false seen t'
  end.

Definition istitle (t : str) : bool := istitle_from false false t.

(** [text.split()]: the maximal runs of non-space characters.  [cur] is
    the run being read, reversed. *)
Fixpoint split_from (cur : str) (t : str) : list str :=
  match t with
  | [] => match cur with [] => [] | _ => [rev cur] end
  | c :: t' =>
      if is_space c then
        match cur with
        | [] => split_from [] t'
        | _ => rev cur :: split_from [] t'
        end
      else split_from (c :: cur) t'
  end.

Definition split (t : str) : list str := split_from [] t.

(** [sep.join(parts)] *)
Fixpoint join (sep : str) (parts : list str) : str :=
  match parts with
  | [] => []
  | [p] => p
  | p :: rest => p ++ sep ++ join sep rest
  end.

(** [any(w in text for w in words)] *)
Definition any_in (words : list str) (t : str) : bool :=
  existsb (fun w => contains w t) words.

(** [text in words] for a list of strings. *)
Definition mem_str (t : str) (words : list str) : bool :=
  existsb (str_eqb t) words.

(* ===================================================================== *)
(** * Python regular expressions *)
(* ===================================================================== *)

(** The syntax of the patterns the two modules use.  [Rep lo hi r] is the
    greedy repetition [r{lo,hi}] ([hi = None]: unbounded), [Grp n r] the
    [n]-th capturing group and [Ref n] the back-reference [\n]. *)
Inductive regex : Type :=
| Eps : regex
| Chr : ascii -> regex
| Cls : (ascii -> bool) -> regex
| Dot : regex
| Bol : regex
| Eol : regex
| Cat : regex -> regex -> regex
| Alt : regex -> regex -> regex
| Rep : nat -> option nat -> regex -> regex
| Grp : nat -> regex -> regex
| Ref : nat -> regex.

Definition Star (r : regex) : regex := Rep 0 None r.
Definition Plus (r : regex) : regex := Rep 1 None r.
Definition Opt (r : regex) : regex := Rep 0 (Some 1%nat) r.
Definition AtLeast (n : nat) (r : regex) : regex := Rep n None r.

(** A literal run of characters. *)
Fixpoint Lit (w : str) : regex :=
  match w with
  | [] => Eps
  | [c] => Chr c
  | c :: w' => Cat (Chr c) (Lit w')
  end.

(** A sequence of patterns. *)
Fixpoint Seq (rs : list regex) : regex :=
  match rs with
  | [] => Eps
  | [r] => r
  | r :: rs' => Cat r (Seq rs')
  end.

(** An alternation [r1|r2|...]. *)
Fixpoint Alts (rs : list regex) : regex :=
  match rs with
  | [] => Cls (fun _ => false)
  | [r] => r
  | r :: rs' => Alt r (Alts rs')
  end.

Definition newline : ascii := ascii_of_nat 10.

(** The classes written [\d], [\s], [\w], [[^\w\s]] in the patterns. *)
Definition d_ : regex := Cls is_digit.
Definition s_ : regex := Cls is_space.
Definition w_ : regex := Cls is_word.
Definition not_word_space (c : ascii) : bool := negb (is_word c || is_space c).

(** A matcher state: the offset reached in the subject, the text that is
    left, and the groups captured so far (latest first). *)
Record mstate : Type := MState {
  m_off : nat;
  m_rest : str;
  m_caps : list (nat * str)
}.

Definition chr_match (ic : bool) (c x : ascii) : bool :=
  if ic then ascii_eqb (to_lower c) (to_lower x) else ascii_eqb c x.

Definition cls_match (ic : bool) (p : ascii -> bool) (x : ascii) : bool :=
  p x || (ic && (p (to_lower x) || p (to_upper x))).

Definition step1 (ok : ascii -> bool) (st : mstate) : list mstate :=
  match m_rest st with
  | x :: t => if ok x then [MState (S (m_off st)) t (m_caps st)] else []
  | [] => []
  end.

Fixpoint cap_lookup (n : nat) (caps : list (nat * str)) : option str :=
  match caps with
  | [] => None
  | (k, w) :: caps' => if (k =? n)%nat then Some w else cap_lookup n caps'
  end.

(** Consume the text [w] (a captured group) at the head of the subject. *)
Fixpoint eat (ic : bool) (w : str) (st : mstate) : list mstate :=
  match w with
  | [] => [st]
  | c :: w' => flat_map (eat ic w') (step1 (chr_match ic c) st)
  end.

(** Greedy repetition: the states after [lo] to [hi] rounds of [step],
    most rounds first.  A round must consume a character. *)
Fixpoint rep (step : mstate -> list mstate) (fuel lo : nat) (hi : option nat)
    (st : mstate) : list mstate :=
  let stop := match lo with O => [st] | S _ => [] end in
  match fuel with
  | O => stop
  | S fuel' =>
      match hi with
      | Some O => stop
      | _ =>
          flat_map (fun st' =>
                      if (m_off st <? m_off st')%nat
                      then rep step fuel' (pred lo) (option_map pred hi) st'
                      else [])
                   (step st) ++ stop
      end
  end.

(** All the ways [r] matches at the state [st], in the order in which
    Python's backtracking matcher tries them: the first one is the match
    Python reports.  [ic] is the flag [re.IGNORECASE]. *)
Fixpoint rmatch (ic : bool) (r : regex) (st : mstate) : list mstate :=
  match r with
  | Eps => [st]
  | Chr c => step1 (chr_match ic c) st
  | Cls p => step1 (cls_match ic p) st
  | Dot => step1 (fun x => negb (ascii_eqb x newline)) st
  | Bol => if (m_off st =? 0)%nat then [st] else []
  | Eol =>
      match m_rest st with
      | [] => [st]
      | [x] => if ascii_eqb x newline then [st] else []
      | _ => []
      end
  | Cat a b => flat_map (rmatch ic b) (rmatch ic a st)
  | Alt a b => rmatch ic a st ++ rmatch ic b st
  | Rep lo hi a => rep (rmatch ic a) (S (List.length (m_rest st))) lo hi st
  | Grp n a =>
      map (fun st' =>
             MState (m_off st') (m_rest st')
                    ((n, firstn (m_off st' - m_off st) (m_rest st)) :: m_caps st'))
          (rmatch ic a st)
  | Ref n =>
      match cap_lookup n (m_caps st) with
      | Some w => eat ic w st
      | None => []
      end
  end.

(** [re.match(pattern, text)] and [re.match(pattern, text, re.IGNORECASE)],
    as truth values. *)
Definition re_match_flags (ic : bool) (r : regex) (t : str) : bool :=
  match rmatch ic r (MState 0 t []) with
  | [] => false
  | _ :: _ => true
  end.

Definition re_match (r : regex) (t : str) : bool := re_match_flags false r t.

(** The leftmost match at or after the current offset: the characters
    skipped before it and the state after it.  With [adv] an empty match
    at the current offset is not accepted (the previous match was empty
    and ended here). *)
Fixpoint search (ic : bool) (r : regex) (adv : bool) (off : nat) (t : str)
    : option (str * mstate) :=
  match filter (fun st' => negb (adv && (m_off st' =? off)%nat))
               (rmatch ic r (MState off t [])) with
  | st' :: _ => Some ([], st')
  | [] =>
      match t with
      | [] => None
      | c :: t' =>
          match search ic r false (S off) t' with
          | Some (sk, st') => Some (c :: sk, st')
          | None => None
          end
      end
  end.

(** Replacement templates: literal text and group references [\n]. *)
Inductive titem : Type :=
| TLit : str -> titem
| TGrp : nat -> titem.

Fixpoint expand (tpl : list titem) (caps : list (nat * str)) : str :=
  match tpl with
  | [] => []
  | TLit w :: tpl' => w ++ expand tpl' caps
  | TGrp n :: tpl' =>
      match cap_lookup n caps with
      | Some w => w ++ expand tpl' caps
      | None => expand tpl' caps
      end
  end.

Fixpoint sub_from (fuel : nat) (r : regex) (tpl : list titem) (adv : bool)
    (off : nat) (t : str) : str :=
  match fuel with
  | O => t
  | S fuel' =>
      match search false r adv off t with
      | None => t
      | Some (sk, st') =>
          sk ++ expand tpl (m_caps st')
             ++ sub_from fuel' r tpl (m_off st' =? off + List.length sk)%nat
                         (m_off st') (m_rest st')
      end
  end.

(** [re.sub(pattern, repl, text)]: every non-overlapping match, leftmost
    first, is replaced by the expanded template. *)
Definition re_sub_tpl (r : regex) (tpl : list titem) (t : str) : str :=
  sub_from (2 * List.length t + 2) r tpl false 0 t.

(** [re.sub] with a replacement that has no group reference. *)
Definition re_sub (r : regex) (repl : str) (t : str) : str :=
  re_sub_tpl r [TLit repl] t.

(* ===================================================================== *)
(** * Numbers and sorting *)
(* ===================================================================== *)

Local Open Scope Q_scope.

Definition Qltb (x y : Q) : bool := negb (Qle_bool y x).
Definition Qgtb (x y : Q) : bool := Qltb y x.
Definition Qleb (x y : Q) : bool := Qle_bool x y.
Definition Qgeb (x y : Q) : bool := Qle_bool y x.

(** [abs(x)] *)
Definition Qabs_ (x : Q) : Q := if Qltb x 0 then - x else x.

(** [min(a, b)] and [max(a, b)] of Python: the first argument unless the
    second is strictly smaller (larger). *)
Definition min_ (a b : Q) : Q := if Qltb b a then b else a.
Definition max_ (a b : Q) : Q := if Qltb a b then b else a.

(** [max(xs)] for a non-empty list, [dflt] for the empty one. *)
Definition max_list (dflt : Q) (xs : list Q) : Q :=
  match xs with
  | [] => dflt
  | x :: xs' => fold_left max_ xs' x
  end.

(** [list.sort(key=...)] and [sorted]: Python's sort is stable, so the
    result is the one of insertion by the strict order [lt] on keys. *)
Section Sort.
Variable A : Type.
Variable lt : A -> A -> bool.

Fixpoint insert (x : A) (l : list A) : list A :=
  match l with
  | [] => [x]
  | y :: l' => if lt y x then y :: insert x l' else x :: l
  end.

Fixpoint sort_by (l : list A) : list A :=
  match l with
  | [] => []
  | x :: l' => insert x (sort_by l')
  end.

(** [max(xs, key=...)]: the first element no later one is greater than. *)
Fixpoint max_by (x : A) (l : list A) : A :=
  match l with
  | [] => x
  | y :: l' => if lt x y then max_by y l' else max_by x l'
  end.

End Sort.

(* ===================================================================== *)
(** * helper.py: the data model *)
(* ===================================================================== *)

(** The level strings ["H1"], ["H2"], ["H3"]; the empty string, which the
    code tests for falsity, is [None]. *)
Inductive Level : Type := H1 | H2 | H3.

(** A bounding box [(bbox[0], bbox[1], bbox[2], bbox[3])]: left, top,
    right, bottom. *)
Definition BBox : Type := (Q * Q * Q * Q)%type.

Definition bb0 (b : BBox) : Q := let '(a, _, _, _) := b in a.
Definition bb1 (b : BBox) : Q := let '(_, a, _, _) := b in a.
Definition bb2 (b : BBox) : Q := let '(_, _, a, _) := b in a.
Definition bb3 (b : BBox) : Q := let '(_, _, _, a) := b in a.

(** The dataclass [Heading]; [bbox] is [None] for a line with no text. *)
Record Heading : Type := mkHeading {
  text : str;
  level : option Level;
  page : Z;
  bbox : option BBox;
  font_size : Q;
  font_name : str;
  confidence : Q
}.

(** An outline entry [{"level": ..., "text": ..., "page": ...}]. *)
Record Entry : Type := mkEntry {
  entry_level : Level;
  entry_text : str;
  entry_page : Z
}.

(** A result dictionary [{"title": ..., "outline": ...}], with the key
    ["error"] when present. *)
Record Result : Type := mkResult {
  title : str;
  outline : list Entry;
  error : option str
}.

(** What the PDF layer returns: a span of [page.get_text("dict")], a line
    (its spans), a block (with or without the key ["lines"]), a page with
    its rectangle and its plain text [page.get_text()], and a document
    with its table of contents [doc.get_toc()]. *)
Record Span : Type := mkSpan {
  span_text : str;
  span_size : Q;
  span_font : str;
  span_flags : Z;
  span_bbox : BBox
}.

Definition Line : Type := list Span.

Inductive Block : Type :=
| TextBlock : list Line -> Block
| ImageBlock : Block.

Record Page : Type := mkPage {
  blocks : list Block;
  rect_height : Q;
  rect_width : Q;
  plain_text : str
}.

Record Doc : Type := mkDoc {
  pages : list Page;
  get_toc : list (Z * str * Z)
}.

(** The outcome of a call that may raise. *)
Inductive outcome (A : Type) : Type :=
| Raised : str -> outcome A
| Returned : A -> outcome A.
Arguments Raised {A} _.
Arguments Returned {A} _.

(** What the embedding takes from the Python runtime and numpy:
    [np.mean], [np.std], and the order in which a [set] of strings is
    iterated (it depends on the string hashes of the run). *)
Record Runtime : Type := mkRuntime {
  np_mean : list Q -> Q;
  np_std : list Q -> Q;
  set_iter : list str -> list str
}.

(* ===================================================================== *)
(** * helper.py: PDFHeadingAnalyzer *)
(* ===================================================================== *)

Local Open Scope string_scope.
Local Open Scope list_scope.

(** The list [fragments] of [_is_potential_heading]. *)
Definition fragments : list str :=
  [ "quest f" : str; "r pr" : str; "oposal" : str; "rfp:" : str;
    "request f" : str; "quest for pr" : str; "r proposal" : str;
    "for pr" : str; "pr" : str; "quest" : str; "equest" : str; "r" : str;
    "f" : str; "quest for" : str; "proposal" : str; "present" : str;
    "developing" : str; "business" : str; "plan" : str; "ontario" : str;
    "digital" : str; "library" : str ].

Definition vowels : list str :=
  [ "a" : str; "e" : str; "i" : str; "o" : str; "u" : str ].

(** The copyright sign, code point 169. *)
Definition copyright_sign : ascii := ascii_of_nat 169.

(** The list [header_footer_patterns] of [_is_header_or_footer]. *)
Definition header_footer_patterns : list regex :=
  [ Seq [Bol; Plus d_; Eol];
    Seq [Bol; Lit "page"; Plus s_; Plus d_];
    Seq [Bol; Plus d_; Star s_; Chr "/"; Star s_; Plus d_; Eol];
    Seq [Bol; Chr copyright_sign; Star Dot];
    Seq [Bol; Lit "copyright"; Star Dot];
    Seq [Bol; Lit "all rights reserved"];
    Seq [Bol; Plus w_; Chr "."; Grp 1 (Alts [Lit "com"; Lit "org"; Lit "net"])];
    Seq [Bol; Lit "www"; Chr "."];
    Seq [Bol; Lit "http"; Opt (Chr "s"); Lit "://"];
    Alts [Seq [Bol; Lit "draft"; Eol];
          Seq [Bol; Lit "confidential"; Eol];
          Seq [Bol; Lit "proprietary"; Eol]] ].

(** [_is_header_or_footer(text, bbox, page_height, page_width)] *)
Definition _is_header_or_footer (txt : str) (bb : option BBox)
    (page_height page_width : Q) : bool :=
  match bb with
  | None => false
  | Some b =>
      let header_threshold := page_height * 0.1 in
      let footer_threshold := page_height * 0.9 in
      let y_position := bb1 b in
      if Qltb y_position header_threshold || Qgtb y_position footer_threshold
      then true
      else
        let text_lower := strip (lower txt) in
        existsb (fun pattern => re_match pattern text_lower)
                header_footer_patterns
  end.

(** [_is_potential_heading(text, font_sizes, font_names, bbox,
    page_height, page_width)] *)
Definition _is_potential_heading (txt : str) (font_sizes : list Q)
    (font_names : list str) (bb : option BBox)
    (page_height page_width : Q) : bool :=
  if (len txt <? 3)%Z then false
  else if (len txt >? 200)%Z then false
  else
    let text_lower := strip (lower txt) in
    if mem_str text_lower fragments then false
    else if (len txt <? 5)%Z && negb (isupper txt) then false
    else if (len txt <? 8)%Z && negb (any_in vowels text_lower)
            && negb (isupper txt) then false
    else if islower (firstn 1 txt) then false
    else if _is_header_or_footer txt bb page_height page_width then false
    else if negb (Nat.eqb (List.length font_sizes) 0)
            && Qltb (max_list 0 font_sizes) 8 then false
    else true.

(** [_should_merge(heading1, heading2)] *)
Definition _should_merge (heading1 heading2 : Heading) : bool :=
  if negb (page heading1 =? page heading2)%Z then false
  else if Qgtb (Qabs_ (font_size heading1 - font_size heading2)) 1.0 then false
  else if negb (str_eqb (font_name heading1) (font_name heading2)) then false
  else if match bbox heading1, bbox heading2 with
          | Some b1, Some b2 => Qgtb (Qabs_ (bb1 b2 - bb3 b1)) 30
          | _, _ => false
          end then false
  else if (len (text heading1) + len (text heading2) + 1 >? 300)%Z then false
  else true.

(** The sort key [(x.page, x.bbox[1] if x.bbox else 0)] and the order of
    Python's tuples on it. *)
Definition pos_key (x : Heading) : Z * Q :=
  (page x, match bbox x with Some b => bb1 b | None => 0 end).

Definition key_lt (k1 k2 : Z * Q) : bool :=
  (fst k1 <? fst k2)%Z || ((fst k1 =? fst k2)%Z && Qltb (snd k1) (snd k2)).

Definition pos_lt (x y : Heading) : bool := key_lt (pos_key x) (pos_key y).

(** The union of the boxes, when both are there. *)
Definition expand_bbox (merged_bbox next_bbox : option BBox) : option BBox :=
  match merged_bbox, next_bbox with
  | Some m, Some n =>
      Some (min_ (bb0 m) (bb0 n), min_ (bb1 m) (bb1 n),
            max_ (bb2 m) (bb2 n), max_ (bb3 m) (bb3 n))
  | _, _ => merged_bbox
  end.

(** The heading a run is closed into. *)
Definition merged_heading (current : Heading) (merged_text : str)
    (merged_bbox : option BBox) : Heading :=
  mkHeading (strip merged_text) None (page current) merged_bbox
            (font_size current) (font_name current) 0.0.

(** The two nested loops of [_merge_adjacent_headings] over the sorted
    list: [current] is [headings[i]], the head of the run, [merged_text]
    and [merged_bbox] what the run has gathered, [l] is [headings[j:]].
    When [headings[j]] is not merged the run is closed and the outer loop
    goes on with [i = j]. *)
Fixpoint merge_run (current : Heading) (merged_text : str)
    (merged_bbox : option BBox) (l : list Heading) : list Heading :=
  match l with
  | [] => [merged_heading current merged_text merged_bbox]
  | next_heading :: l' =>
      if _should_merge current next_heading
      then merge_run current (merged_text ++ (" " : str) ++ text next_heading)
                     (expand_bbox merged_bbox (bbox next_heading)) l'
      else merged_heading current merged_text merged_bbox
           :: merge_run next_heading (text next_heading) (bbox next_heading) l'
  end.

(** [_merge_adjacent_headings(headings)] *)
Definition _merge_adjacent_headings (headings : list Heading) : list Heading :=
  match sort_by pos_lt headings with
  | [] => []
  | current :: l => merge_run current (text current) (bbox current) l
  end.

(** The patterns of numbered headings in [_analyze_text_patterns]. *)
Definition numbered1 : regex := Seq [Bol; Plus d_; Opt (Chr "."); Plus s_].
Definition numbered2 : regex :=
  Seq [Bol; Plus d_; Chr "."; Plus d_; Opt (Chr "."); Plus s_].
Definition numbered3 : regex :=
  Seq [Bol; Plus d_; Chr "."; Plus d_; Chr "."; Plus d_; Opt (Chr "."); Plus s_].

Definition keywords : list str :=
  [ "chapter" : str; "section" : str; "part" : str; "introduction" : str;
    "conclusion" : str ].

(** [_analyze_text_patterns(text)] *)
Definition _analyze_text_patterns (txt : str) : Q :=
  let score := 0.0 in
  let score :=
    if re_match numbered1 txt then score + 1.0
    else if re_match numbered2 txt then score + 0.8
    else if re_match numbered3 txt then score + 0.6
    else score in
  let score := if istitle txt then score + 0.6 else score in
  let score :=
    if isupper txt && (Z.of_nat (List.length (split txt)) <=? 8)%Z
    then score + 0.7 else score in
  let word_count := Z.of_nat (List.length (split txt)) in
  let score :=
    if (word_count >? 20)%Z then score - 0.8
    else if (word_count >? 15)%Z then score - 0.5
    else score in
  let score := if any_in keywords (lower txt) then score + 0.8 else score in
  score.

(** [_analyze_typography(font_name)] *)
Definition _analyze_typography (name : str) : Q :=
  match name with
  | [] => 0.0
  | _ =>
      let font_lower := lower name in
      if any_in ["bold" : str; "black" : str; "heavy" : str] font_lower then 1.0
      else if any_in ["medium" : str; "semi" : str] font_lower then 0.5
      else 0.0
  end.

(** [_analyze_position(bbox, page)] *)
Definition _analyze_position (bb : option BBox) (pg : Z) : Q :=
  match bb with
  | None => 0.0
  | Some b =>
      let score := 0.0 in
      let score :=
        if Qltb 100 (bb1 b) && Qltb (bb1 b) 250 then score + 0.5 else score in
      let score := if (pg =? 1)%Z then score + 0.3 else score in
      score
  end.

(** The four features and their weighted sum, as
    [_calculate_heading_level] computes them. *)
Definition font_score_of (heading : Heading) (mean_size std_size : Q) : Q :=
  (font_size heading - mean_size) / (std_size + 1e-6).

Definition total_score_of (font_score pattern_score format_score
    position_score : Q) : Q :=
  0.4 * font_score + 0.3 * pattern_score
  + 0.2 * format_score + 0.1 * position_score.

(** The thresholds of [_calculate_heading_level]. *)
Definition level_of_scores (font_score total_score : Q) : option Level * Q :=
  if Qgtb total_score 1.5 || Qgtb font_score 2.0
  then (Some H1, min_ 0.95 (0.7 + total_score * 0.1))
  else if Qgtb total_score 0.8 || Qgtb font_score 1.0
  then (Some H2, min_ 0.9 (0.6 + total_score * 0.1))
  else if Qgtb total_score 0.3 || Qgtb font_score 0.5
  then (Some H3, min_ 0.85 (0.5 + total_score * 0.1))
  else (None, 0.0).

(** [_calculate_heading_level(heading, mean_size, std_size)] *)
Definition _calculate_heading_level (heading : Heading)
    (mean_size std_size : Q) : option Level * Q :=
  let font_score := font_score_of heading mean_size std_size in
  let pattern_score := _analyze_text_patterns (text heading) in
  let format_score := _analyze_typography (font_name heading) in
  let position_score := _analyze_position (bbox heading) (page heading) in
  let total_score :=
    total_score_of font_score pattern_score format_score position_score in
  level_of_scores font_score total_score.

(** [enumerate(l, start)] *)
Fixpoint enumerate_from (A : Type) (start : Z) (l : list A) : list (Z * A) :=
  match l with
  | [] => []
  | x :: l' => (start, x) :: enumerate_from (start + 1)%Z l'
  end.

(** The text lines of a page: the lines of its blocks that have the key
    ["lines"], in order. *)
Definition block_lines (b : Block) : list Line :=
  match b with
  | TextBlock ls => ls
  | ImageBlock => []
  end.

Definition page_lines (p : Page) : list Line := flat_map block_lines (blocks p).

(** What the span loop of [_extract_page_headings] gathers for a line. *)
Record LineAcc : Type := mkLineAcc {
  line_text : str;
  font_sizes : list Q;
  font_names : list str;
  line_bbox : option BBox
}.

Definition add_span (acc : LineAcc) (span : Span) : LineAcc :=
  let txt := strip (span_text span) in
  match txt with
  | [] => acc
  | _ =>
      mkLineAcc (line_text acc ++ txt ++ (" " : str))
                (font_sizes acc ++ [span_size span])
                (font_names acc ++ [span_font span])
                (match line_bbox acc with
                 | None => Some (span_bbox span)
                 | Some b =>
                     let sb := span_bbox span in
                     Some (min_ (bb0 b) (bb0 sb), min_ (bb1 b) (bb1 sb),
                           max_ (bb2 b) (bb2 sb), max_ (bb3 b) (bb3 sb))
                 end)
  end.

Definition gather_line (line : Line) : LineAcc :=
  let acc := fold_left add_span line (mkLineAcc [] [] [] None) in
  mkLineAcc (strip (line_text acc)) (font_sizes acc) (font_names acc)
            (line_bbox acc).

(** [names.count(x)] *)
Definition count_str (names : list str) (x : str) : nat :=
  List.length (filter (str_eqb x) names).

Section Analyzer.

Variable rt : Runtime.

(** [max(set(font_names), key=font_names.count) if font_names else ""] *)
Definition dominant_font (names : list str) : str :=
  match names with
  | [] => []
  | _ =>
      match set_iter rt names with
      | [] => []
      | x :: l =>
          max_by (fun a b => (count_str names a <? count_str names b)%nat) x l
      end
  end.

(** The heading [_extract_page_headings] builds from an admitted line. *)
Definition heading_of_line (acc : LineAcc) (page_num : Z) : Heading :=
  mkHeading (line_text acc) None page_num (line_bbox acc)
            (max_list 0 (font_sizes acc))
            (dominant_font (font_names acc)) 0.0.

Definition is_candidate (p : Page) (acc : LineAcc) : bool :=
  _is_potential_heading (line_text acc) (font_sizes acc) (font_names acc)
                        (line_bbox acc) (rect_height p) (rect_width p).

(** [_extract_page_headings(page, page_num)] *)
Definition _extract_page_headings (p : Page) (page_num : Z) : list Heading :=
  map (fun acc => heading_of_line acc page_num)
      (filter (is_candidate p) (map gather_line (page_lines p))).

(** [_classify_headings(headings)] *)
Definition _classify_headings (headings : list Heading) : Result :=
  match headings with
  | [] => mkResult [] [] None
  | _ =>
      let sizes := map font_size headings in
      let mean_size := np_mean rt sizes in
      let std_size :=
        if (1 <? List.length sizes)%nat then np_std rt sizes else 1 in
      let headings := sort_by pos_lt headings in
      let page1_headings := filter (fun h => (page h =? 1)%Z) headings in
      let title :=
        match page1_headings with
        | [] => []
        | h :: l =>
            text (max_by (fun a b => Qltb (font_size a) (font_size b)) h l)
        end in
      let classify heading :=
        if str_eqb (text heading) title then []
        else
          match _calculate_heading_level heading mean_size std_size with
          | (Some lvl, conf) =>
              if Qgtb conf 0.3
              then [mkEntry lvl (text heading) (page heading)]
              else []
          | (None, _) => []
          end in
      let outline := flat_map classify headings in
      mkResult title
               (sort_by (fun a b => (entry_page a <? entry_page b)%Z) outline)
               None
  end.

(** The list [all_headings] of [analyze_pdf_from_doc]: the candidates of
    every page, [page_num + 1] being the page's number. *)
Definition all_headings (doc : Doc) : list Heading :=
  flat_map (fun ip => _extract_page_headings (snd ip) (fst ip))
           (enumerate_from 1 (pages doc)).

(** [analyze_pdf_from_doc(doc)] *)
Definition analyze_pdf_from_doc (doc : Doc) : Result :=
  let merged_headings := _merge_adjacent_headings (all_headings doc) in
  _classify_headings merged_headings.

(** [analyze_pdf(pdf_path)]: [opened] is what [fitz.open(pdf_path)]
    returns or raises. *)
Definition analyze_pdf (opened : outcome Doc) : outcome Result :=
  match opened with
  | Raised e => Raised e
  | Returned doc => Returned (analyze_pdf_from_doc doc)
  end.

(** [analyze_pdf_headings(pdf_path)], before [json.dumps]. *)
Definition analyze_pdf_headings (opened : outcome Doc) : Result :=
  match analyze_pdf opened with
  | Returned results => results
  | Raised e => mkResult [] [] (Some (("Analysis failed: " : str) ++ e))
  end.

End Analyzer.

(* ===================================================================== *)
(** * main.py: PDFOutlineExtractor *)
(* ===================================================================== *)

Definition upper_or_space (c : ascii) : bool := is_upper c || is_space c.
Definition lower_or_space (c : ascii) : bool := is_lower c || is_space c.
Definition one_two_three (c : ascii) : bool := in_range 49 51 c.

(** [self.h1_patterns], [self.h2_patterns], [self.h3_patterns] *)
Definition h1_patterns : list regex :=
  [ Seq [Bol; Grp 1 (Alt (Lit "Chapter") (Lit "CHAPTER")); Plus s_; Plus d_];
    Seq [Bol; Grp 1 (Alt (Lit "Appendix") (Lit "APPENDIX")); Star s_;
         Opt (Cls is_upper); Opt (Chr ":"); Star s_];
    Seq [Bol; Plus d_; Chr "."; Plus s_; Cls is_upper; Star Dot];
    Seq [Bol;
         Grp 1 (Alts [Lit "Summary"; Lit "Background"; Lit "Introduction";
                      Lit "Overview"; Lit "Conclusion"; Lit "References";
                      Cat (Lit "Acknowledgement") (Opt (Chr "s"))]);
         Eol];
    Seq [Bol;
         Grp 1 (Alt (Seq [Lit "Table"; Plus s_; Lit "of"; Plus s_; Lit "Contents"])
                    (Seq [Lit "Revision"; Plus s_; Lit "History"]));
         Eol];
    Seq [Bol; Grp 1 (Alt (Lit "Phase") (Lit "PHASE")); Plus s_;
         Grp 2 (Alt (Rep 1 (Some 3%nat) (Chr "I")) (Cls one_two_three));
         Opt (Chr ":"); Star s_];
    Seq [Bol; Cls is_upper; AtLeast 10 (Cls upper_or_space); Eol];
    Seq [Bol; Lit "PATHWAY"; Plus s_; Lit "OPTIONS"; Eol];
    Seq [Bol; Lit "HOPE"; Plus s_; Lit "To"; Plus s_; Lit "SEE"; Plus s_;
         Lit "You"; Plus s_; Lit "THERE!"; Eol] ].

Definition h2_patterns : list regex :=
  [ Seq [Bol; Plus d_; Chr "."; Plus d_; Plus s_; Cls is_upper; Star Dot] ].

Definition h3_patterns : list regex :=
  [ Seq [Bol; Plus d_; Chr "."; Plus d_; Chr "."; Plus d_; Plus s_;
         Cls is_upper; Star Dot];
    Seq [Bol; Cls is_upper; Plus (Cls lower_or_space); Chr ":"; Star s_; Eol] ].

(** [self.form_keywords] *)
Definition form_keywords : list str :=
  [ "application form" : str; "grant of ltc" : str;
    "government servant" : str; "designation" : str; "service book" : str;
    "signature" : str ].

(** [_is_form_document(doc)] *)
Definition _is_form_document (doc : Doc) : bool :=
  if (5 <? List.length (pages doc))%nat then false
  else
    let txt := flat_map (fun p => lower (plain_text p)) (firstn 3 (pages doc)) in
    let form_score :=
      Z.of_nat (List.length (filter (fun keyword => contains keyword txt)
                                    form_keywords)) in
    let form_score := if (len txt <? 800)%Z then (form_score + 1)%Z else form_score in
    let form_score :=
      if contains "ltc" txt && contains "advance" txt
      then (form_score + 2)%Z else form_score in
    (form_score >=? 3)%Z.

(** The five substitutions of [_clean_text]. *)
Definition repeated_chars : regex := Seq [Grp 1 Dot; AtLeast 3 (Ref 1)].
Definition spaces : regex := Plus s_.
Definition camel_case : regex := Seq [Grp 1 (Cls is_lower); Grp 2 (Cls is_upper)].
Definition leading_garbage : regex := Seq [Bol; Star (Cls not_word_space)].
Definition trailing_garbage : regex := Seq [Star (Cls not_word_space); Eol].

(** [_clean_text(text)] *)
Definition _clean_text (txt : str) : str :=
  match txt with
  | [] => []
  | _ =>
      let txt := re_sub_tpl repeated_chars [TGrp 1] txt in
      let txt := re_sub spaces " " txt in
      let txt := re_sub_tpl camel_case [TGrp 1; TLit " "; TGrp 2] txt in
      let txt := re_sub leading_garbage "" txt in
      let txt := re_sub trailing_garbage "" txt in
      strip txt
  end.

(** The patterns of [_cleanup_extracted_title], in the order of use. *)
Definition rx_rfp_r : regex :=
  Plus (Grp 1 (Seq [Lit "RFP:"; Star s_; Chr "R"; Star s_])).
Definition rx_quest_f : regex :=
  Plus (Grp 1 (Seq [Lit "quest"; Star s_; Chr "f"; Star s_])).
Definition rx_r_quest_for : regex :=
  Seq [Chr "R"; Star s_; Lit "quest"; Star s_; Lit "fo"; Opt (Chr "r")].
Definition rx_equest : regex := Lit "equest".
Definition rx_pr_oposal : regex := Seq [Lit "Pr"; Star s_; Lit "oposal"].
Definition rx_oposal : regex := Lit "oposal".
Definition rx_r_pr : regex :=
  Plus (Grp 1 (Seq [Star s_; Chr "r"; Star s_; Lit "Pr"; Star s_])).
Definition rx_rfp_rfp : regex := Seq [Lit "RFP:"; Star s_; Lit "RFP:"].
Definition rx_request_for_o : regex :=
  Seq [Lit "Request"; Plus s_; Lit "for"; Plus s_; Chr "o"; Star s_; Eol].
Definition rx_rfp_request_for_oposal : regex :=
  Seq [Lit "RFP:"; Star s_; Lit "Request"; Plus s_; Lit "for"; Plus s_;
       Lit "oposal"; Star Dot].
Definition rx_quest_for_proposal : regex :=
  Seq [Lit "quest"; Plus s_; Lit "for"; Plus s_; Lit "Proposal"; Star Dot].

(** The two canonical titles [_cleanup_extracted_title] returns. *)
Definition full_rfp_title : str :=
  "RFP:Request for Proposal To Present a Proposal for Developing the Business Plan for the Ontario Digital Library".
Definition partial_rfp_title : str := "RFP:Request for Proposal".

(** The nine substitutions that open [_cleanup_extracted_title]. *)
Definition repair_title (title : str) : str :=
  let title := re_sub rx_rfp_r "RFP:" title in
  let title := re_sub rx_quest_f "quest for " title in
  let title := re_sub rx_r_quest_for "Request for" title in
  let title := re_sub rx_equest "Request" title in
  let title := re_sub rx_pr_oposal "Proposal" title in
  let title := re_sub rx_oposal "Proposal" title in
  let title := re_sub rx_r_pr " " title in
  let title := re_sub rx_rfp_rfp "RFP:" title in
  let title := re_sub spaces " " title in
  title.

(** [_cleanup_extracted_title(title)] *)
Definition _cleanup_extracted_title (title : str) : str :=
  match title with
  | [] => []
  | _ =>
      let original := title in
      let title := repair_title title in
      let reconstructed :=
        if contains "RFP:" title && (contains "quest" title || contains "Request" title)
        then
          let combined_text := title ++ (" " : str) ++ original in
          let has_request :=
            contains "Request" combined_text || contains "quest" combined_text
            || contains "equest" combined_text in
          let has_proposal :=
            contains "Proposal" combined_text || contains "oposal" combined_text in
          if has_request && has_proposal then Some full_rfp_title
          else if has_request then Some partial_rfp_title
          else None
        else None in
      match reconstructed with
      | Some t => t
      | None =>
          let title := re_sub rx_request_for_o "Request for Proposal" title in
          let title :=
            re_sub rx_rfp_request_for_oposal "RFP:Request for Proposal" title in
          let title := re_sub rx_quest_for_proposal "Request for Proposal" title in
          if contains "RFP:" title
             && (contains "Request" title || contains "quest" title)
             && contains "Proposal" title
          then full_rfp_title
          else strip title
      end
  end.

(** [round(x)] on a float: to the nearest integer, ties to the even one. *)
Definition round (x : Q) : Z :=
  let f := Qfloor x in
  let r := x - inject_Z f in
  if Qltb r 0.5 then f
  else if Qltb 0.5 r then (f + 1)%Z
  else if Z.even f then f else (f + 1)%Z.

(** The spans of a line that [_extract_title_carefully] keeps: the first
    span at each rounded start position.  [seen_positions] is the set of
    the keys met so far. *)
Fixpoint unique_spans (seen_positions : list (Z * Z)) (line : Line) : list Span :=
  match line with
  | [] => []
  | span :: line' =>
      let pos_key := (round (bb0 (span_bbox span)), round (bb1 (span_bbox span))) in
      if existsb (fun k => (fst k =? fst pos_key)%Z && (snd k =? snd pos_key)%Z)
                 seen_positions
      then unique_spans seen_positions line'
      else span :: unique_spans (pos_key :: seen_positions) line'
  end.

(** An element of [text_elements]. *)
Record TextElement : Type := mkTextElement {
  el_text : str;
  el_font_size : Q;
  el_is_bold : bool;
  el_y_pos : Q;
  el_x_pos : Q
}.

(** The pattern [^page\s+\d+] of the title extractor. *)
Definition page_number : regex := Seq [Bol; Lit "page"; Plus s_; Plus d_].

(** The text element of a line, when the line is substantial. *)
Definition text_element (max_font : Q) (line : Line) : list TextElement :=
  let spans := unique_spans [] line in
  let line_text := flat_map span_text spans in
  let line_font_size := fold_left (fun m sp => max_ m (span_size sp)) spans 0 in
  let line_is_bold :=
    existsb (fun sp => negb (Z.land (span_flags sp) 16 =? 0)%Z) spans in
  let line_bbox := match spans with [] => None | sp :: _ => Some (span_bbox sp) end in
  let line_text := _clean_text line_text in
  if (len line_text >? 2)%Z
     && Qgeb line_font_size (max_font * 0.6)
     && negb (isdigit line_text)
     && negb (re_match page_number (lower line_text))
  then [mkTextElement line_text line_font_size line_is_bold
                      (match line_bbox with Some b => bb1 b | None => 0 end)
                      (match line_bbox with Some b => bb0 b | None => 0 end)]
  else [].

(** The order of the keys [(-font_size, -y_pos, x_pos)]. *)
Definition size_order (a b : TextElement) : bool :=
  Qltb (- el_font_size a) (- el_font_size b)
  || (Qeq_bool (- el_font_size a) (- el_font_size b)
      && (Qltb (- el_y_pos a) (- el_y_pos b)
          || (Qeq_bool (- el_y_pos a) (- el_y_pos b)
              && Qltb (el_x_pos a) (el_x_pos b)))).

(** The order of the keys [(y_pos, x_pos)]. *)
Definition reading_order (a b : TextElement) : bool :=
  Qltb (el_y_pos a) (el_y_pos b)
  || (Qeq_bool (el_y_pos a) (el_y_pos b) && Qltb (el_x_pos a) (el_x_pos b)).

(** The first [cleaned_partial] the loop over [range(1, min(len(title_parts)
    + 1, 6))] returns; [i] runs over the values still to try. *)
Fixpoint first_partial (title_parts : list str) (i : nat) (todo : nat) : option str :=
  match todo with
  | O => None
  | S todo' =>
      let partial_title := strip (join " " (firstn i title_parts)) in
      let cleaned_partial := _cleanup_extracted_title partial_title in
      if contains "RFP:" cleaned_partial && contains "Proposal" cleaned_partial
         && (len cleaned_partial >? 30)%Z
      then Some cleaned_partial
      else first_partial title_parts (S i) todo'
  end.

(** The end of [_extract_title_carefully], from [if title_parts:] on. *)
Definition title_of_parts (title_parts : list str) : str :=
  match title_parts with
  | [] => []
  | first_part :: _ =>
      let full_title := strip (join " " title_parts) in
      let cleaned_title := _cleanup_extracted_title full_title in
      if contains "RFP:" cleaned_title && (len cleaned_title >? 50)%Z
      then cleaned_title
      else
        match first_partial title_parts 1
                (Nat.min (List.length title_parts + 1) 6 - 1) with
        | Some cleaned_partial => cleaned_partial
        | None =>
            if (len cleaned_title >? 15)%Z then cleaned_title
            else _cleanup_extracted_title first_part
        end
  end.

(** [title_parts] of [_extract_title_carefully] for the first page. *)
Definition title_parts_of (p : Page) : list str :=
  let spans := flat_map (fun l => l) (page_lines p) in
  let max_font := fold_left (fun m sp => max_ m (span_size sp)) spans 0 in
  let text_elements := flat_map (text_element max_font) (page_lines p) in
  match sort_by size_order text_elements with
  | [] => []
  | (top :: _) as text_elements =>
      let top_font := el_font_size top in
      let similar_font_elements :=
        filter (fun elem => Qgeb (el_font_size elem) (top_font * 0.9)
                            && Qgeb (el_font_size elem) (max_font * 0.7))
               (firstn 10 text_elements) in
      let similar_font_elements := sort_by reading_order similar_font_elements in
      map el_text similar_font_elements
  end.

(** [_extract_title_carefully(doc)] *)
Definition _extract_title_carefully (doc : Doc) : str :=
  match pages doc with
  | [] => []
  | p :: _ => title_of_parts (title_parts_of p)
  end.

(** The level [_extract_headings_pattern_only] gives a line: the first
    list of patterns one of which matches, ignoring case. *)
Definition pattern_level (txt : str) : option Level :=
  if existsb (fun pattern => re_match_flags true pattern txt) h1_patterns
  then Some H1
  else if existsb (fun pattern => re_match_flags true pattern txt) h2_patterns
  then Some H2
  else if existsb (fun pattern => re_match_flags true pattern txt) h3_patterns
  then Some H3
  else None.

(** The body of the loops of [_extract_headings_pattern_only] for one
    line: the state is the list [headings] and the set [seen]. *)
Definition pattern_line (page_num : Z) (st : list Entry * list str) (line : Line)
    : list Entry * list str :=
  let '(headings, seen) := st in
  let txt := strip (flat_map span_text line) in
  if mem_str (lower txt) seen || (len txt <? 3)%Z then st
  else
    match pattern_level txt with
    | Some lvl => (headings ++ [mkEntry lvl txt (page_num + 1)], lower txt :: seen)
    | None => st
    end.

Definition pattern_page (st : list Entry * list str) (ip : Z * Page)
    : list Entry * list str :=
  fold_left (pattern_line (fst ip)) (page_lines (snd ip)) st.

(** [_extract_headings_pattern_only(doc)] *)
Definition _extract_headings_pattern_only (doc : Doc) : list Entry :=
  fst (fold_left pattern_page (enumerate_from 0 (pages doc)) ([], [])).

(** [_process_toc(toc)] *)
Definition toc_entry (item : Z * str * Z) : list Entry :=
  let '(lvl, ttl, pg) := item in
  if (len (strip ttl) <? 3)%Z then []
  else
    let heading_level :=
      if (lvl =? 1)%Z then H1
      else if (lvl =? 2)%Z then H2
      else if (lvl =? 3)%Z then H3
      else H3 in
    [mkEntry heading_level (strip ttl) (Z.max 1 pg)].

Definition _process_toc (toc : list (Z * str * Z)) : list Entry :=
  flat_map toc_entry toc.

(** [text.endswith(s)] and [text.count(c)] for a one-character [c]. *)
Definition endswith (s t : str) : bool := startswith (rev s) (rev t).

Definition count_char (c : ascii) (t : str) : Z :=
  Z.of_nat (List.length (filter (ascii_eqb c) t)).

(** The tuple of sentence starters and the paragraph words of
    [_determine_heading_level_by_font]. *)
Definition sentence_starters : list str :=
  [ "the " : str; "this " : str; "it " : str; "in " : str; "on " : str;
    "at " : str; "for " : str; "and " : str; "or " : str; "but " : str;
    "with " : str; "by " : str; "from " : str; "to " : str; "of " : str;
    "a " : str; "an " : str ].

Definition paragraph_words : list str :=
  [ " will " : str; " the " : str; " and " : str; " that " : str ].

(** The test "it looks like regular text" of
    [_determine_heading_level_by_font]; [text[0]] is read only when the
    text has four characters at least. *)
Definition looks_like_text (txt : str) : bool :=
  (len txt >? 80)%Z
  || (len txt <? 4)%Z
  || existsb (fun starter => startswith starter (lower txt)) sentence_starters
  || negb (isupper (firstn 1 txt))
  || (count_char "." txt >? 1)%Z
  || (count_char "," txt >? 2)%Z
  || any_in paragraph_words (lower txt).

(** [_determine_heading_level_by_font(text, font_size, is_bold,
    is_underline, x_pos, h1_threshold, h2_threshold, h3_threshold)] *)
Definition _determine_heading_level_by_font (txt : str) (size : Q)
    (is_bold is_underline : bool) (x_pos : Q)
    (h1_threshold h2_threshold h3_threshold : Q) : option Level :=
  if existsb (fun pattern => re_match_flags true pattern txt) h1_patterns
  then Some H1
  else if existsb (fun pattern => re_match_flags true pattern txt) h2_patterns
  then Some H2
  else if existsb (fun pattern => re_match_flags true pattern txt) h3_patterns
  then Some H3
  else if looks_like_text txt then None
  else if Qgeb size (h1_threshold * 1.5)
          && is_bold
          && (isupper txt || endswith ":" txt)
          && (len txt <=? 50)%Z
  then Some H1
  else None.

(** The lists [noise_patterns] and [fragments] of [_is_noise_or_fragment]. *)
Definition noise_patterns : list regex :=
  [ Seq [Bol; Plus d_; Eol];
    Seq [Bol; Cls is_upper; Eol];
    Seq [Bol; Lit "page"; Plus s_; Plus d_];
    Seq [Bol; Lit "see"; Plus s_];
    Seq [Bol; Lit "figure"; Plus s_];
    Seq [Bol; Lit "table"; Plus s_];
    Seq [Bol; Lit "continued"];
    Seq [Bol; Plus (Cls not_word_space); Eol];
    Seq [Bol; Lit "www"; Chr "."];
    Seq [Bol; Lit "http"; Opt (Chr "s"); Lit "://"] ].

Definition noise_fragments : list str :=
  [ "quest f" : str; "r pr" : str; "oposal" : str; "rfp:" : str;
    "request f" : str; "quest for pr" : str; "r proposal" : str;
    "for pr" : str; "pr" : str; "quest" : str; "equest" : str ].

(** [_is_noise_or_fragment(text)] *)
Definition _is_noise_or_fragment (txt : str) : bool :=
  if (len (strip txt) <? 3)%Z then true
  else
    let txt := strip txt in
    if existsb (fun pattern => re_match_flags true pattern txt) noise_patterns
    then true
    else if mem_str (lower txt) noise_fragments then true
    else if (len txt <? 5)%Z && negb (isupper txt) then true
    else if (len txt <? 8)%Z && negb (any_in vowels (lower txt)) then true
    else false.

(** The order of Python's strings: by the first character that differs,
    a proper prefix first. *)
Fixpoint str_ltb (a b : str) : bool :=
  match a, b with
  | _, [] => false
  | [], _ :: _ => true
  | x :: a', y :: b' =>
      (code x <? code y)%nat || ((code x =? code y)%nat && str_ltb a' b')
  end.

(** The order of the sort keys [(x["page"], x["text"])]. *)
Definition page_text_lt (a b : Entry) : bool :=
  (entry_page a <? entry_page b)%Z
  || ((entry_page a =? entry_page b)%Z && str_ltb (entry_text a) (entry_text b)).

(** The inner loop of [_clean_headings]: the first heading of [cleaned]
    whose lower-case text contains [text_lower] or is contained in it,
    without being equal to it. *)
Fixpoint first_overlap (text_lower : str) (cleaned : list Entry) : option Entry :=
  match cleaned with
  | [] => None
  | existing :: cleaned' =>
      let existing_text := lower (entry_text existing) in
      if (contains text_lower existing_text || contains existing_text text_lower)
         && negb (str_eqb text_lower existing_text)
      then Some existing
      else first_overlap text_lower cleaned'
  end.

(** The body of the outer loop of [_clean_headings]: the state is the
    list [cleaned] and the set [seen_texts]. *)
Definition clean_step (st : list Entry * list str) (heading : Entry)
    : list Entry * list str :=
  let '(cleaned, seen_texts) := st in
  let txt := strip (entry_text heading) in
  let text_lower := lower txt in
  if mem_str text_lower seen_texts then st
  else if _is_noise_or_fragment txt then st
  else
    match first_overlap text_lower cleaned with
    | Some existing =>
        if (len txt >? len (entry_text existing))%Z
        then
          let existing_text := lower (entry_text existing) in
          (filter (fun h => negb (str_eqb (lower (entry_text h)) existing_text))
                  cleaned ++ [heading],
           text_lower :: seen_texts)
        else st
    | None => (cleaned ++ [heading], text_lower :: seen_texts)
    end.

(** [_clean_headings(headings)]: the list it returns (the argument is
    sorted in place on the way). *)
Definition _clean_headings (headings : list Entry) : list Entry :=
  match headings with
  | [] => headings
  | _ => fst (fold_left clean_step (sort_by page_text_lt headings) ([], []))
  end.

Section Extractor.

Variable rt : Runtime.

(** [_extract_from_text(doc)].  The analyzer of this embedding always
    returns; [fault] is the exception that the call of the analyzer
    raises in the run, if it raises one. *)
Definition _extract_from_text (fault : option str) (doc : Doc) : list Entry :=
  match fault with
  | None =>
      let results := analyze_pdf_from_doc rt doc in
      map (fun item => mkEntry (entry_level item) (entry_text item) (entry_page item))
          (outline results)
  | Some e => _extract_headings_pattern_only doc
  end.

(** The body of the [try] of [extract_outline]. *)
Definition outline_of_doc (fault : option str) (doc : Doc) : Result :=
  if _is_form_document doc
  then mkResult (_extract_title_carefully doc) [] None
  else
    let toc := get_toc doc in
    if (2 <? List.length toc)%nat
    then mkResult (_extract_title_carefully doc) (_process_toc toc) None
    else mkResult (_extract_title_carefully doc) (_extract_from_text fault doc) None.

(** [extract_outline(pdf_path)]: [opened] is what [fitz.open(pdf_path)]
    returns or raises. *)
Definition extract_outline (opened : outcome Doc) (fault : option str) : Result :=
  match opened with
  | Returned doc => outline_of_doc fault doc
  | Raised e => mkResult "Error" [] None
  end.

End Extractor.

(* ===================================================================== *)
(** * The specification's classifier (section 4.3), in its own words *)
(* ===================================================================== *)




(** The ordering H1 > H2 > H3 > none. *)
Definition rank (l : option Level) : nat :=
  match l with
  | Some H1 => 3
  | Some H2 => 2
  | Some H3 => 1
  | None => 0
  end.

(** The emission test [level and confidence > 0.3] of [_classify_headings]. *)
Definition emitted (r : option Level * Q) : bool :=
  match fst r with
  | Some _ => Qgtb (snd r) 0.3
  | None => false
  end.

Definition has_level (r : option Level * Q) : bool :=
  match fst r with
  | Some _ => true
  | None => false
  end.

(* ===================================================================== *)
(** * The properties' predicates *)
(* ===================================================================== *)

Unset Implicit Arguments.

(** [l] is in non-decreasing order for the strict order [lt]: no element
    is greater than its successor. *)
Fixpoint sortedb {A : Type} (lt : A -> A -> bool) (l : list A) : bool :=
  match l with
  | [] => true
  | x :: l' =>
      match l' with
      | [] => true
      | y :: _ => negb (lt y x) && sortedb lt l'
      end
  end.

(** The outline is non-decreasing in [page]. *)
Definition pages_nondecreasing (o : list Entry) : bool :=
  sortedb (fun a b => (entry_page a <? entry_page b)%Z) o.

(** The level of a native table-of-contents level: 1, 2, and the rest. *)
Definition toc_level (lvl : Z) : Level :=
  if (lvl =? 1)%Z then H1 else if (lvl =? 2)%Z then H2 else H3.

(** The outline in which every entry of the table of contents is mapped,
    in order, with its title as text. *)
Definition toc_all_mapped (toc : list (Z * str * Z)) : list Entry :=
  map (fun item : Z * str * Z =>
         let '(lvl, ttl, pg) := item in mkEntry (toc_level lvl) ttl (Z.max 1 pg))
      toc.

(** The entries whose title, stripped, has at least three characters,
    mapped in order with the stripped title as text. *)
Definition toc_kept (item : Z * str * Z) : bool :=
  let '(_, ttl, _) := item in (3 <=? len (strip ttl))%Z.

Definition toc_kept_mapped (toc : list (Z * str * Z)) : list Entry :=
  map (fun item : Z * str * Z =>
         let '(lvl, ttl, pg) := item in
         mkEntry (toc_level lvl) (strip ttl) (Z.max 1 pg))
      (filter toc_kept toc).

(** The top of the box lies in the top or in the bottom tenth of the
    page, and its contrary. *)
Definition in_margin (p : Page) (b : BBox) : Prop :=
  bb1 b < rect_height p * 0.1 \/ rect_height p * 0.9 < bb1 b.

Definition in_body (p : Page) (b : BBox) : Prop :=
  rect_height p * 0.1 <= bb1 b /\ bb1 b <= rect_height p * 0.9.

(** A candidate of the document [doc]: it comes from the page numbered
    [page h], has a box, and the top of the box is in the body of that
    page. *)
Definition body_candidate (doc : Doc) (h : Heading) : Prop :=
  exists p b, In (page h, p) (enumerate_from 1 (pages doc))
              /\ bbox h = Some b /\ in_body p b.

(** What a run has gathered after its head: a blank and the text of each
    absorbed candidate. *)
Definition gathered (run : list Heading) : str :=
  flat_map (fun h => (" " : str) ++ text h) run.


(** The top the sort key reads. *)
Definition top_of (o : option BBox) : Q :=
  match o with
  | Some b => bb1 b
  | None => 0
  end.


(** [t] does not begin with a space. *)
Definition no_lead (t : str) : Prop :=
  match t with
  | [] => True
  | c :: _ => is_space c = false
  end.

(** The blank, code point 32. *)
Definition blank : ascii := ascii_of_nat 32.

(** A word whose two ends are no spaces. *)
Definition solid (w : str) : bool :=
  match w with
  | [] => false
  | c :: _ => negb (is_space c) && negb (is_space (last w blank))
  end.

(** The test of the loop over the first parts of the title. *)
Definition returnable (cleaned_partial : str) : bool :=
  contains "RFP:" cleaned_partial && contains "Proposal" cleaned_partial
  && (len cleaned_partial >? 30)%Z.

(** [len(doc)] *)
Definition page_count (doc : Doc) : Z := Z.of_nat (List.length (pages doc)).

(** [t] has no space at either end. *)
Definition stripped (t : str) : Prop := strip t = t.

(** The matcher can go from [st] to [st'] through [r]. *)
Definition reaches (ic : bool) (r : regex) (st st' : mstate) : Prop :=
  In st' (rmatch ic r st).

(** Running text of a page, on the lower-case text of a line: a number, a
    line that begins like a web address or a copyright notice, a
    watermark. *)
Definition running_prefixes : list str :=
  [ "www." : str; "http://" : str; "https://" : str; "copyright" : str;
    "all rights reserved" : str; [copyright_sign] ].

Definition watermarks : list str :=
  [ "draft" : str; "confidential" : str; "proprietary" : str ].

Definition running_text (t : str) : bool :=
  isdigit t
  || existsb (fun p => startswith p t) running_prefixes
  || mem_str t watermarks.

(** What holds of every candidate [_extract_page_headings] builds for the
    document [doc]. *)
Definition wellformed_candidate (doc : Doc) (h : Heading) : Prop :=
  (3 <= len (text h) <= 200)%Z
  /\ stripped (text h)
  /\ islower (firstn 1 (text h)) = false
  /\ mem_str (lower (text h)) fragments = false
  /\ running_text (lower (text h)) = false
  /\ level h = None
  /\ (1 <= page h <= page_count doc)%Z
  /\ 8 <= font_size h
  /\ body_candidate doc h.

(** [m] is the heading the run [run] is closed into: the head gives the
    page and the font, the texts are joined by blanks, the boxes united,
    and every absorbed candidate passes the merge test with the head. *)
Definition closes_run (run : list Heading) (m : Heading) : Prop :=
  match run with
  | [] => False
  | c :: absorbed =>
      text m = strip (join " " (map text run))
      /\ page m = page c
      /\ font_size m = font_size c
      /\ font_name m = font_name c
      /\ bbox m = fold_left expand_bbox (map bbox absorbed) (bbox c)
      /\ Forall (fun h => _should_merge c h = true) absorbed
  end.

(** No run could go on: the head of a run does not pass the merge test
    with the head of the next run. *)
Fixpoint maximal_runs (runs : list (list Heading)) : Prop :=
  match runs with
  | [] => True
  | run :: rest =>
      match run, rest with
      | c :: _, (n :: _) :: _ => _should_merge c n = false
      | _, _ => True
      end
      /\ maximal_runs rest
  end.

(** The texts of an outline, in lower case. *)
Definition lower_texts (o : list Entry) : list str :=
  map (fun e => lower (entry_text e)) o.

(** The text the pattern-only fallback reads on a line. *)
Definition fallback_text (line : Line) : str := strip (flat_map span_text line).

(** An entry of the pattern-only fallback, with pages from [lo] to [hi]. *)
Definition pattern_entry (lo hi : Z) (e : Entry) : Prop :=
  (3 <= len (entry_text e))%Z
  /\ stripped (entry_text e)
  /\ pattern_level (entry_text e) = Some (entry_level e)
  /\ (lo <= entry_page e <= hi)%Z.

(** What the loops of the fallback keep true of [headings] and [seen]. *)
Definition fallback_invariant (lo hi : Z) (st : list Entry * list str) : Prop :=
  Forall (pattern_entry lo hi) (fst st)
  /\ NoDup (lower_texts (fst st))
  /\ incl (lower_texts (fst st)) (snd st).

(** An entry of [_process_toc]. *)
Definition toc_entry_ok (e : Entry) : Prop :=
  (1 <= entry_page e)%Z /\ (3 <= len (entry_text e))%Z /\ stripped (entry_text e).

(** The rounded position by which [_extract_title_carefully] tells the
    spans of a line apart. *)
Definition span_position (span : Span) : Z * Z :=
  (round (bb0 (span_bbox span)), round (bb1 (span_bbox span))).

(** A part of the title. *)
Definition title_part (t : str) : Prop :=
  (3 <= len t)%Z /\ stripped t /\ isdigit t = false
  /\ re_match page_number (lower t) = false.

(** The text [_is_form_document] reads, and the number of form keywords
    in it. *)
Definition form_text (doc : Doc) : str :=
  flat_map (fun p => lower (plain_text p)) (firstn 3 (pages doc)).

Definition keywords_present (doc : Doc) : nat :=
  List.length (filter (fun keyword => contains keyword (form_text doc)) form_keywords).

Definition letter_or_space (c : ascii) : bool := is_alpha c || is_space c.

(** The key under which [_clean_headings] remembers a heading, and what
    holds of every heading it returns. *)
Definition clean_key (e : Entry) : str := lower (strip (entry_text e)).

Definition kept_heading (headings : list Entry) (e : Entry) : Prop :=
  In e headings
  /\ _is_noise_or_fragment (entry_text e) = false
  /\ (3 <= len (strip (entry_text e)))%Z.

Definition clean_invariant (headings : list Entry) (st : list Entry * list str)
    : Prop :=
  Forall (kept_heading headings) (fst st)
  /\ NoDup (map clean_key (fst st))
  /\ incl (map clean_key (fst st)) (snd st).

(** The text left and the groups captured are made of characters that
    satisfy [P]. *)
Definition state_of (P : ascii -> Prop) (st : mstate) : Prop :=
  Forall P (m_rest st) /\ Forall (fun nw => Forall P (snd nw)) (m_caps st).

(** The literal texts of a template. *)
Definition template_of (P : ascii -> Prop) (tpl : list titem) : Prop :=
  Forall (fun item => match item with TLit w => Forall P w | TGrp _ => True end) tpl.

(* ===================================================================== *)
(** * The texts of a pattern, and substitutions *)
(* ===================================================================== *)

(** [w] occurs in [t]. *)
Definition occurs (w t : str) : Prop := exists a b, t = a ++ w ++ b.

(** Two texts that begin one text agree as far as both go. *)
Fixpoint agree (x y : str) : bool :=
  match x, y with
  | a :: x', b :: y' => ascii_eqb a b && agree x' y'
  | _, _ => true
  end.

(** The texts a pattern can match, case-sensitively (anchors match the
    empty text, a back-reference any text). *)
Fixpoint den (r : regex) (m : str) : Prop :=
  match r with
  | Eps => m = []
  | Bol => m = []
  | Eol => m = []
  | Chr c => m = [c]
  | Cls p => exists x, m = [x] /\ p x = true
  | Dot => exists x, m = [x]
  | Cat a b => exists m1 m2, m = m1 ++ m2 /\ den a m1 /\ den b m2
  | Alt a b => den a m \/ den b m
  | Rep lo hi a =>
      exists ms, m = List.concat ms /\ Forall (den a) ms /\ (lo <= List.length ms)%nat
  | Grp n a => den a m
  | Ref n => True
  end.

(** [st'] is reached from [st] by consuming [m]. *)
Definition consumed (st st' : mstate) (m : str) : Prop :=
  m_rest st = m ++ m_rest st' /\ m_off st' = (m_off st + List.length m)%nat.

(** What can be told of the texts of a pattern from its syntax: whether
    the empty text is one, the characters they are made of, the
    characters they start and end with, and a lower bound of their
    length. *)
Fixpoint nullable (r : regex) : bool :=
  match r with
  | Eps | Bol | Eol => true
  | Chr _ | Cls _ | Dot => false
  | Cat a b => nullable a && nullable b
  | Alt a b => nullable a || nullable b
  | Rep lo _ a => (lo =? 0)%nat || nullable a
  | Grp _ a => nullable a
  | Ref _ => true
  end.

Fixpoint alph (r : regex) (x : ascii) : bool :=
  match r with
  | Eps | Bol | Eol => false
  | Chr c => ascii_eqb c x
  | Cls p => p x
  | Dot => true
  | Cat a b => alph a x || alph b x
  | Alt a b => alph a x || alph b x
  | Rep _ _ a => alph a x
  | Grp _ a => alph a x
  | Ref _ => true
  end.

Fixpoint firstc (r : regex) (x : ascii) : bool :=
  match r with
  | Eps | Bol | Eol => false
  | Chr c => ascii_eqb c x
  | Cls p => p x
  | Dot => true
  | Cat a b => firstc a x || (nullable a && firstc b x)
  | Alt a b => firstc a x || firstc b x
  | Rep _ _ a => firstc a x
  | Grp _ a => firstc a x
  | Ref _ => true
  end.

Fixpoint lastc (r : regex) (x : ascii) : bool :=
  match r with
  | Eps | Bol | Eol => false
  | Chr c => ascii_eqb c x
  | Cls p => p x
  | Dot => true
  | Cat a b => lastc b x || (nullable b && lastc a x)
  | Alt a b => lastc a x || lastc b x
  | Rep _ _ a => lastc a x
  | Grp _ a => lastc a x
  | Ref _ => true
  end.

Fixpoint minlen (r : regex) : nat :=
  match r with
  | Eps | Bol | Eol => 0
  | Chr _ | Cls _ | Dot => 1
  | Cat a b => minlen a + minlen b
  | Alt a b => Nat.min (minlen a) (minlen b)
  | Rep lo _ a => lo * minlen a
  | Grp _ a => minlen a
  | Ref _ => 0
  end.

(** What [re.sub(r, repl, t)] can return: some texts of the pattern, one
    after the other in [t], are replaced by [repl]. *)
Inductive rewrites (r : regex) (repl : str) : str -> str -> Prop :=
| rw_done : forall t, rewrites r repl t t
| rw_step : forall sk m rest res,
    den r m -> rewrites r repl rest res ->
    rewrites r repl (sk ++ m ++ rest) (sk ++ repl ++ res).

(** [w] and [m] are apart: an occurrence of [w] in a text around [m]
    never touches [m]. *)
Definition apart (w m : str) : Prop :=
  forall sk rest, occurs w (sk ++ m ++ rest) -> occurs w sk \/ occurs w rest.

(** The same, decided for two given texts. *)
Definition overlap_free (w m : str) : bool :=
  forallb (fun d => negb (agree (skipn d m) w)) (seq 0 (List.length m))
  && forallb (fun d => negb (agree (skipn d w) m)) (seq 1 (List.length w - 1)).

(** No two neighbours in [w] both satisfy [P]. *)
Fixpoint no_adjacent (P : ascii -> bool) (w : str) : bool :=
  match w with
  | [] => true
  | x :: w' =>
      match w' with
      | [] => true
      | y :: _ => negb (P x && P y) && no_adjacent P w'
      end
  end.

(** A sufficient test, on the syntax of [r], for the word [w] to be apart
    from every text of [r]: the texts are not empty and share no
    character with [w]; or they have two characters at least, the
    characters [w] shares with them are never neighbours in [w], no text
    ends with the first character of [w] and none starts with its last. *)
Definition safe_word (r : regex) (w : str) : bool :=
  ((1 <=? minlen r)%nat && forallb (fun x => negb (alph r x)) w)
  || ((2 <=? minlen r)%nat && (2 <=? List.length w)%nat
      && no_adjacent (alph r) w
      && negb (lastc r (hd blank w)) && negb (firstc r (last w blank))).

(** A closed boolean fact, by evaluation. *)
Ltac by_computation := vm_compute; reflexivity.

(** A fact of one character, by cases on its eight bits. *)
Ltac each_ascii c := destruct c as [[] [] [] [] [] [] [] []].

(* ===================================================================== *)
(** * A runtime and documents for the examples *)
(* ===================================================================== *)

(** The arithmetic mean, the population standard deviation (its square
    root cut after nine decimal places), and sets iterated in the order
    of first occurrence. *)
Definition mean (xs : list Q) : Q :=
  Qred (fold_left Qplus xs 0 / inject_Z (Z.of_nat (List.length xs))).

Definition sqrt9 (x : Q) : Q :=
  Qred (inject_Z (Z.sqrt (Qfloor (x * 1000000000000000000))) / 1000000000).

Definition std (xs : list Q) : Q :=
  let m := mean xs in
  sqrt9 (mean (map (fun x => (x - m) * (x - m)) xs)).

Fixpoint first_occurrences (names : list str) : list str :=
  match names with
  | [] => []
  | n :: names' =>
      n :: filter (fun x => negb (str_eqb x n)) (first_occurrences names')
  end.

Definition sample_runtime : Runtime := mkRuntime mean std first_occurrences.

(** A line of one span. *)
Definition one_span (txt : str) (size : Q) (font : str) (flags : Z) (bb : BBox)
    : Line :=
  [mkSpan txt size font flags bb].

(** A one-page report with an embedded table of contents of four
    entries: the second bookmark points behind the fourth, the third has
    a one-letter title. *)
Definition report_page : Page :=
  mkPage [TextBlock [one_span "Annual Report" 24 "Helvetica-Bold" 16
                              (72, 120, 320, 148);
                     one_span "Prepared by the finance office" 11 "Helvetica" 0
                              (72, 200, 300, 212)]]
         792 612
         (join [newline] ["Annual Report" : str;
                          "Prepared by the finance office" : str; [] : str]).

Definition report_toc : list (Z * str * Z) :=
  [ (1%Z, "Annual Report" : str, 1%Z);
    (2%Z, "Results" : str, 5%Z);
    (1%Z, "A" : str, 2%Z);
    (2%Z, "Methods" : str, 3%Z) ].

Definition report_doc : Doc := mkDoc [report_page] report_toc.

(** A one-page document with no table of contents: a running header
    "Chapter 1" 20pt below the top of a page 792pt high, and three lines
    of a wrapped heading in the body, 8pt and 18pt apart. *)
Definition chapter_page : Page :=
  mkPage [TextBlock [one_span "Chapter 1" 10 "Times-Roman" 0 (72, 20, 130, 30)];
          TextBlock [one_span "Project Overview" 14 "Arial-Bold" 16
                              (72, 100, 300, 112);
                     one_span "Phase One" 14 "Arial-Bold" 16 (72, 120, 300, 132);
                     one_span "Deliverables" 14 "Arial-Bold" 16
                              (72, 150, 300, 162)];
          TextBlock [one_span "The work is described below." 10 "Times-Roman" 0
                              (72, 400, 400, 410)]]
         792 612
         (join [newline] ["Chapter 1" : str; "Project Overview" : str;
                          "Phase One" : str; "Deliverables" : str;
                          "The work is described below." : str; [] : str]).

Definition chapter_doc : Doc := mkDoc [chapter_page] [].

(** A three-page form of under 800 characters. *)
Definition form_page (txt : str) : Page :=
  mkPage [TextBlock [one_span txt 12 "Courier" 0 (72, 100, 400, 112)]]
         792 612 (txt ++ [newline]).

Definition form_doc : Doc :=
  mkDoc [form_page "Application Form for leave";
         form_page "Name and Designation of the applicant";
         form_page "Signature of the applicant"] [].

(** Two lines of one wrapped heading, 10pt apart, and two headings of one
    text in different sizes. *)
Definition wrapped_chapter : list Heading :=
  [ mkHeading "Chapter 1:" None 1 (Some (72, 100, 200, 114)) 16 "Arial-Bold" 0.0;
    mkHeading "Getting Started" None 1 (Some (72, 124, 260, 138)) 16 "Arial-Bold" 0.0 ].

Definition large_overview : Heading :=
  mkHeading "Overview" None 2 (Some (72, 300, 200, 320)) 20 "Arial" 0.0.

Definition small_overview : Heading :=
  mkHeading "Overview" None 2 (Some (72, 300, 200, 320)) 10 "Arial" 0.0.

(** Two first pages with a title broken over two lines: "RFP: Request f"
    above "or Proposal", and "RFP: Request" above "for services". *)
Definition two_line_page (line1 line2 : str) : Page :=
  mkPage [TextBlock [one_span line1 20 "Arial-Bold" 16 (72, 100, 400, 124);
                     one_span line2 20 "Arial-Bold" 16 (72, 130, 400, 154);
                     one_span "Ontario, 2003" 11 "Arial" 0 (72, 300, 200, 312)]]
         792 612
         (join [newline] [line1; line2; "Ontario, 2003" : str; [] : str]).

Definition rfp_full_doc : Doc :=
  mkDoc [two_line_page "RFP: Request f" "or Proposal"] [].

Definition rfp_partial_doc : Doc :=
  mkDoc [two_line_page "RFP: Request" "for services"] [].

(** A line that is a date in digits, and a line of plain lower-case
    words. *)
Definition date_line : str := "20240115".

Definition plain_line : str := "the quick brown fox".

(** The running header of [chapter_page]. *)
Definition chapter_header : Line :=
  one_span "Chapter 1" 10 "Times-Roman" 0 (72, 20, 130, 30).

(* ===================================================================== *)
(** * Properties: numbers *)
(* ===================================================================== *)

Lemma Qltb_true (x y : Q) : Qltb x y = true <-> x < y.
Proof.
  unfold Qltb. rewrite negb_true_iff. split; intro H.
  - apply Qnot_le_lt. intro Hle. apply Qle_bool_iff in Hle. congruence.
  - destruct (Qle_bool y x) eqn:E; [|reflexivity].
    apply Qle_bool_iff in E. exfalso. apply (Qlt_not_le _ _ H E).
Qed.

Lemma Qltb_false (x y : Q) : Qltb x y = false <-> y <= x.
Proof.
  unfold Qltb. rewrite negb_false_iff. apply Qle_bool_iff.
Qed.

Lemma Qgtb_true (x y : Q) : Qgtb x y = true <-> y < x.
Proof. apply Qltb_true. Qed.

Lemma Qgtb_false (x y : Q) : Qgtb x y = false <-> x <= y.
Proof. apply Qltb_false. Qed.


Lemma min_glb (a b c : Q) : c < a -> c < b -> c < min_ a b.
Proof. unfold min_. destruct (Qltb b a); auto. Qed.

(** The two disjuncts of a threshold test, as a proposition. *)
Lemma threshold_true (t f a b : Q) :
  Qgtb t a || Qgtb f b = true <-> a < t \/ b < f.
Proof. rewrite orb_true_iff, !Qgtb_true. tauto. Qed.

Lemma threshold_false (t f a b : Q) :
  Qgtb t a || Qgtb f b = false <-> ~ (a < t \/ b < f).
Proof.
  rewrite <- threshold_true. destruct (Qgtb t a || Qgtb f b); split; intro H;
    try reflexivity; try discriminate; try (intro; discriminate).
  exfalso. apply H. reflexivity.
Qed.

(** The case analysis of [level_of_scores], with the tests as facts. *)
Lemma level_of_scores_cases (f t : Q) :
  (1.5 < t \/ 2.0 < f) /\
    level_of_scores f t = (Some H1, min_ 0.95 (0.7 + t * 0.1))
  \/ (~ (1.5 < t \/ 2.0 < f) /\ (0.8 < t \/ 1.0 < f)) /\
    level_of_scores f t = (Some H2, min_ 0.9 (0.6 + t * 0.1))
  \/ (~ (1.5 < t \/ 2.0 < f) /\ ~ (0.8 < t \/ 1.0 < f) /\ (0.3 < t \/ 0.5 < f)) /\
    level_of_scores f t = (Some H3, min_ 0.85 (0.5 + t * 0.1))
  \/ (~ (1.5 < t \/ 2.0 < f) /\ ~ (0.8 < t \/ 1.0 < f) /\ ~ (0.3 < t \/ 0.5 < f)) /\
    level_of_scores f t = (None, 0.0).
Proof.
  unfold level_of_scores.
  destruct (Qgtb t 1.5 || Qgtb f 2.0) eqn:E1.
  { left. split; [apply threshold_true; exact E1 | reflexivity]. }
  destruct (Qgtb t 0.8 || Qgtb f 1.0) eqn:E2.
  { right; left. split; [|reflexivity].
    split; [apply threshold_false; exact E1 | apply threshold_true; exact E2]. }
  destruct (Qgtb t 0.3 || Qgtb f 0.5) eqn:E3.
  { right; right; left. split; [|reflexivity].
    repeat split; [apply threshold_false; exact E1 | apply threshold_false; exact E2
                  | apply threshold_true; exact E3]. }
  right; right; right. split; [|reflexivity].
  repeat split; apply threshold_false; assumption.
Qed.

Lemma pattern_score_lower_bound (txt : str) : -0.8 <= _analyze_text_patterns txt.
Proof.
  unfold _analyze_text_patterns.
  destruct (re_match numbered1 txt), (re_match numbered2 txt),
    (re_match numbered3 txt), (istitle txt),
    (isupper txt && (Z.of_nat (List.length (split txt)) <=? 8)%Z),
    (Z.of_nat (List.length (split txt)) >? 20)%Z,
    (Z.of_nat (List.length (split txt)) >? 15)%Z,
    (any_in keywords (lower txt)); lra.
Qed.

Lemma format_score_nonneg (name : str) : 0 <= _analyze_typography name.
Proof.
  unfold _analyze_typography. destruct name as [|c name']; [lra|].
  destruct (any_in _ _); [lra|]. destruct (any_in _ _); lra.
Qed.

Lemma position_score_nonneg (bb : option BBox) (pg : Z) :
  0 <= _analyze_position bb pg.
Proof.
  unfold _analyze_position. destruct bb as [b|]; [|lra].
  destruct (Qltb 100 (bb1 b) && Qltb (bb1 b) 250), (pg =? 1)%Z; lra.
Qed.

(** A level is given only with a confidence above 0.49, whatever the
    font score, once the other three scores are bounded from below. *)
Lemma level_confidence (f p fm pos : Q) :
  -0.8 <= p -> 0 <= fm -> 0 <= pos ->
  match level_of_scores f (total_score_of f p fm pos) with
  | (Some _, conf) => 0.49 < conf
  | (None, _) => True
  end.
Proof.
  intros Hp Hfm Hpos. unfold total_score_of.
  destruct (level_of_scores_cases f (0.4 * f + 0.3 * p + 0.2 * fm + 0.1 * pos))
    as [[C E]|[[C E]|[[C E]|[C E]]]]; rewrite E; try exact I;
    apply min_glb; lra.
Qed.


(** The level only grows with the font score and the total score. *)
Lemma level_of_scores_monotone (f1 f2 t1 t2 : Q) :
  f2 <= f1 -> t2 <= t1 ->
  (rank (fst (level_of_scores f2 t2)) <= rank (fst (level_of_scores f1 t1)))%nat.
Proof.
  intros Hf Ht.
  destruct (level_of_scores_cases f2 t2)
    as [[C E]|[[C E]|[[C E]|[C E]]]]; rewrite E; cbn [fst rank];
  destruct (level_of_scores_cases f1 t1)
    as [[D F]|[[D F]|[[D F]|[D F]]]]; rewrite F; cbn [fst rank];
  try lia; exfalso.
  - destruct D as [D _]. apply D. destruct C; [left|right]; lra.
  - destruct D as [D _]. apply D. destruct C; [left|right]; lra.
  - destruct D as [D _]. apply D. destruct C; [left|right]; lra.
  - destruct C as [_ C], D as [_ [D _]]. apply D. destruct C; [left|right]; lra.
  - destruct C as [_ C], D as [_ [D _]]. apply D. destruct C; [left|right]; lra.
  - destruct C as [_ [_ C]], D as [_ [_ D]]. apply D. destruct C; [left|right]; lra.
Qed.

(** C9.  Of two headings with the same pattern, format and position
    scores whose font scores differ by more than 1.0, the one with the
    higher font score is never given a strictly lower level in the order
    H1 > H2 > H3 > none. *)
Theorem monotonic_font_ordering (a b : Heading) (mean_size std_size : Q) :
  _analyze_text_patterns (text a) == _analyze_text_patterns (text b) ->
  _analyze_typography (font_name a) == _analyze_typography (font_name b) ->
  _analyze_position (bbox a) (page a) == _analyze_position (bbox b) (page b) ->
  1.0 < font_score_of a mean_size std_size - font_score_of b mean_size std_size ->
  (rank (fst (_calculate_heading_level b mean_size std_size))
   <= rank (fst (_calculate_heading_level a mean_size std_size)))%nat.
Proof.
  intros Hp Hf Hpos Hd. unfold _calculate_heading_level, total_score_of.
  set (fa := font_score_of a mean_size std_size) in *.
  set (fb := font_score_of b mean_size std_size) in *.
  apply level_of_scores_monotone; lra.
Qed.

(** C10.  Whenever [_calculate_heading_level] gives a level, the
    confidence it returns is above 0.3 (indeed above 0.49), so the test
    [level and confidence > 0.3] of [_classify_headings] holds exactly
    when a level is given. *)
Theorem level_implies_confidence (heading : Heading) (mean_size std_size : Q) :
  match _calculate_heading_level heading mean_size std_size with
  | (Some _, conf) => 0.3 < conf /\ 0.49 < conf
  | (None, _) => True
  end
  /\ emitted (_calculate_heading_level heading mean_size std_size)
     = has_level (_calculate_heading_level heading mean_size std_size).
Proof.
  assert (H := level_confidence (font_score_of heading mean_size std_size) _ _ _
                 (pattern_score_lower_bound (text heading))
                 (format_score_nonneg (font_name heading))
                 (position_score_nonneg (bbox heading) (page heading))).
  unfold _calculate_heading_level, emitted, has_level.
  destruct (level_of_scores _ _) as [[lvl|] conf]; cbn [fst snd].
  - split; [split; lra|]. apply Qgtb_true. lra.
  - split; [exact I | reflexivity].
Qed.

(* ===================================================================== *)
(** * Properties: sorting *)
(* ===================================================================== *)

Section SortFacts.
Context {A : Type}.
Variable lt : A -> A -> bool.

Lemma In_insert (x y : A) (l : list A) :
  In y (insert lt x l) <-> y = x \/ In y l.
Proof.
  induction l as [|z l IH]; simpl.
  - intuition.
  - destruct (lt z x); simpl; rewrite ?IH; intuition.
Qed.

Lemma In_sort_by (y : A) (l : list A) : In y (sort_by lt l) <-> In y l.
Proof.
  induction l as [|x l IH]; simpl; [tauto|].
  rewrite In_insert, IH. intuition.
Qed.

Lemma sortedb_cons (x : A) (l : list A) :
  sortedb lt (x :: l) = true <->
  match l with [] => True | y :: _ => lt y x = false end /\ sortedb lt l = true.
Proof.
  destruct l as [|y l]; simpl.
  - intuition.
  - rewrite andb_true_iff, negb_true_iff. tauto.
Qed.

Hypothesis lt_asym : forall x y, lt x y = true -> lt y x = false.

Lemma insert_sorted (x : A) (l : list A) :
  sortedb lt l = true -> sortedb lt (insert lt x l) = true.
Proof.
  induction l as [|y l IH]; intro H; [reflexivity|].
  simpl insert. destruct (lt y x) eqn:Eyx.
  - apply sortedb_cons in H. destruct H as [Hhd Hl].
    apply sortedb_cons. split; [|apply IH; exact Hl].
    destruct l as [|z l]; simpl.
    + apply lt_asym. exact Eyx.
    + destruct (lt z x); [exact Hhd | apply lt_asym; exact Eyx].
  - apply sortedb_cons. split; assumption.
Qed.

Lemma sort_by_sorted (l : list A) : sortedb lt (sort_by lt l) = true.
Proof.
  induction l as [|x l IH]; [reflexivity|]. simpl. apply insert_sorted. exact IH.
Qed.


End SortFacts.

Lemma page_lt_asym (a b : Entry) :
  (entry_page a <? entry_page b)%Z = true -> (entry_page b <? entry_page a)%Z = false.
Proof. rewrite Z.ltb_lt, Z.ltb_ge. lia. Qed.

(** Appending an entry whose page is no smaller than the pages so far. *)
Lemma pages_nondecreasing_snoc (o : list Entry) (e : Entry) :
  pages_nondecreasing o = true ->
  (forall x, In x o -> (entry_page x <= entry_page e)%Z) ->
  pages_nondecreasing (o ++ [e]) = true.
Proof.
  unfold pages_nondecreasing. induction o as [|x o IH]; intros Hs Hb; [reflexivity|].
  apply sortedb_cons in Hs. destruct Hs as [Hhd Hs].
  change ((x :: o) ++ [e]) with (x :: (o ++ [e])).
  apply sortedb_cons. split.
  - destruct o as [|y o]; simpl.
    + apply Z.ltb_ge. apply Hb. left. reflexivity.
    + exact Hhd.
  - apply IH; [exact Hs|]. intros z Hz. apply Hb. right. exact Hz.
Qed.

(* ===================================================================== *)
(** * Properties: strings *)
(* ===================================================================== *)

Lemma str_eqb_eq (a b : str) : str_eqb a b = true <-> a = b.
Proof.
  revert b. induction a as [|x a IH]; intros [|y b]; simpl;
    try (split; [discriminate | congruence]; fail).
  - tauto.
  - unfold ascii_eqb. rewrite andb_true_iff, Ascii.eqb_eq, IH.
    split; [intros [-> ->]; reflexivity | intro H; injection H; auto].
Qed.

Lemma str_eqb_neq (a b : str) : str_eqb a b = false <-> a <> b.
Proof.
  rewrite <- str_eqb_eq. destruct (str_eqb a b); split; congruence.
Qed.

(* ===================================================================== *)
(** * Properties: the outline of the analyzer and of the extractor *)
(* ===================================================================== *)

Section OutlineFacts.

Variable rt : Runtime.

(** No entry of the outline of [_classify_headings] bears the title that
    [_classify_headings] returns. *)
Lemma classify_headings_excludes_title (headings : list Heading) (e : Entry) :
  In e (outline (_classify_headings rt headings)) ->
  entry_text e <> title (_classify_headings rt headings).
Proof.
  unfold _classify_headings. destruct headings as [|h0 hs]; [intros []|].
  cbv zeta. cbn [outline title]. intro H.
  apply In_sort_by in H. apply in_flat_map in H. destruct H as [h [_ H]].
  destruct (str_eqb (text h) _) eqn:E; [destruct H|].
  apply str_eqb_neq in E.
  destruct (_calculate_heading_level h _ _) as [[lvl|] conf]; [|destruct H].
  destruct (Qgtb conf 0.3); [|destruct H].
  destruct H as [<-|[]]. exact E.
Qed.

(** The outline of [_classify_headings] is sorted by page. *)
Lemma classify_headings_sorted (headings : list Heading) :
  pages_nondecreasing (outline (_classify_headings rt headings)) = true.
Proof.
  unfold _classify_headings. destruct headings as [|h0 hs]; [reflexivity|].
  cbv zeta. cbn [outline]. apply sort_by_sorted. exact page_lt_asym.
Qed.

(** The copy [_extract_from_text] makes of the analyzer's outline. *)
Lemma copy_outline (o : list Entry) :
  map (fun item => mkEntry (entry_level item) (entry_text item) (entry_page item)) o = o.
Proof.
  induction o as [|[l t p] o IH]; simpl; [reflexivity|]. rewrite IH. reflexivity.
Qed.

End OutlineFacts.

(** The pattern-only fallback: entries are appended page after page. *)
Lemma pattern_line_bound (n : Z) (line : Line) (st : list Entry * list str) :
  pages_nondecreasing (fst st) = true ->
  (forall x, In x (fst st) -> (entry_page x <= n + 1)%Z) ->
  pages_nondecreasing (fst (pattern_line n st line)) = true
  /\ (forall x, In x (fst (pattern_line n st line)) -> (entry_page x <= n + 1)%Z).
Proof.
  destruct st as [headings seen]. unfold pattern_line. cbn [fst].
  intros Hs Hb.
  destruct (mem_str _ seen || _); [split; assumption|].
  destruct (pattern_level _) as [lvl|]; [|split; assumption].
  cbn [fst]. split.
  - apply pages_nondecreasing_snoc; [exact Hs|]. exact Hb.
  - intros x Hx. apply in_app_or in Hx. destruct Hx as [Hx|[<-|[]]].
    + apply Hb. exact Hx.
    + simpl. lia.
Qed.

Lemma pattern_lines_bound (n : Z) (lines : list Line) (st : list Entry * list str) :
  pages_nondecreasing (fst st) = true ->
  (forall x, In x (fst st) -> (entry_page x <= n + 1)%Z) ->
  pages_nondecreasing (fst (fold_left (pattern_line n) lines st)) = true
  /\ (forall x, In x (fst (fold_left (pattern_line n) lines st)) ->
                (entry_page x <= n + 1)%Z).
Proof.
  revert st. induction lines as [|l lines IH]; intros st Hs Hb; [split; assumption|].
  simpl. destruct (pattern_line_bound n l st Hs Hb) as [Hs' Hb'].
  apply IH; assumption.
Qed.

Lemma pattern_pages_sorted (ps : list Page) (n : Z) (st : list Entry * list str) :
  pages_nondecreasing (fst st) = true ->
  (forall x, In x (fst st) -> (entry_page x <= n)%Z) ->
  pages_nondecreasing (fst (fold_left pattern_page (enumerate_from n ps) st)) = true.
Proof.
  revert n st. induction ps as [|p ps IH]; intros n st Hs Hb; [exact Hs|].
  simpl. unfold pattern_page at 2. cbn [fst snd].
  assert (Hb1 : forall x, In x (fst st) -> (entry_page x <= n + 1)%Z).
  { intros x Hx. specialize (Hb x Hx). lia. }
  destruct (pattern_lines_bound n (page_lines p) st Hs Hb1) as [Hs' Hb'].
  apply IH; assumption.
Qed.

(** The outline of the pattern-only fallback is non-decreasing in page,
    for every document. *)
Lemma pattern_only_sorted (doc : Doc) :
  pages_nondecreasing (_extract_headings_pattern_only doc) = true.
Proof.
  unfold _extract_headings_pattern_only.
  apply pattern_pages_sorted; [reflexivity | intros x []].
Qed.

Lemma process_toc_kept_mapped (toc : list (Z * str * Z)) :
  _process_toc toc = toc_kept_mapped toc.
Proof.
  unfold _process_toc, toc_kept_mapped.
  induction toc as [|[[lvl ttl] pg] toc IH]; [reflexivity|].
  simpl. rewrite IH. unfold toc_level.
  destruct (Z.ltb_spec (len (strip ttl)) 3), (Z.leb_spec 3 (len (strip ttl)));
    try lia; [reflexivity|].
  simpl. destruct (lvl =? 1)%Z, (lvl =? 2)%Z, (lvl =? 3)%Z; reflexivity.
Qed.

(** C1 (amended).  No entry of the outline that the heading analyzer
    returns for a document bears the title the analyzer returns with it,
    and on the form short-circuit [extract_outline] returns no entry at
    all.  (On its other paths [extract_outline] returns the title of
    [_extract_title_carefully] and compares no entry with it.) *)
Theorem title_exclusion (rt : Runtime) (doc : Doc) (fault : option str) :
  (forall e, In e (outline (analyze_pdf_from_doc rt doc)) ->
             entry_text e <> title (analyze_pdf_from_doc rt doc))
  /\ (_is_form_document doc = true ->
      outline (extract_outline rt (Returned doc) fault) = []).
Proof.
  split.
  - intros e. unfold analyze_pdf_from_doc. apply classify_headings_excludes_title.
  - intro Hf. unfold extract_outline, outline_of_doc. rewrite Hf. reflexivity.
Qed.

(** C1, as stated, fails on the embedded-TOC path: the report's first
    bookmark bears the text of the title line. *)
Lemma title_in_toc_outline :
  exists e, In e (outline (extract_outline sample_runtime (Returned report_doc) None))
            /\ entry_text e = title (extract_outline sample_runtime (Returned report_doc) None).
Proof.
  exists (mkEntry H1 "Annual Report" 1). split; vm_compute; auto.
Qed.

(** C2 (amended).  When [extract_outline] does not take the embedded-TOC
    path (the document is a form, or its table of contents has at most
    two entries), the outline it returns is non-decreasing in page, with
    the analyzer and with the pattern-only fallback alike. *)
Theorem outline_ordering (rt : Runtime) (doc : Doc) (fault : option str) :
  _is_form_document doc = true \/ (List.length (get_toc doc) <= 2)%nat ->
  pages_nondecreasing (outline (extract_outline rt (Returned doc) fault)) = true.
Proof.
  intro H. unfold extract_outline, outline_of_doc.
  destruct (_is_form_document doc); [reflexivity|].
  destruct H as [H|H]; [discriminate|].
  destruct (Nat.ltb_spec 2 (List.length (get_toc doc))); [lia|].
  cbn [outline]. unfold _extract_from_text. destruct fault as [e|].
  - apply pattern_only_sorted.
  - rewrite copy_outline. apply classify_headings_sorted.
Qed.

(** C2, as stated, fails on the embedded-TOC path: the report's bookmarks
    give the pages 1, 5, 3. *)
Lemma toc_outline_unordered :
  pages_nondecreasing (outline (extract_outline sample_runtime (Returned report_doc) None))
  = false.
Proof. vm_compute. reflexivity. Qed.

(** C3 (amended).  When the document cannot be opened, [extract_outline]
    returns the title "Error" with an empty outline and no error field,
    and [analyze_pdf_headings] returns the empty title, the empty outline
    and the error "Analysis failed: " followed by the message; neither
    raises. *)
Theorem open_failure_results (rt : Runtime) (msg : str) (fault : option str) :
  extract_outline rt (Raised msg) fault = mkResult "Error" [] None
  /\ analyze_pdf_headings rt (Raised msg)
     = mkResult [] [] (Some (("Analysis failed: " : str) ++ msg)).
Proof. split; reflexivity. Qed.

(** C3, as stated, fails for [extract_outline]: the title is not empty
    and there is no error field. *)
Lemma open_failure_title_not_empty :
  title (extract_outline sample_runtime (Raised "no such file") None) <> []
  /\ error (extract_outline sample_runtime (Raised "no such file") None) = None.
Proof. split; [discriminate | reflexivity]. Qed.

(** C5 (amended).  When the document is no form and its table of contents
    has more than two entries, the outline is the in-order image of the
    entries whose stripped title has at least three characters: level H1
    for native level 1, H2 for 2, H3 otherwise, the stripped title as
    text, the page raised to at least 1.  The result depends on the table
    of contents and the title alone. *)
Theorem toc_passthrough (rt : Runtime) (doc : Doc) (fault : option str) :
  _is_form_document doc = false ->
  (2 < List.length (get_toc doc))%nat ->
  extract_outline rt (Returned doc) fault
  = mkResult (_extract_title_carefully doc) (toc_kept_mapped (get_toc doc)) None.
Proof.
  intros Hf Hn. unfold extract_outline, outline_of_doc. rewrite Hf.
  destruct (Nat.ltb_spec 2 (List.length (get_toc doc))); [|lia].
  rewrite process_toc_kept_mapped. reflexivity.
Qed.

(** C5, as stated, fails: of the report's four bookmarks the one titled
    "A" is not mapped. *)
Lemma toc_entry_dropped :
  outline (extract_outline sample_runtime (Returned report_doc) None)
  <> toc_all_mapped (get_toc report_doc).
Proof. vm_compute. discriminate. Qed.

(* ===================================================================== *)
(** * Properties: the candidate filter *)
(* ===================================================================== *)

(** Position first: a line whose top is in a margin is a header or
    footer, whatever its text. *)
Lemma margin_is_header_or_footer (txt : str) (b : BBox) (page_height page_width : Q) :
  bb1 b < page_height * 0.1 \/ page_height * 0.9 < bb1 b ->
  _is_header_or_footer txt (Some b) page_height page_width = true.
Proof.
  intro H. unfold _is_header_or_footer.
  assert (E : Qltb (bb1 b) (page_height * 0.1) || Qgtb (bb1 b) (page_height * 0.9) = true).
  { apply orb_true_iff. destruct H as [H|H];
      [left; apply Qltb_true | right; apply Qgtb_true]; exact H. }
  rewrite E. reflexivity.
Qed.

Lemma margin_not_potential_heading (txt : str) (sizes : list Q) (names : list str)
    (b : BBox) (page_height page_width : Q) :
  bb1 b < page_height * 0.1 \/ page_height * 0.9 < bb1 b ->
  _is_potential_heading txt sizes names (Some b) page_height page_width = false.
Proof.
  intro H. unfold _is_potential_heading.
  rewrite (margin_is_header_or_footer txt b page_height page_width H).
  repeat match goal with
         | |- (if ?c then false else _) = false => destruct c; [reflexivity|]
         end.
  reflexivity.
Qed.

Lemma potential_heading_body (txt : str) (sizes : list Q) (names : list str)
    (b : BBox) (page_height page_width : Q) :
  _is_potential_heading txt sizes names (Some b) page_height page_width = true ->
  page_height * 0.1 <= bb1 b /\ bb1 b <= page_height * 0.9.
Proof.
  intro H.
  destruct (Qlt_le_dec (bb1 b) (page_height * 0.1)) as [L|L].
  { rewrite margin_not_potential_heading in H; [discriminate | left; exact L]. }
  destruct (Qlt_le_dec (page_height * 0.9) (bb1 b)) as [U|U].
  { rewrite margin_not_potential_heading in H; [discriminate | right; exact U]. }
  split; assumption.
Qed.

(** A line with no box has no text. *)
Lemma add_span_no_box (acc : LineAcc) (span : Span) :
  (line_bbox acc = None -> line_text acc = []) ->
  line_bbox (add_span acc span) = None -> line_text (add_span acc span) = [].
Proof.
  unfold add_span. destruct (strip (span_text span)); [auto|].
  cbn [line_bbox]. destruct (line_bbox acc); discriminate.
Qed.

Lemma fold_add_span_no_box (line : Line) (acc : LineAcc) :
  (line_bbox acc = None -> line_text acc = []) ->
  line_bbox (fold_left add_span line acc) = None ->
  line_text (fold_left add_span line acc) = [].
Proof.
  revert acc. induction line as [|sp line IH]; intros acc H; [exact H|].
  simpl. apply IH. apply add_span_no_box. exact H.
Qed.

Lemma candidate_in_body (p : Page) (line : Line) :
  is_candidate p (gather_line line) = true ->
  exists b, line_bbox (gather_line line) = Some b /\ in_body p b.
Proof.
  unfold is_candidate. intro H.
  destruct (line_bbox (gather_line line)) as [b|] eqn:E.
  - exists b. split; [reflexivity|]. apply (potential_heading_body _ _ _ _ _ _ H).
  - exfalso. unfold gather_line in E, H. cbn [line_bbox line_text] in E, H.
    rewrite (fold_add_span_no_box line (mkLineAcc [] [] [] None)
               (fun _ => eq_refl) E) in H.
    discriminate.
Qed.

Lemma in_enumerate_from (A : Type) (l : list A) (k n : Z) (x : A) :
  In (n, x) (enumerate_from k l) -> In x l.
Proof.
  revert k. induction l as [|y l IH]; intros k H; [destruct H|].
  destruct H as [H|H]; [left; congruence | right; eapply IH; exact H].
Qed.

Section CandidateFacts.

Variable rt : Runtime.

Lemma page_heading_body (p : Page) (n : Z) (h : Heading) :
  In h (_extract_page_headings rt p n) ->
  page h = n /\ exists b, bbox h = Some b /\ in_body p b.
Proof.
  unfold _extract_page_headings. intro H.
  apply in_map_iff in H. destruct H as [acc [<- H]].
  apply filter_In in H. destruct H as [H C].
  apply in_map_iff in H. destruct H as [line [<- _]].
  split; [reflexivity|]. exact (candidate_in_body p line C).
Qed.

(** Every candidate of [all_headings] lies in the body of its page. *)
Lemma all_headings_body (doc : Doc) (h : Heading) :
  In h (all_headings rt doc) -> body_candidate doc h.
Proof.
  unfold all_headings. intro H. apply in_flat_map in H.
  destruct H as [[n p] [Hp H]]. cbn [fst snd] in H.
  apply page_heading_body in H. destruct H as [<- [b [Hb Hm]]].
  exists p, b. auto.
Qed.

End CandidateFacts.

(* ===================================================================== *)
(** * Properties: the adjacency merger *)
(* ===================================================================== *)

Lemma join_gathered (c : Heading) (run : list Heading) :
  join " " (map text (c :: run)) = text c ++ gathered run.
Proof.
  revert c. induction run as [|h run IH]; intro c.
  - simpl. rewrite app_nil_r. reflexivity.
  - change (join " " (map text (c :: h :: run)))
      with (text c ++ (" " : str) ++ join " " (map text (h :: run))).
    rewrite IH. reflexivity.
Qed.

(** Every heading a run closes into is the join of the run's head (or of
    what was gathered before) with candidates of the list. *)
Lemma merge_run_provenance (l : list Heading) :
  forall (current : Heading) (merged_text : str) (merged_bbox : option BBox)
         (m : Heading),
  In m (merge_run current merged_text merged_bbox l) ->
  (exists run, incl run l /\ text m = strip (merged_text ++ gathered run)
               /\ page m = page current)
  \/ (exists c run, In c l /\ incl run l
                    /\ text m = strip (text c ++ gathered run) /\ page m = page c).
Proof.
  induction l as [|nxt l IH]; intros current mt mb m H.
  - destruct H as [<-|[]]. left. exists []. simpl. rewrite app_nil_r.
    repeat split. apply incl_refl.
  - simpl in H. destruct (_should_merge current nxt).
    + apply IH in H. destruct H as [[run [Hi [Ht Hp]]]|[c [run [Hc [Hi [Ht Hp]]]]]].
      * left. exists (nxt :: run). repeat split.
        -- intros x [<-|Hx]; [left; reflexivity | right; apply Hi; exact Hx].
        -- rewrite Ht. simpl. rewrite <- !app_assoc. reflexivity.
        -- exact Hp.
      * right. exists c, run. repeat split; auto.
        -- right. exact Hc.
        -- apply incl_tl. exact Hi.
    + destruct H as [<-|H].
      * left. exists []. simpl. rewrite app_nil_r. repeat split. intros x [].
      * apply IH in H. destruct H as [[run [Hi [Ht Hp]]]|[c [run [Hc [Hi [Ht Hp]]]]]].
        -- right. exists nxt, run. repeat split; auto.
           ++ left. reflexivity.
           ++ apply incl_tl. exact Hi.
        -- right. exists c, run. repeat split; auto.
           ++ right. exact Hc.
           ++ apply incl_tl. exact Hi.
Qed.

Lemma merge_adjacent_provenance (headings : list Heading) (m : Heading) :
  In m (_merge_adjacent_headings headings) ->
  exists c run, In c headings /\ incl run headings
                /\ text m = strip (join " " (map text (c :: run)))
                /\ page m = page c.
Proof.
  unfold _merge_adjacent_headings.
  destruct (sort_by pos_lt headings) as [|current l] eqn:E; [intros []|].
  assert (S : forall x, In x (current :: l) -> In x headings).
  { intros x Hx. apply (In_sort_by pos_lt). rewrite E. exact Hx. }
  intro H. apply merge_run_provenance in H.
  destruct H as [[run [Hi [Ht Hp]]]|[c [run [Hc [Hi [Ht Hp]]]]]].
  - exists current, run. rewrite join_gathered. repeat split; auto.
    + apply S. left. reflexivity.
    + intros x Hx. apply S. right. apply Hi. exact Hx.
  - exists c, run. rewrite join_gathered. repeat split; auto.
    + apply S. right. exact Hc.
    + intros x Hx. apply S. right. apply Hi. exact Hx.
Qed.

(** C7 (amended).  With the analyzer, position comes first: a line whose
    top lies in the top or the bottom tenth of the page height is no
    potential heading, whatever its text, and every entry of the
    analyzer's outline bears the joined text of candidates each of which
    has its top in the body of its page.  (The pattern-only fallback reads
    no geometry.) *)
Theorem header_footer_exclusion (rt : Runtime) (doc : Doc) :
  (forall txt sizes names b page_height page_width,
      bb1 b < page_height * 0.1 \/ page_height * 0.9 < bb1 b ->
      _is_potential_heading txt sizes names (Some b) page_height page_width = false)
  /\ (forall e, In e (outline (analyze_pdf_from_doc rt doc)) ->
      exists c run,
        entry_text e = strip (join " " (map text (c :: run)))
        /\ entry_page e = page c
        /\ forall h, In h (c :: run) ->
                     In h (all_headings rt doc) /\ body_candidate doc h).
Proof.
  split; [intros; apply margin_not_potential_heading; assumption|].
  intros e H. unfold analyze_pdf_from_doc, _classify_headings in H.
  destruct (_merge_adjacent_headings (all_headings rt doc)) as [|m0 ms] eqn:E;
    [destruct H|].
  cbv zeta in H. cbn [outline] in H.
  apply In_sort_by in H. apply in_flat_map in H. destruct H as [m [Hm H]].
  apply In_sort_by in Hm. rewrite <- E in Hm.
  apply merge_adjacent_provenance in Hm.
  destruct Hm as [c [run [Hc [Hi [Ht Hp]]]]].
  destruct (str_eqb (text m) _); [destruct H|].
  destruct (_calculate_heading_level m _ _) as [[lvl|] conf]; [|destruct H].
  destruct (Qgtb conf 0.3); [|destruct H].
  destruct H as [<-|[]]. exists c, run. cbn [entry_text entry_page].
  repeat split; auto.
  - destruct H as [<-|H]; [exact Hc | apply Hi; exact H].
  - apply all_headings_body with (rt := rt).
    destruct H as [<-|H]; [exact Hc | apply Hi; exact H].
Qed.

(** C7, as stated, fails on the pattern-only fallback: the running header
    "Chapter 1", 20pt below the top of a page 792pt high, is an entry of
    the outline. *)
Lemma header_line_in_fallback_outline :
  In (one_span "Chapter 1" 10 "Times-Roman" 0 (72, 20, 130, 30))
     (page_lines chapter_page)
  /\ in_margin chapter_page (72, 20, 130, 30)
  /\ In (mkEntry H1 "Chapter 1" 1) (_extract_headings_pattern_only chapter_doc)
  /\ In (mkEntry H1 "Chapter 1" 1)
        (outline (extract_outline sample_runtime (Returned chapter_doc)
                                  (Some ("analysis failed" : str)))).
Proof.
  split; [left; reflexivity|]. split; [|split].
  - left. vm_compute. reflexivity.
  - vm_compute. left. reflexivity.
  - vm_compute. left. reflexivity.
Qed.

Lemma lstrip_no_lead (t : str) : no_lead (lstrip t).
Proof.
  induction t as [|c t IH]; simpl; [exact I|].
  destruct (is_space c) eqn:E; [exact IH | exact E].
Qed.

Lemma no_lead_lstrip (t : str) : no_lead t -> lstrip t = t.
Proof. destruct t as [|c t]; simpl; [reflexivity|]. intros ->. reflexivity. Qed.

Lemma lstrip_split (t : str) :
  exists sp, t = sp ++ lstrip t /\ forallb is_space sp = true.
Proof.
  induction t as [|c t [sp [E F]]]; simpl.
  - exists []. split; reflexivity.
  - destruct (is_space c) eqn:Ec.
    + exists (c :: sp). simpl. rewrite Ec, F. split; [congruence | reflexivity].
    + exists []. split; reflexivity.
Qed.

Lemma rstrip_no_lead (u : str) : no_lead u -> no_lead (rstrip u).
Proof.
  unfold rstrip. intro H.
  destruct (lstrip_split (rev u)) as [sp [E _]].
  destruct (lstrip (rev u)) as [|x w] eqn:W; [exact I|].
  assert (U : u = rev (x :: w) ++ rev sp).
  { rewrite <- rev_app_distr, <- E, rev_involutive. reflexivity. }
  destruct (rev (x :: w)) as [|y r] eqn:R.
  - exfalso. apply (f_equal (@List.length ascii)) in R.
    rewrite length_rev in R. discriminate.
  - rewrite U in H. exact H.
Qed.

Lemma strip_idempotent (t : str) : strip (strip t) = strip t.
Proof.
  unfold strip at 1.
  rewrite (no_lead_lstrip (strip t)).
  - unfold strip, rstrip. rewrite rev_involutive.
    rewrite (no_lead_lstrip (lstrip (rev (lstrip t)))); [reflexivity|].
    apply lstrip_no_lead.
  - unfold strip. apply rstrip_no_lead. apply lstrip_no_lead.
Qed.

(** The order of the sort keys *)
Lemma key_lt_asym (k1 k2 : Z * Q) : key_lt k1 k2 = true -> key_lt k2 k1 = false.
Proof.
  destruct k1 as [p1 y1], k2 as [p2 y2]. unfold key_lt. cbn [fst snd].
  intro H. apply orb_true_iff in H. apply orb_false_iff.
  destruct H as [H|H].
  - apply Z.ltb_lt in H. split; [apply Z.ltb_ge; lia|].
    apply andb_false_iff. left. apply Z.eqb_neq. lia.
  - apply andb_true_iff in H. destruct H as [Hp Hy].
    apply Z.eqb_eq in Hp. apply Qltb_true in Hy.
    split; [apply Z.ltb_ge; lia|].
    apply andb_false_iff. right. apply Qltb_false. lra.
Qed.

Lemma key_lt_false (k1 k2 : Z * Q) :
  key_lt k1 k2 = false <->
  (fst k2 < fst k1)%Z \/ (fst k1 = fst k2 /\ snd k2 <= snd k1).
Proof.
  unfold key_lt. rewrite orb_false_iff, andb_false_iff, Z.ltb_ge, Z.eqb_neq, Qltb_false.
  split.
  - intros [H1 [H2|H2]]; [lia | destruct (Z.eq_dec (fst k1) (fst k2)); [right; auto | left; lia]].
  - intros [H|[H1 H2]].
    + split; [lia | left; lia].
    + split; [lia | right; exact H2].
Qed.

Lemma key_le_trans (a b c : Z * Q) :
  key_lt b a = false -> key_lt c b = false -> key_lt c a = false.
Proof.
  rewrite !key_lt_false. intros [H1|[H1 H1']] [H2|[H2 H2']].
  - left. lia.
  - left. lia.
  - left. lia.
  - right. split; [lia | lra].
Qed.

Lemma pos_lt_asym (x y : Heading) : pos_lt x y = true -> pos_lt y x = false.
Proof. apply key_lt_asym. Qed.

Lemma sorted_head_le (l : list Heading) (x : Heading) :
  sortedb pos_lt (x :: l) = true -> forall y, In y l -> pos_lt y x = false.
Proof.
  revert x. induction l as [|z l IH]; intros x H y Hy; [destruct Hy|].
  apply sortedb_cons in H. destruct H as [Hzx Hs].
  destruct Hy as [<-|Hy]; [exact Hzx|].
  unfold pos_lt. apply key_le_trans with (b := pos_key z); [exact Hzx|].
  apply (IH z Hs y Hy).
Qed.

Lemma sorted_skip (l : list Heading) (x z : Heading) :
  sortedb pos_lt (x :: z :: l) = true -> sortedb pos_lt (x :: l) = true.
Proof.
  intro H. apply sortedb_cons. split.
  - destruct l as [|y l]; [exact I|].
    eapply sorted_head_le; [exact H|]. right. left. reflexivity.
  - apply sortedb_cons in H. destruct H as [_ H].
    apply sortedb_cons in H. destruct H as [_ H]. exact H.
Qed.

Lemma should_merge_page (a b : Heading) :
  _should_merge a b = true -> page a = page b.
Proof.
  unfold _should_merge. destruct (Z.eqb_spec (page a) (page b)); [auto|].
  simpl. discriminate.
Qed.

(** Absorbing a candidate that sorts after the head of the run leaves
    the top of the run where it is. *)
Lemma expand_bbox_top (mb nb : option BBox) :
  Qltb (top_of nb) (top_of mb) = false ->
  top_of (expand_bbox mb nb) = top_of mb.
Proof.
  destruct mb as [[[[m0 m1] m2] m3]|], nb as [[[[n0 n1] n2] n3]|];
    simpl; try reflexivity.
  intro H. unfold min_ at 1. rewrite H. reflexivity.
Qed.

Lemma pos_lt_same_page (x y : Heading) :
  page x = page y -> pos_lt x y = Qltb (top_of (bbox x)) (top_of (bbox y)).
Proof.
  intro E. unfold pos_lt, key_lt, pos_key. cbn [fst snd]. rewrite E.
  rewrite Z.ltb_irrefl, Z.eqb_refl. reflexivity.
Qed.

(** The merged list starts with a heading that has the key of the head
    of the first run, and is in order. *)
Lemma merge_run_sorted (l : list Heading) :
  forall (current : Heading) (merged_text : str) (merged_bbox : option BBox),
  sortedb pos_lt (current :: l) = true ->
  top_of merged_bbox = top_of (bbox current) ->
  exists first rest,
    merge_run current merged_text merged_bbox l = first :: rest
    /\ pos_key first = pos_key current
    /\ sortedb pos_lt (first :: rest) = true.
Proof.
  induction l as [|nxt l IH]; intros current mt mb Hs Ht.
  - exists (merged_heading current mt mb), []. repeat split.
    unfold pos_key, merged_heading. cbn [page bbox]. f_equal. exact Ht.
  - simpl merge_run. destruct (_should_merge current nxt) eqn:M.
    + apply IH; [eapply sorted_skip; exact Hs|].
      rewrite expand_bbox_top; [exact Ht|].
      rewrite Ht. rewrite <- pos_lt_same_page.
      * apply sortedb_cons in Hs. apply Hs.
      * symmetry. apply should_merge_page. exact M.
    + apply sortedb_cons in Hs. destruct Hs as [Hhd Hs].
      destruct (IH nxt (text nxt) (bbox nxt) Hs eq_refl) as [first [rest [E [K S]]]].
      exists (merged_heading current mt mb), (first :: rest).
      rewrite E. split; [reflexivity|]. split.
      * unfold pos_key, merged_heading. cbn [page bbox]. f_equal. exact Ht.
      * apply sortedb_cons. split; [|exact S].
        unfold pos_lt. rewrite K.
        replace (pos_key (merged_heading current mt mb)) with (pos_key current);
          [exact Hhd|].
        unfold pos_key, merged_heading. cbn [page bbox]. f_equal. symmetry. exact Ht.
Qed.

(** The merged candidates are in the order of their keys (page, top of
    the box), whatever the order of the input. *)
Lemma merge_adjacent_sorted (headings : list Heading) :
  sortedb pos_lt (_merge_adjacent_headings headings) = true.
Proof.
  unfold _merge_adjacent_headings.
  destruct (sort_by pos_lt headings) as [|current l] eqn:E; [reflexivity|].
  assert (S : sortedb pos_lt (current :: l) = true).
  { rewrite <- E. apply sort_by_sorted. exact pos_lt_asym. }
  destruct (merge_run_sorted l current (text current) (bbox current) S eq_refl)
    as [first [rest [R [_ S']]]].
  rewrite R. exact S'.
Qed.





(** A pass merges at most; it merges when a candidate passes the test
    with its successor. *)
Lemma merge_run_length (l : list Heading) :
  forall current mt mb,
  (List.length (merge_run current mt mb l) <= S (List.length l))%nat.
Proof.
  induction l as [|nxt l IH]; intros current mt mb; simpl; [lia|].
  destruct (_should_merge current nxt); simpl.
  - eapply Nat.le_trans; [apply IH | lia].
  - apply le_n_S. apply IH.
Qed.




(* ===================================================================== *)
(** * Properties: occurrences of a word in a text *)
(* ===================================================================== *)

Lemma startswith_spec (p t : str) :
  startswith p t = true <-> exists b, t = p ++ b.
Proof.
  revert t. induction p as [|x p IH]; intro t; simpl.
  - split; [intros _; exists t; reflexivity | reflexivity].
  - destruct t as [|y t].
    + split; [discriminate | intros [b H]; discriminate].
    + unfold ascii_eqb. rewrite andb_true_iff, Ascii.eqb_eq, IH. split.
      * intros [-> [b ->]]. exists b. reflexivity.
      * intros [b H]. injection H as -> ->. split; [reflexivity | exists b; reflexivity].
Qed.

Lemma contains_spec (w t : str) : contains w t = true <-> occurs w t.
Proof.
  induction t as [|y t IH].
  - simpl. rewrite orb_false_r, startswith_spec. split.
    + intros [b H]. exists [], b. exact H.
    + intros [a [b H]]. destruct a; [exists b; exact H | discriminate].
  - simpl. rewrite orb_true_iff, startswith_spec, IH. split.
    + intros [[b H]|[a [b H]]].
      * exists [], b. exact H.
      * exists (y :: a), b. rewrite H. reflexivity.
    + intros [[|x a] [b H]].
      * left. exists b. exact H.
      * right. injection H as -> ->. exists a, b. reflexivity.
Qed.

Lemma contains_false (w t : str) : contains w t = false <-> ~ occurs w t.
Proof.
  rewrite <- contains_spec. destruct (contains w t); split; congruence.
Qed.

Lemma occurs_app_l (w x y : str) : occurs w x -> occurs w (x ++ y).
Proof.
  intros [a [b ->]]. exists a, (b ++ y). rewrite <- !app_assoc. reflexivity.
Qed.

Lemma occurs_app_r (w x y : str) : occurs w y -> occurs w (x ++ y).
Proof.
  intros [a [b ->]]. exists (x ++ a), b. rewrite <- !app_assoc. reflexivity.
Qed.

Lemma occurs_refl (w : str) : occurs w w.
Proof. exists [], []. rewrite app_nil_r. reflexivity. Qed.

Lemma occurs_trans (u w t : str) : occurs u w -> occurs w t -> occurs u t.
Proof.
  intros [a [b ->]] [c [d ->]]. exists (c ++ a), (b ++ d).
  rewrite <- !app_assoc. reflexivity.
Qed.

(** Two ways to cut one text. *)
Lemma app_eq_app_cases (A : Type) (x1 x2 y1 y2 : list A) :
  x1 ++ x2 = y1 ++ y2 ->
  (exists l, y1 = x1 ++ l /\ x2 = l ++ y2)
  \/ (exists l, x1 = y1 ++ l /\ y2 = l ++ x2).
Proof.
  revert y1. induction x1 as [|a x1 IH]; intros y1 H.
  - left. exists y1. split; [reflexivity | exact H].
  - destruct y1 as [|b y1].
    + right. exists (a :: x1). split; [reflexivity | symmetry; exact H].
    + injection H as -> H. destruct (IH y1 H) as [[l [-> ->]]|[l [-> ->]]].
      * left. exists l. split; reflexivity.
      * right. exists l. split; reflexivity.
Qed.

Lemma agree_common (x y u v : str) : x ++ u = y ++ v -> agree x y = true.
Proof.
  revert y. induction x as [|a x IH]; intros [|b y] H; try reflexivity.
  injection H as -> H. simpl. unfold ascii_eqb. rewrite Ascii.eqb_refl.
  apply (IH y H).
Qed.

(** An occurrence of [w] in [x ++ y] lies in [x], or lies in [y], or
    goes over the cut: a proper end of [w] begins [y]. *)
Lemma occurs_app_cases (w x y : str) :
  occurs w (x ++ y) ->
  occurs w x \/ occurs w y
  \/ exists w1 w2, w = w1 ++ w2 /\ w1 <> [] /\ w2 <> []
                   /\ (exists a, x = a ++ w1) /\ (exists b, y = w2 ++ b).
Proof.
  intros [a [b H]]. symmetry in H.
  destruct (app_eq_app_cases _ a (w ++ b) x y H) as [[l [-> Hl]]|[l [-> Hl]]].
  - (* the occurrence starts in x *)
    destruct (app_eq_app_cases _ w b l y Hl) as [[l' [-> ->]]|[l' [-> ->]]].
    + left. exists a, l'. reflexivity.
    + destruct l as [|c l].
      * right; left. exists [], b. reflexivity.
      * destruct l' as [|c' l'].
        -- left. exists a, []. rewrite !app_nil_r. reflexivity.
        -- right; right. exists (c :: l), (c' :: l'). repeat split; try discriminate.
           ++ exists a. reflexivity.
           ++ exists b. reflexivity.
  - right; left. exists l, b. exact Hl.
Qed.

(* ===================================================================== *)
(** * Properties: what a pattern can match *)
(* ===================================================================== *)

Lemma consumed_nil (st : mstate) : consumed st st [].
Proof. split; [reflexivity | simpl; lia]. Qed.

Lemma consumed_app (st st1 st2 : mstate) (m1 m2 : str) :
  consumed st st1 m1 -> consumed st1 st2 m2 -> consumed st st2 (m1 ++ m2).
Proof.
  intros [R1 O1] [R2 O2]. split.
  - rewrite R1, R2, app_assoc. reflexivity.
  - rewrite O2, O1, length_app. lia.
Qed.

Lemma step1_sound (ok : ascii -> bool) (st st' : mstate) :
  In st' (step1 ok st) -> exists x, consumed st st' [x] /\ ok x = true.
Proof.
  unfold step1. destruct st as [off rest caps]. simpl.
  destruct rest as [|x t]; [intros []|].
  destruct (ok x) eqn:E; [|intros []].
  intros [<-|[]]. exists x. split; [|exact E].
  split; simpl; [reflexivity | lia].
Qed.

Lemma eat_sound (w : str) :
  forall st st', In st' (eat false w st) -> consumed st st' w.
Proof.
  induction w as [|c w IH]; intros st st' H.
  - destruct H as [<-|[]]. apply consumed_nil.
  - simpl in H. apply in_flat_map in H. destruct H as [st1 [H1 H2]].
    apply step1_sound in H1. destruct H1 as [x [C E]].
    unfold chr_match, ascii_eqb in E. apply Ascii.eqb_eq in E. subst x.
    apply (consumed_app _ _ _ _ _ C (IH st1 st' H2)).
Qed.

Lemma rep_sound (step : mstate -> list mstate) (P : str -> Prop) :
  (forall st st', In st' (step st) -> exists m, consumed st st' m /\ P m) ->
  forall fuel lo hi st st',
  In st' (rep step fuel lo hi st) ->
  exists ms, consumed st st' (List.concat ms) /\ Forall P ms
             /\ (lo <= List.length ms)%nat.
Proof.
  intros Hstep. induction fuel as [|fuel IH]; intros lo hi st st' H.
  - simpl in H. destruct lo; [|destruct H]. destruct H as [<-|[]].
    exists []. split; [apply consumed_nil | split; [constructor | simpl; lia]].
  - assert (Stop : In st' (match lo with O => [st] | S _ => [] end) ->
                   exists ms, consumed st st' (List.concat ms) /\ Forall P ms
                              /\ (lo <= List.length ms)%nat).
    { destruct lo; [|intros []]. intros [<-|[]].
      exists []. split; [apply consumed_nil | split; [constructor | simpl; lia]]. }
    assert (More : In st' (flat_map (fun st1 =>
                       if (m_off st <? m_off st1)%nat
                       then rep step fuel (pred lo) (option_map pred hi) st1
                       else []) (step st)) ->
                   exists ms, consumed st st' (List.concat ms) /\ Forall P ms
                              /\ (lo <= List.length ms)%nat).
    { intro F. apply in_flat_map in F. destruct F as [st1 [H1 H2]].
      destruct (m_off st <? m_off st1)%nat; [|destruct H2].
      destruct (Hstep st st1 H1) as [m1 [C1 P1]].
      destruct (IH _ _ _ _ H2) as [ms [C2 [F2 L2]]].
      exists (m1 :: ms). split; [|split].
      - simpl. apply (consumed_app _ _ _ _ _ C1 C2).
      - constructor; assumption.
      - simpl. lia. }
    simpl in H. destruct hi as [[|h]|].
    + apply Stop. exact H.
    + apply in_app_or in H. destruct H as [H|H]; [apply More | apply Stop]; exact H.
    + apply in_app_or in H. destruct H as [H|H]; [apply More | apply Stop]; exact H.
Qed.

(** Every match of the matcher is a text of the pattern. *)
Lemma rmatch_sound (r : regex) :
  forall st st', In st' (rmatch false r st) ->
  exists m, consumed st st' m /\ den r m.
Proof.
  induction r as [|c|p| | | |a IHa b IHb|a IHa b IHb|lo hi a IHa|n a IHa|n];
    intros st st' H;
    [simpl in H | simpl in H | simpl in H | simpl in H | simpl in H | simpl in H
     | simpl in H | simpl in H
     | change (In st' (rep (rmatch false a) (S (List.length (m_rest st))) lo hi st)) in H
     | simpl in H | simpl in H].
  - destruct H as [<-|[]]. exists []. split; [apply consumed_nil | reflexivity].
  - apply step1_sound in H. destruct H as [x [C E]].
    unfold chr_match, ascii_eqb in E. apply Ascii.eqb_eq in E. subst x.
    exists [c]. split; [exact C | reflexivity].
  - apply step1_sound in H. destruct H as [x [C E]].
    unfold cls_match in E. rewrite andb_false_l, orb_false_r in E.
    exists [x]. split; [exact C | exists x; auto].
  - apply step1_sound in H. destruct H as [x [C _]].
    exists [x]. split; [exact C | exists x; reflexivity].
  - destruct (m_off st =? 0)%nat; [|destruct H]. destruct H as [<-|[]].
    exists []. split; [apply consumed_nil | reflexivity].
  - assert (E : In st' [st]).
    { destruct (m_rest st) as [|x [|y t]]; [exact H | | destruct H].
      destruct (ascii_eqb x newline); [exact H | destruct H]. }
    destruct E as [<-|[]]. exists []. split; [apply consumed_nil | reflexivity].
  - apply in_flat_map in H. destruct H as [st1 [H1 H2]].
    destruct (IHa _ _ H1) as [m1 [C1 D1]]. destruct (IHb _ _ H2) as [m2 [C2 D2]].
    exists (m1 ++ m2). split; [apply (consumed_app _ _ _ _ _ C1 C2)|].
    exists m1, m2. auto.
  - apply in_app_or in H. destruct H as [H|H].
    + destruct (IHa _ _ H) as [m [C D]]. exists m. split; [exact C | left; exact D].
    + destruct (IHb _ _ H) as [m [C D]]. exists m. split; [exact C | right; exact D].
  - destruct (rep_sound (rmatch false a) (den a) IHa _ _ _ _ _ H) as [ms [C [F L]]].
    exists (List.concat ms). split; [exact C|]. exists ms. auto.
  - apply in_map_iff in H. destruct H as [st1 [<- H1]].
    destruct (IHa _ _ H1) as [m [[R O] D]]. exists m. split; [|exact D].
    split; simpl; assumption.
  - destruct (cap_lookup n (m_caps st)) as [w|]; [|destruct H].
    exists w. split; [apply eat_sound; exact H | exact I].
Qed.

Lemma concat_nil_Forall (P : str -> Prop) (ms : list str) :
  List.concat ms = [] -> Forall P ms -> ms = [] \/ P [].
Proof.
  destruct ms as [|m ms]; [left; reflexivity|]. simpl. intros E F.
  apply app_eq_nil in E. destruct E as [-> _]. right.
  inversion F. assumption.
Qed.

Lemma den_nullable (r : regex) : den r [] -> nullable r = true.
Proof.
  induction r as [|c|p| | | |a IHa b IHb|a IHa b IHb|lo hi a IHa|n a IHa|n];
    simpl; intro H; try reflexivity.
  - discriminate.
  - destruct H as [x [H _]]. discriminate.
  - destruct H as [x H]. discriminate.
  - destruct H as [m1 [m2 [E [D1 D2]]]]. symmetry in E.
    apply app_eq_nil in E. destruct E as [-> ->].
    rewrite (IHa D1), (IHb D2). reflexivity.
  - destruct H as [H|H]; [rewrite (IHa H) | rewrite (IHb H), orb_true_r]; reflexivity.
  - destruct H as [ms [E [F L]]]. symmetry in E.
    destruct (concat_nil_Forall _ _ E F) as [->|D].
    + simpl in L. assert (lo = 0)%nat by lia. subst lo. reflexivity.
    + rewrite (IHa D), orb_true_r. reflexivity.
  - apply IHa. exact H.
Qed.

Lemma forallb_concat (P : ascii -> bool) (ms : list str) :
  Forall (fun m => forallb P m = true) ms -> forallb P (List.concat ms) = true.
Proof.
  induction 1 as [|m ms Hm _ IH]; [reflexivity|].
  simpl. rewrite forallb_app, Hm, IH. reflexivity.
Qed.

Lemma forallb_weaken (P Q : ascii -> bool) (m : str) :
  (forall x, P x = true -> Q x = true) -> forallb P m = true -> forallb Q m = true.
Proof.
  intros H F. apply forallb_forall. intros x Hx.
  apply H. revert x Hx. apply forallb_forall. exact F.
Qed.

Lemma den_alph (r : regex) :
  forall m, den r m -> forallb (alph r) m = true.
Proof.
  induction r as [|c|p| | | |a IHa b IHb|a IHa b IHb|lo hi a IHa|n a IHa|n];
    simpl; intros m H; try (subst m; reflexivity).
  - subst m. simpl. unfold ascii_eqb. rewrite Ascii.eqb_refl. reflexivity.
  - destruct H as [x [-> H]]. simpl. rewrite H. reflexivity.
  - destruct H as [x ->]. reflexivity.
  - destruct H as [m1 [m2 [-> [D1 D2]]]]. rewrite forallb_app. apply andb_true_iff. split.
    + apply (forallb_weaken (alph a)); [intros x ->; reflexivity | apply IHa; exact D1].
    + apply (forallb_weaken (alph b)); [intros x ->; apply orb_true_r | apply IHb; exact D2].
  - destruct H as [H|H].
    + apply (forallb_weaken (alph a)); [intros x ->; reflexivity | apply IHa; exact H].
    + apply (forallb_weaken (alph b)); [intros x ->; apply orb_true_r | apply IHb; exact H].
  - destruct H as [ms [-> [F _]]]. apply forallb_concat.
    eapply Forall_impl; [|exact F]. exact IHa.
  - apply IHa. exact H.
  - apply forallb_forall. reflexivity.
Qed.

Lemma den_minlen (r : regex) :
  forall m, den r m -> (minlen r <= List.length m)%nat.
Proof.
  induction r as [|c|p| | | |a IHa b IHb|a IHa b IHb|lo hi a IHa|n a IHa|n];
    simpl; intros m H; try lia.
  - subst m. simpl. lia.
  - destruct H as [x [-> _]]. simpl. lia.
  - destruct H as [x ->]. simpl. lia.
  - destruct H as [m1 [m2 [-> [D1 D2]]]]. rewrite length_app.
    specialize (IHa _ D1). specialize (IHb _ D2). lia.
  - destruct H as [H|H]; [specialize (IHa _ H) | specialize (IHb _ H)]; lia.
  - destruct H as [ms [-> [F L]]].
    assert (G : (List.length ms * minlen a <= List.length (List.concat ms))%nat).
    { clear L. induction F as [|m ms Hm _ IH]; [simpl; lia|].
      simpl. rewrite length_app. specialize (IHa _ Hm). lia. }
    nia.
  - apply IHa. exact H.
Qed.

Lemma den_firstc (r : regex) :
  forall x m, den r (x :: m) -> firstc r x = true.
Proof.
  induction r as [|c|p| | | |a IHa b IHb|a IHa b IHb|lo hi a IHa|n a IHa|n];
    simpl; intros x m H; try discriminate; try reflexivity.
  - injection H as -> _. unfold ascii_eqb. apply Ascii.eqb_refl.
  - destruct H as [y [E H]]. injection E as -> _. exact H.
  - destruct H as [m1 [m2 [E [D1 D2]]]]. destruct m1 as [|y m1].
    + simpl in E. subst m2. rewrite (den_nullable a D1), (IHb _ _ D2).
      apply orb_true_r.
    + injection E as -> _. rewrite (IHa _ _ D1). reflexivity.
  - destruct H as [H|H]; [rewrite (IHa _ _ H) | rewrite (IHb _ _ H), orb_true_r];
      reflexivity.
  - destruct H as [ms [E [F _]]]. revert E.
    induction F as [|m1 ms Hm _ IH]; [discriminate|].
    simpl. destruct m1 as [|y m1]; [exact IH|].
    intro E. injection E as -> _. apply (IHa _ _ Hm).
  - apply (IHa _ _ H).
Qed.

Lemma den_lastc (r : regex) :
  forall x m, den r (m ++ [x]) -> lastc r x = true.
Proof.
  induction r as [|c|p| | | |a IHa b IHb|a IHa b IHb|lo hi a IHa|n a IHa|n];
    simpl; intros x m H; try reflexivity;
    try (destruct m; discriminate).
  - destruct m as [|y [|z m]]; try discriminate.
    injection H as ->. unfold ascii_eqb. apply Ascii.eqb_refl.
  - destruct H as [y [E H]]. destruct m as [|z [|z' m]]; try discriminate.
    injection E as ->. exact H.
  - destruct H as [m1 [m2 [E [D1 D2]]]].
    destruct m2 as [|z zs].
    + rewrite app_nil_r in E. subst m1.
      rewrite (den_nullable b D2), (IHa _ _ D1). apply orb_true_r.
    + destruct (exists_last (l := z :: zs)) as [c [y Ey]]; [discriminate|].
      rewrite Ey in E, D2. rewrite app_assoc in E. apply app_inj_tail in E.
      destruct E as [_ ->]. rewrite (IHb _ _ D2). reflexivity.
  - destruct H as [H|H]; [rewrite (IHa _ _ H) | rewrite (IHb _ _ H), orb_true_r];
      reflexivity.
  - destruct H as [ms [E [F _]]]. revert m E.
    induction F as [|m1 ms Hm _ IH]; intros m E; [destruct m; discriminate|].
    simpl in E. destruct (List.concat ms) as [|z zs] eqn:C.
    + rewrite app_nil_r in E. subst m1. apply (IHa _ _ Hm).
    + destruct (exists_last (l := z :: zs)) as [c [y Ey]]; [discriminate|].
      rewrite Ey in E. rewrite app_assoc in E. apply app_inj_tail in E.
      destruct E as [_ ->]. apply (IH c). symmetry. exact Ey.
  - apply (IHa _ _ H).
Qed.

(* ===================================================================== *)
(** * Properties: substitution *)
(* ===================================================================== *)

Lemma search_sound (r : regex) (t : str) :
  forall adv off sk st',
  search false r adv off t = Some (sk, st') ->
  exists m, t = sk ++ m ++ m_rest st' /\ den r m.
Proof.
  induction t as [|c t IH]; intros adv off sk st' H; simpl in H.
  - destruct (filter _ (rmatch false r (MState off [] []))) as [|st1 l] eqn:E;
      [discriminate|].
    injection H as <- <-.
    assert (I1 : In st1 (st1 :: l)) by (left; reflexivity).
    rewrite <- E in I1. apply filter_In in I1. destruct I1 as [I1 _].
    apply rmatch_sound in I1. destruct I1 as [m [[R _] D]].
    exists m. split; [exact R | exact D].
  - destruct (filter _ (rmatch false r (MState off (c :: t) []))) as [|st1 l] eqn:E.
    + destruct (search false r false (S off) t) as [[sk1 st1]|] eqn:S1; [|discriminate].
      injection H as <- <-.
      destruct (IH _ _ _ _ S1) as [m [-> D]].
      exists m. split; [reflexivity | exact D].
    + injection H as <- <-.
      assert (I1 : In st1 (st1 :: l)) by (left; reflexivity).
      rewrite <- E in I1. apply filter_In in I1. destruct I1 as [I1 _].
      apply rmatch_sound in I1. destruct I1 as [m [[R _] D]].
      exists m. split; [exact R | exact D].
Qed.

Lemma sub_from_rewrites (r : regex) (repl : str) (fuel : nat) :
  forall adv off t, rewrites r repl t (sub_from fuel r [TLit repl] adv off t).
Proof.
  induction fuel as [|fuel IH]; intros adv off t; simpl; [constructor|].
  destruct (search false r adv off t) as [[sk st']|] eqn:S1; [|constructor].
  destruct (search_sound _ _ _ _ _ _ S1) as [m [E D]].
  rewrite app_nil_r. rewrite E at 1. apply rw_step; [exact D | apply IH].
Qed.

Lemma re_sub_rewrites (r : regex) (repl t : str) :
  rewrites r repl t (re_sub r repl t).
Proof. apply sub_from_rewrites. Qed.

Lemma skipn_length_app (A : Type) (a x : list A) :
  skipn (List.length a) (a ++ x) = x.
Proof. induction a as [|y a IH]; [reflexivity | exact IH]. Qed.

(** No alignment of [w] on [m] makes them agree. *)
Lemma apart_of_alignments (w m : str) :
  (forall d, (d < List.length m)%nat -> agree (skipn d m) w = false) ->
  (forall d, (1 <= d < List.length w)%nat -> agree (skipn d w) m = false) ->
  apart w m.
Proof.
  intros H1 H2 sk rest O.
  destruct w as [|w0 w'] eqn:Ew; [left; exists [], sk; reflexivity|]. rewrite <- Ew in *.
  assert (Wl : (1 <= List.length w)%nat) by (rewrite Ew; simpl; lia).
  destruct (occurs_app_cases _ _ _ O) as [O1|[O2|[w1 [w2 [E [N1 [N2 [[a Ea] [b Eb]]]]]]]]].
  - left. exact O1.
  - destruct (occurs_app_cases _ _ _ O2) as [[a [b E]]|[O3|[w1 [w2 [E [N1 [N2 [[a Ea] [b Eb]]]]]]]]].
    + exfalso. specialize (H1 (List.length a)).
      rewrite E, skipn_length_app in H1.
      rewrite (agree_common (w ++ b) w [] b) in H1.
      * assert (List.length a < List.length (a ++ w ++ b))%nat
          by (rewrite !length_app; lia).
        specialize (H1 H). discriminate.
      * rewrite app_nil_r. reflexivity.
    + right. exact O3.
    + exfalso. specialize (H1 (List.length a)).
      rewrite Ea, skipn_length_app in H1.
      rewrite (agree_common w1 w w2 []) in H1.
      * assert (List.length a < List.length (a ++ w1))%nat.
        { rewrite length_app. destruct w1; [congruence | simpl; lia]. }
        specialize (H1 H). discriminate.
      * rewrite app_nil_r. symmetry. exact E.
  - exfalso. specialize (H2 (List.length w1)).
    rewrite E, skipn_length_app in H2.
    rewrite (agree_common w2 m b rest) in H2; [|symmetry; exact Eb].
    assert ((1 <= List.length w1 < List.length (w1 ++ w2))%nat).
    { rewrite length_app. destruct w1, w2; try congruence; simpl; lia. }
    specialize (H2 H). discriminate.
Qed.

Lemma overlap_free_apart (w m : str) : overlap_free w m = true -> apart w m.
Proof.
  unfold overlap_free. rewrite andb_true_iff, !forallb_forall. intros [H1 H2].
  apply apart_of_alignments.
  - intros d Hd. apply negb_true_iff. apply H1. apply in_seq. lia.
  - intros d Hd. apply negb_true_iff. apply H2. apply in_seq. lia.
Qed.

Section Rewriting.

Variables (r : regex) (repl w : str).

(** A word apart from every text of the pattern stays. *)
Lemma rewrites_keeps (t res : str) :
  (forall m, den r m -> apart w m) ->
  rewrites r repl t res -> occurs w t -> occurs w res.
Proof.
  intros Ha R. induction R as [t|sk m rest res D R IH]; intro O; [exact O|].
  destruct (Ha m D sk rest O) as [O1|O2].
  - apply occurs_app_l. exact O1.
  - apply occurs_app_r. apply occurs_app_r. apply IH. exact O2.
Qed.

(** A word of the replacement stays. *)
Lemma rewrites_keeps_repl (t res : str) :
  occurs w repl -> rewrites r repl t res -> occurs w t -> occurs w res.
Proof.
  intros Hr R. destruct R as [t|sk m rest res D R]; intro O; [exact O|].
  apply occurs_app_r. apply occurs_app_l. exact Hr.
Qed.

(** A word apart from the replacement does not come up. *)
Lemma rewrites_creates_none (t res : str) :
  apart w repl -> rewrites r repl t res -> ~ occurs w t -> ~ occurs w res.
Proof.
  intros Ha R. induction R as [t|sk m rest res D R IH]; intros N O; [exact (N O)|].
  destruct (Ha sk res O) as [O1|O2].
  - apply N. apply occurs_app_l. exact O1.
  - apply IH; [|exact O2]. intro O3. apply N.
    apply occurs_app_r. apply occurs_app_r. exact O3.
Qed.

(** When every text of the pattern holds a word the subject lacks, the
    subject is returned. *)
Lemma rewrites_no_match (u t res : str) :
  (forall m, den r m -> occurs u m) ->
  rewrites r repl t res -> ~ occurs u t -> res = t.
Proof.
  intros Hu R N. destruct R as [t|sk m rest res D R]; [reflexivity|].
  exfalso. apply N. apply occurs_app_r. apply occurs_app_l. apply Hu. exact D.
Qed.

End Rewriting.

Lemma skipn_cons_of_lt (d : nat) (m : str) :
  (d < List.length m)%nat -> exists x ms, skipn d m = x :: ms.
Proof.
  revert m. induction d as [|d IH]; intros [|x m] H; simpl in H; try lia.
  - exists x, m. reflexivity.
  - apply IH. lia.
Qed.

Lemma In_skipn (d : nat) (m : str) (x : ascii) : In x (skipn d m) -> In x m.
Proof.
  intro H. rewrite <- (firstn_skipn d m). apply in_or_app. right. exact H.
Qed.

Lemma no_adjacent_skipn (P : ascii -> bool) (d : nat) (w : str) :
  no_adjacent P w = true -> no_adjacent P (skipn d w) = true.
Proof.
  revert w. induction d as [|d IH]; intros w H; [exact H|].
  destruct w as [|x w]; [reflexivity|]. simpl. apply IH.
  destruct w as [|y w]; [reflexivity|].
  simpl in H. apply andb_true_iff in H. apply H.
Qed.

Lemma forallb_In (P : ascii -> bool) (m : str) (x : ascii) :
  forallb P m = true -> In x m -> P x = true.
Proof. intros F I. revert x I. apply forallb_forall. exact F. Qed.

Lemma agree_cons (x y : ascii) (a b : str) :
  agree (x :: a) (y :: b) = true -> x = y /\ agree a b = true.
Proof.
  simpl. unfold ascii_eqb. rewrite andb_true_iff, Ascii.eqb_eq. tauto.
Qed.

Lemma not_true_false (b : bool) : (b = true -> False) -> b = false.
Proof. destruct b; [intro H; exfalso; apply H; reflexivity | reflexivity]. Qed.

Lemma safe_word_apart (r : regex) (w m : str) :
  safe_word r w = true -> den r m -> apart w m.
Proof.
  intros S D.
  destruct w as [|y ws] eqn:Ew; [intros sk rest _; left; exists [], sk; reflexivity|].
  rewrite <- Ew in *.
  pose proof (den_alph r m D) as A. pose proof (den_minlen r m D) as L.
  unfold safe_word in S. apply orb_true_iff in S. destruct S as [S|S].
  - (* no shared character *)
    apply andb_true_iff in S. destruct S as [S1 S2]. apply Nat.leb_le in S1.
    apply apart_of_alignments.
    + intros d Hd. apply not_true_false. intro G.
      destruct (skipn_cons_of_lt d m Hd) as [x [ms E]]. rewrite E, Ew in G.
      apply agree_cons in G. destruct G as [-> _].
      assert (alph r y = true).
      { apply (forallb_In _ m); [exact A|]. apply (In_skipn d). rewrite E. left. reflexivity. }
      assert (negb (alph r y) = true).
      { apply (forallb_In (fun x => negb (alph r x)) w); [exact S2|].
        rewrite Ew. left. reflexivity. }
      destruct (alph r y); discriminate.
    + intros d Hd. apply not_true_false. intro G.
      destruct (skipn_cons_of_lt d w (proj2 Hd)) as [z [zs E]]. rewrite E in G.
      destruct m as [|x ms]; [simpl in L; lia|].
      apply agree_cons in G. destruct G as [-> _].
      assert (alph r x = true) by (apply (forallb_In _ (x :: ms)); [exact A | left; reflexivity]).
      assert (negb (alph r x) = true).
      { apply (forallb_In (fun x => negb (alph r x)) w); [exact S2|].
        apply (In_skipn d). rewrite E. left. reflexivity. }
      destruct (alph r x); discriminate.
  - (* shared characters are isolated and fit no end *)
    repeat (apply andb_true_iff in S; destruct S as [S ?]).
    apply Nat.leb_le in S.
    match goal with H : (2 <=? List.length w)%nat = true |- _ => apply Nat.leb_le in H; rename H into Lw end.
    match goal with H : no_adjacent _ w = true |- _ => rename H into NA end.
    match goal with H : negb (lastc _ _) = true |- _ => apply negb_true_iff in H; rename H into NL end.
    match goal with H : negb (firstc _ _) = true |- _ => apply negb_true_iff in H; rename H into NF end.
    apply apart_of_alignments.
    + intros d Hd. apply not_true_false. intro G.
      destruct (skipn_cons_of_lt d m Hd) as [x [ms E]]. rewrite E in G.
      destruct ws as [|y2 ws']; [rewrite Ew in Lw; simpl in Lw; lia|].
      rewrite Ew in G. apply agree_cons in G. destruct G as [-> G].
      destruct ms as [|x2 ms'].
      * assert (M : m = firstn d m ++ [y]) by (rewrite <- E; symmetry; apply firstn_skipn).
        rewrite M in D. apply den_lastc in D.
        rewrite Ew in NL. simpl in NL. congruence.
      * apply agree_cons in G. destruct G as [-> _].
        assert (A1 : alph r y = true).
        { apply (forallb_In _ m); [exact A|]. apply (In_skipn d). rewrite E. left. reflexivity. }
        assert (A2 : alph r y2 = true).
        { apply (forallb_In _ m); [exact A|]. apply (In_skipn d). rewrite E.
          right. left. reflexivity. }
        rewrite Ew in NA. simpl in NA. rewrite A1, A2 in NA. discriminate.
    + intros d Hd. apply not_true_false. intro G.
      destruct (skipn_cons_of_lt d w (proj2 Hd)) as [z [zs E]]. rewrite E in G.
      destruct m as [|x [|x2 ms']]; [simpl in L; lia | simpl in L; lia |].
      apply agree_cons in G. destruct G as [-> G].
      destruct zs as [|z2 zs'].
      * assert (W : w = firstn d w ++ [x]) by (rewrite <- E; symmetry; apply firstn_skipn).
        rewrite W, last_last in NF. apply den_firstc in D. congruence.
      * apply agree_cons in G. destruct G as [-> _].
        assert (A1 : alph r x = true)
          by (apply (forallb_In _ (x :: x2 :: ms')); [exact A | left; reflexivity]).
        assert (A2 : alph r x2 = true)
          by (apply (forallb_In _ (x :: x2 :: ms')); [exact A | right; left; reflexivity]).
        apply (no_adjacent_skipn _ d) in NA. rewrite E in NA.
        simpl in NA. rewrite A1, A2 in NA. discriminate.
Qed.

(** The four facts about [re.sub], on [contains]. *)
Lemma sub_keeps (r : regex) (repl w t : str) :
  safe_word r w = true ->
  contains w t = true -> contains w (re_sub r repl t) = true.
Proof.
  rewrite !contains_spec. intros S O.
  apply (rewrites_keeps r repl w t); [|apply re_sub_rewrites | exact O].
  intros m D. apply (safe_word_apart r); assumption.
Qed.

Lemma sub_keeps_repl (r : regex) (repl w t : str) :
  contains w repl = true ->
  contains w t = true -> contains w (re_sub r repl t) = true.
Proof.
  rewrite !contains_spec. intros S O.
  apply (rewrites_keeps_repl r repl w t); [exact S | apply re_sub_rewrites | exact O].
Qed.

Lemma sub_creates_none (r : regex) (repl w t : str) :
  overlap_free w repl = true ->
  contains w t = false -> contains w (re_sub r repl t) = false.
Proof.
  rewrite !contains_false. intros S N.
  apply (rewrites_creates_none r repl w t);
    [apply overlap_free_apart; exact S | apply re_sub_rewrites | exact N].
Qed.

Lemma sub_no_match (r : regex) (repl u t : str) :
  (forall m, den r m -> occurs u m) ->
  contains u t = false -> re_sub r repl t = t.
Proof.
  rewrite contains_false. intros H N.
  apply (rewrites_no_match r repl u t); [exact H | apply re_sub_rewrites | exact N].
Qed.

(** The texts of a literal, and of a pattern that starts or ends with
    one. *)
Lemma den_Lit (u m : str) : den (Lit u) m -> m = u.
Proof.
  revert m. induction u as [|c u IH]; intros m H; [exact H|].
  destruct u as [|c' u]; [exact H|].
  destruct H as [m1 [m2 [-> [D1 D2]]]]. simpl in D1. subst m1.
  rewrite (IH _ D2). reflexivity.
Qed.

Lemma den_starts (u : str) (b : regex) (m : str) :
  den (Cat (Lit u) b) m -> exists m2, m = u ++ m2.
Proof.
  intros [m1 [m2 [-> [D1 _]]]]. apply den_Lit in D1. subst m1.
  exists m2. reflexivity.
Qed.

Lemma den_ends (a : regex) (u : str) (m : str) :
  den (Cat a (Lit u)) m -> exists m1, m = m1 ++ u.
Proof.
  intros [m1 [m2 [-> [_ D2]]]]. apply den_Lit in D2. subst m2.
  exists m1. reflexivity.
Qed.

Lemma den_tail (a b : regex) (m : str) :
  den (Cat a b) m -> exists m1 m2, m = m1 ++ m2 /\ den b m2.
Proof. intros [m1 [m2 [E [_ D]]]]. exists m1, m2. auto. Qed.

Lemma occurs_of_contains (w t : str) : contains w t = true -> occurs w t.
Proof. apply contains_spec. Qed.

(* ===================================================================== *)
(** * Properties: the repair of a title *)
(* ===================================================================== *)

Lemma den_pr_oposal (m : str) : den rx_pr_oposal m -> occurs "oposal" m.
Proof.
  intro D. apply den_tail in D. destruct D as [m1 [m2 [-> D]]].
  apply den_ends in D. destruct D as [m3 ->].
  apply occurs_app_r. apply occurs_app_r. apply occurs_refl.
Qed.

Lemma den_oposal (m : str) : den rx_oposal m -> occurs "oposal" m.
Proof. intro D. apply den_Lit in D. subst m. apply occurs_refl. Qed.

Lemma den_request_for_o (m : str) : den rx_request_for_o m -> occurs "quest" m.
Proof.
  intro D. apply den_starts in D. destruct D as [m2 ->].
  apply occurs_app_l. apply occurs_of_contains. reflexivity.
Qed.

Lemma den_rfp_request_for_oposal_rfp (m : str) :
  den rx_rfp_request_for_oposal m -> occurs "RFP:" m.
Proof.
  intro D. apply den_starts in D. destruct D as [m2 ->].
  apply occurs_app_l. apply occurs_refl.
Qed.

Lemma den_rfp_request_for_oposal_quest (m : str) :
  den rx_rfp_request_for_oposal m -> occurs "quest" m.
Proof.
  intro D. apply den_tail in D. destruct D as [m1 [m2 [-> D]]].
  apply den_tail in D. destruct D as [m3 [m4 [-> D]]].
  apply den_starts in D. destruct D as [m5 ->].
  apply occurs_app_r. apply occurs_app_r. apply occurs_app_l.
  apply occurs_of_contains. reflexivity.
Qed.

Lemma den_quest_for_proposal (m : str) :
  den rx_quest_for_proposal m -> occurs "quest" m.
Proof.
  intro D. apply den_starts in D. destruct D as [m2 ->].
  apply occurs_app_l. apply occurs_refl.
Qed.

(** "RFP:" stays through the nine substitutions. *)
Lemma repair_keeps_rfp (t : str) :
  contains "RFP:" t = true -> contains "RFP:" (repair_title t) = true.
Proof.
  intro H. unfold repair_title. cbv zeta.
  apply sub_keeps; [by_computation|].
  apply sub_keeps_repl; [by_computation|].
  apply sub_keeps; [by_computation|].
  apply sub_keeps; [by_computation|].
  apply sub_keeps; [by_computation|].
  apply sub_keeps; [by_computation|].
  apply sub_keeps; [by_computation|].
  apply sub_keeps; [by_computation|].
  apply sub_keeps_repl; [by_computation|].
  exact H.
Qed.

(** "quest" stays through the nine substitutions. *)
Lemma repair_keeps_quest (t : str) :
  contains "quest" t = true -> contains "quest" (repair_title t) = true.
Proof.
  intro H. unfold repair_title. cbv zeta.
  apply sub_keeps; [by_computation|].
  apply sub_keeps; [by_computation|].
  apply sub_keeps; [by_computation|].
  apply sub_keeps; [by_computation|].
  apply sub_keeps; [by_computation|].
  apply sub_keeps_repl; [by_computation|].
  apply sub_keeps_repl; [by_computation|].
  apply sub_keeps_repl; [by_computation|].
  apply sub_keeps; [by_computation|].
  exact H.
Qed.

(** "oposal" does not come up in the nine substitutions. *)
Lemma repair_no_oposal (t : str) :
  contains "oposal" t = false -> contains "oposal" (repair_title t) = false.
Proof.
  intro H. unfold repair_title. cbv zeta.
  apply sub_creates_none; [by_computation|].
  apply sub_creates_none; [by_computation|].
  apply sub_creates_none; [by_computation|].
  assert (H4 : contains "oposal"
                 (re_sub rx_equest "Request"
                    (re_sub rx_r_quest_for "Request for"
                       (re_sub rx_quest_f "quest for "
                          (re_sub rx_rfp_r "RFP:" t)))) = false).
  { apply sub_creates_none; [by_computation|].
    apply sub_creates_none; [by_computation|].
    apply sub_creates_none; [by_computation|].
    apply sub_creates_none; [by_computation|].
    exact H. }
  rewrite (sub_no_match rx_pr_oposal "Proposal" "oposal" _ den_pr_oposal H4).
  rewrite (sub_no_match rx_oposal "Proposal" "oposal" _ den_oposal H4).
  exact H4.
Qed.

Lemma contains_app_l (w x y : str) :
  contains w x = true -> contains w (x ++ y) = true.
Proof. rewrite !contains_spec. apply occurs_app_l. Qed.

Lemma contains_app_r (w x y : str) :
  contains w y = true -> contains w (x ++ y) = true.
Proof. rewrite !contains_spec. apply occurs_app_r. Qed.

(** A word apart from the blank occurs in [x ++ " " ++ y] only inside
    [x] or inside [y]. *)
Lemma contains_joined (w x y : str) :
  overlap_free w " " = true ->
  contains w x = false -> contains w y = false ->
  contains w (x ++ (" " : str) ++ y) = false.
Proof.
  rewrite !contains_false. intros S Nx Ny O.
  destruct (overlap_free_apart w " " S x y O) as [O1|O2]; [exact (Nx O1) | exact (Ny O2)].
Qed.

Lemma no_oposal_no_proposal (t : str) :
  contains "oposal" t = false -> contains "Proposal" t = false.
Proof.
  rewrite !contains_false. intros N O. apply N.
  apply (occurs_trans "oposal" "Proposal" t); [|exact O].
  apply occurs_of_contains. reflexivity.
Qed.

Lemma no_quest_no_request (t : str) :
  contains "quest" t = false -> contains "Request" t = false.
Proof.
  rewrite !contains_false. intros N O. apply N.
  apply (occurs_trans "quest" "Request" t); [|exact O].
  apply occurs_of_contains. reflexivity.
Qed.

(** With the markers "RFP:", "quest" and "oposal" in its argument,
    [_cleanup_extracted_title] returns the full canonical title. *)
Lemma cleanup_full (t : str) :
  contains "RFP:" t = true -> contains "quest" t = true ->
  contains "oposal" t = true ->
  _cleanup_extracted_title t = full_rfp_title.
Proof.
  intros Hr Hq Ho. unfold _cleanup_extracted_title.
  destruct t as [|c t'] eqn:Et; [discriminate|]. rewrite <- Et in *. clear Et c t'.
  cbv zeta.
  rewrite (repair_keeps_rfp t Hr), (repair_keeps_quest t Hq).
  cbn [andb orb].
  rewrite (contains_app_l "quest" (repair_title t) _ (repair_keeps_quest t Hq)).
  rewrite (contains_app_r "oposal" (repair_title t) _
             (contains_app_r "oposal" " " t Ho)).
  rewrite !orb_true_r. reflexivity.
Qed.

(** With "RFP:" and "quest" but no "oposal", it returns the partial
    one. *)
Lemma cleanup_partial (t : str) :
  contains "RFP:" t = true -> contains "quest" t = true ->
  contains "oposal" t = false ->
  _cleanup_extracted_title t = partial_rfp_title.
Proof.
  intros Hr Hq Ho. unfold _cleanup_extracted_title.
  destruct t as [|c t'] eqn:Et; [discriminate|]. rewrite <- Et in *. clear Et c t'.
  cbv zeta.
  rewrite (repair_keeps_rfp t Hr), (repair_keeps_quest t Hq).
  cbn [andb orb].
  rewrite (contains_app_l "quest" (repair_title t) _ (repair_keeps_quest t Hq)).
  assert (No : contains "oposal" (repair_title t ++ (" " : str) ++ t) = false).
  { apply contains_joined; [by_computation | apply repair_no_oposal; exact Ho | exact Ho]. }
  rewrite No, (no_oposal_no_proposal _ No).
  rewrite !orb_true_r. reflexivity.
Qed.

(** [strip] cuts spaces off the two ends. *)
Lemma strip_decomp (t : str) :
  exists a b, t = a ++ strip t ++ b
              /\ forallb is_space a = true /\ forallb is_space b = true.
Proof.
  destruct (lstrip_split t) as [a [Ea Fa]].
  destruct (lstrip_split (rev (lstrip t))) as [b [Eb Fb]].
  exists a, (rev b). split; [|split].
  - unfold strip, rstrip. rewrite <- rev_app_distr, <- Eb, rev_involutive. exact Ea.
  - exact Fa.
  - rewrite forallb_forall in *. intros x Hx. apply Fb. apply in_rev. exact Hx.
Qed.

Lemma contains_strip (w t : str) :
  contains w (strip t) = true -> contains w t = true.
Proof.
  rewrite !contains_spec. intro O.
  destruct (strip_decomp t) as [a [b [E _]]]. rewrite E.
  apply occurs_app_r. apply occurs_app_l. exact O.
Qed.

Lemma not_contains_strip (w t : str) :
  contains w t = false -> contains w (strip t) = false.
Proof.
  intro H. destruct (contains w (strip t)) eqn:E; [|reflexivity].
  rewrite (contains_strip w t E) in H. discriminate.
Qed.

Lemma occurs_in_spaces (w sp : str) :
  solid w = true -> forallb is_space sp = true -> ~ occurs w sp.
Proof.
  intros S F [a [b E]]. destruct w as [|c w']; [discriminate|].
  simpl in S. apply andb_true_iff in S. destruct S as [S _].
  assert (is_space c = true).
  { apply (forallb_In is_space sp); [exact F|]. rewrite E.
    apply in_or_app. right. left. reflexivity. }
  rewrite H in S. discriminate.
Qed.

Lemma occurs_after_spaces (w sp y : str) :
  solid w = true -> forallb is_space sp = true ->
  occurs w (sp ++ y) -> occurs w y.
Proof.
  intros S F O.
  destruct (occurs_app_cases _ _ _ O) as [O1|[O2|[w1 [w2 [E [N1 [_ [[a Ea] _]]]]]]]].
  - exfalso. exact (occurs_in_spaces w sp S F O1).
  - exact O2.
  - exfalso. destruct w1 as [|c w1']; [congruence|].
    rewrite E in S. simpl in S. apply andb_true_iff in S. destruct S as [S _].
    assert (is_space c = true).
    { apply (forallb_In is_space sp); [exact F|]. rewrite Ea.
      apply in_or_app. right. left. reflexivity. }
    rewrite H in S. discriminate.
Qed.

Lemma occurs_before_spaces (w sp y : str) :
  solid w = true -> forallb is_space sp = true ->
  occurs w (y ++ sp) -> occurs w y.
Proof.
  intros S F O.
  destruct (occurs_app_cases _ _ _ O) as [O1|[O2|[w1 [w2 [E [_ [N2 [_ [b Eb]]]]]]]]].
  - exact O1.
  - exfalso. exact (occurs_in_spaces w sp S F O2).
  - exfalso. destruct (exists_last N2) as [w2' [c Ec]].
    assert (L : last w blank = c).
    { rewrite E, Ec, app_assoc. apply last_last. }
    destruct w as [|c0 w']; [discriminate|].
    cbn [solid] in S. apply andb_true_iff in S. destruct S as [_ S].
    rewrite L in S.
    assert (is_space c = true).
    { apply (forallb_In is_space sp); [exact F|]. rewrite Eb, Ec.
      apply in_or_app. left. apply in_or_app. right. left. reflexivity. }
    rewrite H in S. discriminate.
Qed.

Lemma contains_strip_solid (w t : str) :
  solid w = true -> contains w (strip t) = false -> contains w t = false.
Proof.
  rewrite !contains_false. intros S N O. apply N.
  destruct (strip_decomp t) as [a [b [E [Fa Fb]]]]. rewrite E in O.
  apply (occurs_after_spaces w a _ S Fa) in O.
  apply (occurs_before_spaces w b _ S Fb) in O. exact O.
Qed.

(** The join of the first parts begins the join of all. *)
Lemma join_firstn_prefix (sep : str) (parts : list str) :
  forall i, exists b, join sep parts = join sep (firstn i parts) ++ b.
Proof.
  induction parts as [|p ps IH]; intro i.
  - exists []. destruct i; reflexivity.
  - destruct i as [|i]; [exists (join sep (p :: ps)); reflexivity|].
    destruct (IH i) as [b E].
    destruct ps as [|q ps].
    + exists []. destruct i; simpl; rewrite app_nil_r; reflexivity.
    + destruct i as [|i].
      * exists (sep ++ join sep (q :: ps)). reflexivity.
      * change (firstn (S (S i)) (p :: q :: ps))
          with (p :: q :: firstn i ps).
        change (firstn (S i) (q :: ps)) with (q :: firstn i ps) in E.
        exists b.
        change (join sep (p :: q :: ps)) with (p ++ sep ++ join sep (q :: ps)).
        change (join sep (p :: q :: firstn i ps))
          with (p ++ sep ++ join sep (q :: firstn i ps)).
        rewrite E, <- !app_assoc. reflexivity.
Qed.

Lemma partial_title_no_oposal (title_parts : list str) (i : nat) :
  contains "oposal" (strip (join " " title_parts)) = false ->
  contains "oposal" (strip (join " " (firstn i title_parts))) = false.
Proof.
  intro H. apply not_contains_strip.
  apply (contains_strip_solid "oposal") in H; [|by_computation].
  apply contains_false. apply contains_false in H. intro O. apply H.
  destruct (join_firstn_prefix " " title_parts i) as [b ->].
  apply occurs_app_l. exact O.
Qed.

(** The three substitutions of the fallback of [_cleanup_extracted_title]
    do nothing on a text with no "quest". *)
Lemma fallback_without_quest (t : str) :
  contains "quest" t = false ->
  re_sub rx_quest_for_proposal "Request for Proposal"
    (re_sub rx_rfp_request_for_oposal "RFP:Request for Proposal"
       (re_sub rx_request_for_o "Request for Proposal" t)) = t.
Proof.
  intro H.
  rewrite (sub_no_match rx_request_for_o _ "quest" t den_request_for_o H).
  rewrite (sub_no_match rx_rfp_request_for_oposal _ "quest" t
             den_rfp_request_for_oposal_quest H).
  apply (sub_no_match rx_quest_for_proposal _ "quest" t den_quest_for_proposal H).
Qed.

(** They bring up no "RFP:". *)
Lemma fallback_without_rfp (t : str) :
  contains "RFP:" t = false ->
  contains "RFP:"
    (re_sub rx_quest_for_proposal "Request for Proposal"
       (re_sub rx_rfp_request_for_oposal "RFP:Request for Proposal"
          (re_sub rx_request_for_o "Request for Proposal" t))) = false.
Proof.
  intro H.
  assert (H1 : contains "RFP:" (re_sub rx_request_for_o "Request for Proposal" t) = false).
  { apply sub_creates_none; [by_computation | exact H]. }
  apply sub_creates_none; [by_computation|].
  rewrite (sub_no_match rx_rfp_request_for_oposal _ "RFP:" _
             den_rfp_request_for_oposal_rfp H1).
  exact H1.
Qed.

(** A text with no "oposal" is cleaned into one the loop does not
    return. *)
Lemma cleanup_not_returnable (p : str) :
  contains "oposal" p = false -> returnable (_cleanup_extracted_title p) = false.
Proof.
  intro Ho. unfold _cleanup_extracted_title.
  destruct p as [|c p'] eqn:Ep; [reflexivity|]. rewrite <- Ep in *. clear Ep c p'.
  cbv zeta.
  pose proof (repair_no_oposal p Ho) as Hro.
  assert (No : contains "oposal" (repair_title p ++ (" " : str) ++ p) = false).
  { apply contains_joined; [by_computation | exact Hro | exact Ho]. }
  rewrite No, (no_oposal_no_proposal _ No).
  destruct (contains "RFP:" (repair_title p)) eqn:Er.
  - destruct (contains "quest" (repair_title p)) eqn:Eq.
    + cbn [andb orb].
      rewrite (contains_app_l "quest" (repair_title p) _ Eq).
      rewrite !orb_true_r. reflexivity.
    + rewrite (no_quest_no_request _ Eq). cbn [andb orb].
      rewrite (fallback_without_quest _ Eq).
      rewrite Er, Eq, (no_quest_no_request _ Eq). cbn [andb orb].
      unfold returnable.
      rewrite (not_contains_strip "Proposal" _ (no_oposal_no_proposal _ Hro)).
      rewrite andb_false_r. reflexivity.
  - cbn [andb].
    rewrite (fallback_without_rfp _ Er). cbn [andb].
    unfold returnable.
    rewrite (not_contains_strip "RFP:" _ (fallback_without_rfp _ Er)).
    reflexivity.
Qed.

Lemma first_partial_none (title_parts : list str) :
  contains "oposal" (strip (join " " title_parts)) = false ->
  forall todo i, first_partial title_parts i todo = None.
Proof.
  intros H todo. induction todo as [|todo IH]; intro i; [reflexivity|].
  cbn [first_partial]. cbv zeta.
  pose proof (cleanup_not_returnable _ (partial_title_no_oposal title_parts i H)) as R.
  unfold returnable in R. rewrite R. apply IH.
Qed.

(** The end of the extractor, for a text with the markers. *)
Lemma title_of_parts_full (title_parts : list str) :
  contains "RFP:" (strip (join " " title_parts)) = true ->
  contains "quest" (strip (join " " title_parts)) = true ->
  contains "oposal" (strip (join " " title_parts)) = true ->
  title_of_parts title_parts = full_rfp_title.
Proof.
  intros Hr Hq Ho. unfold title_of_parts.
  destruct title_parts as [|p ps] eqn:E; [discriminate|]. rewrite <- E in *.
  cbv zeta. rewrite (cleanup_full _ Hr Hq Ho). reflexivity.
Qed.

Lemma title_of_parts_partial (title_parts : list str) :
  contains "RFP:" (strip (join " " title_parts)) = true ->
  contains "quest" (strip (join " " title_parts)) = true ->
  contains "oposal" (strip (join " " title_parts)) = false ->
  title_of_parts title_parts = partial_rfp_title.
Proof.
  intros Hr Hq Ho. unfold title_of_parts.
  destruct title_parts as [|p ps] eqn:E; [discriminate|]. rewrite <- E in *.
  cbv zeta. rewrite (cleanup_partial _ Hr Hq Ho).
  rewrite (first_partial_none title_parts Ho). reflexivity.
Qed.

(** C4.  Let the repaired page-1 text be the joined cohort of title lines
    the extractor hands to [_cleanup_extracted_title].  If it holds the
    markers "RFP:", "quest" (a broken "Request") and "oposal" (a broken
    "Proposal") -- with the companion keywords or without them -- the
    extractor returns the full canonical title; if it holds "RFP:" and
    "quest" but no "oposal", with or without companions, the extractor
    returns the partial canonical title. *)
Theorem rfp_title_reconstruction (doc : Doc) (p : Page) (others : list Page) :
  pages doc = p :: others ->
  let repaired := strip (join " " (title_parts_of p)) in
  contains "RFP:" repaired = true ->
  contains "quest" repaired = true ->
  (contains "oposal" repaired = true ->
   _cleanup_extracted_title repaired = full_rfp_title
   /\ _extract_title_carefully doc = full_rfp_title)
  /\ (contains "oposal" repaired = false ->
      _cleanup_extracted_title repaired = partial_rfp_title
      /\ _extract_title_carefully doc = partial_rfp_title).
Proof.
  intros Hp repaired Hr Hq. unfold _extract_title_carefully. rewrite Hp.
  split; intro Ho; split.
  - apply cleanup_full; assumption.
  - apply title_of_parts_full; assumption.
  - apply cleanup_partial; assumption.
  - apply title_of_parts_partial; assumption.
Qed.

(* ===================================================================== *)
(** * Properties: the scenarios of the specification (section 8) *)
(* ===================================================================== *)

Lemma insert_length (A : Type) (lt : A -> A -> bool) (x : A) (l : list A) :
  List.length (insert lt x l) = S (List.length l).
Proof.
  induction l as [|y l IH]; [reflexivity|].
  simpl. destruct (lt y x); simpl; [rewrite IH|]; reflexivity.
Qed.

Lemma sort_by_length (A : Type) (lt : A -> A -> bool) (l : list A) :
  List.length (sort_by lt l) = List.length l.
Proof.
  induction l as [|x l IH]; [reflexivity|].
  simpl. rewrite insert_length, IH. reflexivity.
Qed.

(** The merger returns the same number of candidates or fewer. *)
Lemma merge_never_longer (headings : list Heading) :
  (List.length (_merge_adjacent_headings headings) <= List.length headings)%nat.
Proof.
  unfold _merge_adjacent_headings.
  rewrite <- (sort_by_length _ pos_lt headings).
  destruct (sort_by pos_lt headings) as [|current l]; [simpl; lia|].
  apply merge_run_length.
Qed.

(** Two adjacent lines "Chapter 1:" and "Getting Started" on one page, in
    one font and size, 10pt apart, merge into one candidate "Chapter 1:
    Getting Started". *)
Lemma scenario_wrapped_heading :
  map text (_merge_adjacent_headings wrapped_chapter)
  = ["Chapter 1: Getting Started" : str].
Proof. by_computation. Qed.

(** A three-page document with "application form", "designation" and
    "signature" in under 800 characters yields an empty outline. *)
Lemma scenario_form_document (rt : Runtime) (fault : option str) :
  outline (extract_outline rt (Returned form_doc) fault) = [].
Proof.
  unfold extract_outline, outline_of_doc.
  replace (_is_form_document form_doc) with true by by_computation.
  reflexivity.
Qed.

(** A table of contents with the native levels 1, 2, 2, 3, 1 maps to the
    levels H1, H2, H2, H3, H1, with the pages kept and raised to 1 at
    least. *)
Lemma scenario_toc_levels :
  map (fun e => (entry_level e, entry_page e))
      (_process_toc [ (1%Z, "Introduction" : str, 1%Z);
                      (2%Z, "Background" : str, 0%Z);
                      (2%Z, "Scope" : str, 4%Z);
                      (3%Z, "Details" : str, 4%Z);
                      (1%Z, "Conclusion" : str, 9%Z) ])
  = [ (H1, 1%Z); (H2, 1%Z); (H2, 4%Z); (H3, 4%Z); (H1, 9%Z) ].
Proof. by_computation. Qed.

(** The page number "42" alone on a line whose top is in the bottom tenth
    of the page is rejected, whatever its font sizes and names. *)
Lemma scenario_page_number (sizes : list Q) (names : list str)
    (x0 x1 y1 page_width : Q) :
  _is_potential_heading "42" sizes names (Some (x0, 750, x1, y1))
                        792 page_width = false.
Proof. reflexivity. Qed.

(* ===================================================================== *)
(** * Properties: reaching a match *)
(* ===================================================================== *)

Lemma re_match_of_reach (ic : bool) (r : regex) (t : str) (st' : mstate) :
  reaches ic r (MState 0 t []) st' -> re_match_flags ic r t = true.
Proof.
  unfold reaches, re_match_flags. destruct (rmatch ic r _); [intros []|reflexivity].
Qed.

Lemma reach_cat (ic : bool) (a b : regex) (st st1 st2 : mstate) :
  reaches ic a st st1 -> reaches ic b st1 st2 -> reaches ic (Cat a b) st st2.
Proof.
  unfold reaches. intros H1 H2. cbn [rmatch]. apply in_flat_map.
  exists st1. split; assumption.
Qed.

Lemma reach_bol (ic : bool) (t : str) (caps : list (nat * str)) :
  reaches ic Bol (MState 0 t caps) (MState 0 t caps).
Proof. left. reflexivity. Qed.

Lemma reach_eol (ic : bool) (off : nat) (caps : list (nat * str)) :
  reaches ic Eol (MState off [] caps) (MState off [] caps).
Proof. left. reflexivity. Qed.

(** A repetition from zero on can stop at once. *)
Lemma reach_rep_zero (ic : bool) (r : regex) (hi : option nat) (st : mstate) :
  reaches ic (Rep 0 hi r) st st.
Proof.
  unfold reaches. cbn [rmatch rep].
  destruct hi as [[|n]|]; try (left; reflexivity);
    apply in_or_app; right; left; reflexivity.
Qed.

Lemma cls_match_of (ic : bool) (p : ascii -> bool) (x : ascii) :
  p x = true -> cls_match ic p x = true.
Proof. intro H. unfold cls_match. rewrite H. reflexivity. Qed.

Lemma reach_cls (ic : bool) (p : ascii -> bool) (off : nat) (x : ascii) (rest : str)
    (caps : list (nat * str)) :
  cls_match ic p x = true ->
  reaches ic (Cls p) (MState off (x :: rest) caps) (MState (S off) rest caps).
Proof.
  intro H. unfold reaches. cbn [rmatch]. unfold step1. cbn [m_rest]. rewrite H.
  left. reflexivity.
Qed.

Lemma rep_cls_reach (ic : bool) (p : ascii -> bool) (rest : str)
    (caps : list (nat * str)) :
  forall (w : str) (fuel lo off : nat),
  forallb (cls_match ic p) w = true ->
  (lo <= List.length w)%nat -> (List.length w <= fuel)%nat ->
  In (MState (off + List.length w) rest caps)
     (rep (rmatch ic (Cls p)) fuel lo None (MState off (w ++ rest) caps)).
Proof.
  induction w as [|x w IH]; intros fuel lo off Hall Hlo Hfuel.
  - simpl in Hlo. assert (lo = 0)%nat by lia. subst lo.
    rewrite Nat.add_0_r. destruct fuel; simpl; [left; reflexivity|].
    apply in_or_app. right. left. reflexivity.
  - simpl in Hall. apply andb_true_iff in Hall. destruct Hall as [Hx Hall].
    destruct fuel as [|fuel]; [simpl in Hfuel; lia|].
    cbn [rep]. apply in_or_app. left.
    cbn [rmatch step1 m_rest app m_off m_caps]. rewrite Hx.
    cbn [flat_map m_off]. rewrite app_nil_r.
    replace (off <? S off)%nat with true by (symmetry; apply Nat.ltb_lt; lia).
    replace (off + List.length (x :: w))%nat with (S off + List.length w)%nat
      by (simpl; lia).
    apply IH; [assumption | simpl in Hlo; lia | simpl in Hfuel; lia].
Qed.

(** A run of characters of a class is a text of the repetition of the
    class, whatever follows. *)
Lemma reach_rep_cls (ic : bool) (p : ascii -> bool) (lo off : nat) (w rest : str)
    (caps : list (nat * str)) :
  forallb (cls_match ic p) w = true -> (lo <= List.length w)%nat ->
  reaches ic (Rep lo None (Cls p)) (MState off (w ++ rest) caps)
          (MState (off + List.length w) rest caps).
Proof.
  intros Hall Hlo. unfold reaches. cbn [rmatch m_rest].
  apply rep_cls_reach; [assumption | assumption |].
  rewrite length_app. lia.
Qed.

(** A literal matches the text that agrees with it character by
    character. *)
Lemma reach_lit (ic : bool) (rest : str) (caps : list (nat * str)) :
  forall (u v : str) (off : nat),
  List.length u = List.length v ->
  forallb (fun cx => chr_match ic (fst cx) (snd cx)) (combine u v) = true ->
  reaches ic (Lit u) (MState off (v ++ rest) caps)
          (MState (off + List.length v) rest caps).
Proof.
  unfold reaches.
  induction u as [|c u IH]; intros v off Hlen Hall.
  - destruct v; [|discriminate]. simpl. rewrite Nat.add_0_r. left. reflexivity.
  - destruct v as [|y v]; [discriminate|].
    simpl in Hall. apply andb_true_iff in Hall. destruct Hall as [Hc Hall].
    injection Hlen as Hlen.
    destruct u as [|c' u].
    + destruct v; [|discriminate]. simpl. unfold step1. simpl. rewrite Hc.
      left. f_equal. lia.
    + change (Lit (c :: c' :: u)) with (Cat (Chr c) (Lit (c' :: u))).
      cbn [rmatch]. apply in_flat_map.
      exists (MState (S off) (v ++ rest) caps). split.
      * unfold step1. cbn [m_rest app]. rewrite Hc. left. reflexivity.
      * replace (off + List.length (y :: v))%nat with (S off + List.length v)%nat
          by (simpl; lia).
        apply IH; assumption.
Qed.

(** A number matches [^\d+$], with or without [re.IGNORECASE]. *)
Lemma digits_match (ic : bool) (t : str) :
  isdigit t = true -> re_match_flags ic (Seq [Bol; Plus d_; Eol]) t = true.
Proof.
  unfold isdigit. intro H. apply andb_true_iff in H. destruct H as [Hn Hd].
  apply (re_match_of_reach ic _ t (MState (0 + List.length t) [] [])).
  cbn [Seq]. apply reach_cat with (st1 := MState 0 t []); [apply reach_bol|].
  apply reach_cat with (st1 := MState (0 + List.length t) [] []); [|apply reach_eol].
  rewrite <- (app_nil_r t) at 1. apply reach_rep_cls.
  - eapply forallb_weaken; [|exact Hd]. intros x Hx. apply cls_match_of. exact Hx.
  - destruct t; [discriminate|simpl; lia].
Qed.

(** A text that begins with [u] matches [^u.*]. *)
Lemma prefix_then_any (u rest : str) :
  re_match (Seq [Bol; Lit u; Star Dot]) (u ++ rest) = true.
Proof.
  apply (re_match_of_reach false _ _ (MState (0 + List.length u) rest [])).
  cbn [Seq]. apply reach_cat with (st1 := MState 0 (u ++ rest) []); [apply reach_bol|].
  apply reach_cat with (st1 := MState (0 + List.length u) rest []);
    [|apply reach_rep_zero].
  apply reach_lit; [reflexivity|].
  induction u as [|c u IH]; [reflexivity|].
  cbn [combine forallb fst snd]. rewrite IH.
  unfold chr_match, ascii_eqb. rewrite Ascii.eqb_refl. reflexivity.
Qed.

(** With [re.IGNORECASE] the classes [[A-Z]] and [[A-Z\s]] take the
    letters of either case. *)
Lemma letter_any_case (c : ascii) :
  is_alpha c = true -> cls_match true is_upper c = true.
Proof. each_ascii c; vm_compute; intro H; try reflexivity; discriminate H. Qed.

Lemma letter_or_space_any_case (c : ascii) :
  letter_or_space c = true -> cls_match true upper_or_space c = true.
Proof. each_ascii c; vm_compute; intro H; try reflexivity; discriminate H. Qed.

(** A letter followed by ten letters or spaces at least matches the
    pattern for long lines in capitals when case is ignored. *)
Lemma plain_line_matches (c : ascii) (w : str) :
  is_alpha c = true -> forallb letter_or_space w = true ->
  (10 <= List.length w)%nat ->
  existsb (fun pattern => re_match_flags true pattern (c :: w)) h1_patterns = true.
Proof.
  intros Hc Hw Hlen. apply existsb_exists.
  exists (Seq [Bol; Cls is_upper; AtLeast 10 (Cls upper_or_space); Eol]).
  split; [cbn; tauto|].
  apply (re_match_of_reach true _ _ (MState (1 + List.length w) [] [])).
  cbn [Seq].
  apply reach_cat with (st1 := MState 0 (c :: w) []); [apply reach_bol|].
  apply reach_cat with (st1 := MState 1 w []);
    [apply reach_cls; apply letter_any_case; exact Hc|].
  apply reach_cat with (st1 := MState (1 + List.length w) [] []); [|apply reach_eol].
  rewrite <- (app_nil_r w) at 1. apply reach_rep_cls; [|exact Hlen].
  eapply forallb_weaken; [|exact Hw]. exact letter_or_space_any_case.
Qed.

(* ===================================================================== *)
(** * Properties: scores and confidence *)
(* ===================================================================== *)

(** X1.  The pattern score of a text lies between -0.8 and 3.1. *)
Theorem pattern_score_bounds (txt : str) :
  -0.8 <= _analyze_text_patterns txt /\ _analyze_text_patterns txt <= 3.1.
Proof.
  unfold _analyze_text_patterns.
  destruct (re_match numbered1 txt), (re_match numbered2 txt),
    (re_match numbered3 txt), (istitle txt),
    (isupper txt && (Z.of_nat (List.length (split txt)) <=? 8)%Z),
    (Z.of_nat (List.length (split txt)) >? 20)%Z,
    (Z.of_nat (List.length (split txt)) >? 15)%Z,
    (any_in keywords (lower txt)); split; lra.
Qed.




(* ===================================================================== *)
(** * Properties: the candidates of the analyzer *)
(* ===================================================================== *)

Lemma to_lower_space (c : ascii) : is_space (to_lower c) = is_space c.
Proof. each_ascii c; reflexivity. Qed.

Lemma lstrip_lower (t : str) : lstrip (lower t) = lower (lstrip t).
Proof.
  induction t as [|c t IH]; [reflexivity|].
  cbn [lower map lstrip]. rewrite to_lower_space.
  destruct (is_space c); [exact IH | reflexivity].
Qed.

(** Stripping and lower-casing commute. *)
Lemma strip_lower (t : str) : strip (lower t) = lower (strip t).
Proof.
  unfold strip, rstrip, lower.
  change (map to_lower) with lower. rewrite lstrip_lower.
  unfold lower. rewrite <- map_rev. change (map to_lower) with lower.
  rewrite lstrip_lower. unfold lower. rewrite map_rev. reflexivity.
Qed.

(** What a line has passed when [_is_potential_heading] accepts it. *)
Lemma potential_heading_facts (txt : str) (sizes : list Q) (names : list str)
    (bb : option BBox) (page_height page_width : Q) :
  _is_potential_heading txt sizes names bb page_height page_width = true ->
  (3 <= len txt <= 200)%Z
  /\ mem_str (strip (lower txt)) fragments = false
  /\ islower (firstn 1 txt) = false
  /\ _is_header_or_footer txt bb page_height page_width = false
  /\ (sizes <> [] -> 8 <= max_list 0 sizes).
Proof.
  unfold _is_potential_heading.
  destruct (Z.ltb_spec (len txt) 3) as [|L3]; [discriminate|].
  destruct (len txt >? 200)%Z eqn:L200; [discriminate|].
  cbv zeta.
  destruct (mem_str (strip (lower txt)) fragments); [discriminate|].
  destruct ((len txt <? 5)%Z && negb (isupper txt)); [discriminate|].
  destruct ((len txt <? 8)%Z && negb (any_in vowels (strip (lower txt)))
            && negb (isupper txt)); [discriminate|].
  destruct (islower (firstn 1 txt)); [discriminate|].
  destruct (_is_header_or_footer txt bb page_height page_width); [discriminate|].
  destruct (negb (Nat.eqb (List.length sizes) 0) && Qltb (max_list 0 sizes) 8) eqn:S8;
    [discriminate|].
  intros _. repeat split; try reflexivity; try lia.
  intro Hne. destruct sizes as [|s sizes']; [congruence|].
  cbn [List.length Nat.eqb negb andb] in S8. apply Qltb_false in S8. exact S8.
Qed.

(** A line with no font size has no text. *)
Lemma add_span_no_sizes (acc : LineAcc) (span : Span) :
  (font_sizes acc = [] -> line_text acc = []) ->
  font_sizes (add_span acc span) = [] -> line_text (add_span acc span) = [].
Proof.
  unfold add_span. destruct (strip (span_text span)); [auto|].
  cbn [font_sizes]. intros _ H. apply app_eq_nil in H. destruct H; discriminate.
Qed.

Lemma fold_add_span_no_sizes (line : Line) (acc : LineAcc) :
  (font_sizes acc = [] -> line_text acc = []) ->
  font_sizes (fold_left add_span line acc) = [] ->
  line_text (fold_left add_span line acc) = [].
Proof.
  revert acc. induction line as [|sp line IH]; intros acc H; [exact H|].
  simpl. apply IH. apply add_span_no_sizes. exact H.
Qed.

Lemma in_enumerate_range (A : Type) (l : list A) (k n : Z) (x : A) :
  In (n, x) (enumerate_from k l) -> (k <= n < k + Z.of_nat (List.length l))%Z.
Proof.
  revert k. induction l as [|y l IH]; intros k H; [destruct H|].
  destruct H as [H|H].
  - injection H as -> _. cbn [List.length]. lia.
  - apply IH in H. cbn [List.length]. lia.
Qed.

Lemma in_enumerate_of_in (A : Type) (l : list A) (x : A) :
  In x l -> forall k, exists n, In (n, x) (enumerate_from k l).
Proof.
  induction l as [|y l IH]; intros [] k.
  - subst y. exists k. left. reflexivity.
  - destruct (IH H (k + 1)%Z) as [n Hn]. exists n. right. exact Hn.
Qed.

(** Running text with a box is a header or footer, wherever it lies. *)
Lemma running_text_is_header_or_footer (txt : str) (b : BBox)
    (page_height page_width : Q) :
  running_text (strip (lower txt)) = true ->
  _is_header_or_footer txt (Some b) page_height page_width = true.
Proof.
  intro H. unfold _is_header_or_footer.
  destruct (Qltb (bb1 b) (page_height * 0.1) || Qgtb (bb1 b) (page_height * 0.9));
    [reflexivity|].
  cbv zeta. set (t := strip (lower txt)) in *.
  unfold running_text in H. apply orb_true_iff in H. destruct H as [H|H];
    [apply orb_true_iff in H; destruct H as [H|H]|].
  - apply existsb_exists. exists (Seq [Bol; Plus d_; Eol]).
    split; [left; reflexivity | apply (digits_match false); exact H].
  - apply existsb_exists in H. destruct H as [p [Hp H]].
    apply startswith_spec in H. destruct H as [rest E]. rewrite E.
    apply existsb_exists.
    unfold running_prefixes in Hp. cbn [In] in Hp.
    destruct Hp as [<-|[<-|[<-|[<-|[<-|[<-|[]]]]]]].
    + exists (Seq [Bol; Lit "www"; Chr "."]). split; [cbn; tauto|reflexivity].
    + exists (Seq [Bol; Lit "http"; Opt (Chr "s"); Lit "://"]).
      split; [cbn; tauto|reflexivity].
    + exists (Seq [Bol; Lit "http"; Opt (Chr "s"); Lit "://"]).
      split; [cbn; tauto|reflexivity].
    + exists (Seq [Bol; Lit "copyright"; Star Dot]).
      split; [cbn; tauto|apply (prefix_then_any "copyright")].
    + exists (Seq [Bol; Lit "all rights reserved"]). split; [cbn; tauto|reflexivity].
    + exists (Seq [Bol; Chr copyright_sign; Star Dot]).
      split; [cbn; tauto|apply (prefix_then_any [copyright_sign])].
  - apply existsb_exists.
    exists (Alts [Seq [Bol; Lit "draft"; Eol];
                  Seq [Bol; Lit "confidential"; Eol];
                  Seq [Bol; Lit "proprietary"; Eol]]).
    split; [cbn; tauto|].
    unfold mem_str, watermarks in H. cbn [existsb] in H.
    repeat (apply orb_true_iff in H; destruct H as [H|H]);
      try discriminate; apply str_eqb_eq in H; rewrite H; reflexivity.
Qed.

Lemma not_header_or_footer_not_running (txt : str) (b : BBox)
    (page_height page_width : Q) :
  _is_header_or_footer txt (Some b) page_height page_width = false ->
  running_text (strip (lower txt)) = false.
Proof.
  intro H. destruct (running_text (strip (lower txt))) eqn:E; [|reflexivity].
  rewrite (running_text_is_header_or_footer txt b page_height page_width E) in H.
  discriminate.
Qed.

Section CandidateShape.

Variable rt : Runtime.

Lemma all_headings_wellformed (doc : Doc) (h : Heading) :
  In h (all_headings rt doc) -> wellformed_candidate doc h.
Proof.
  intro Hh.
  pose proof (all_headings_body rt doc h Hh) as Hbody.
  unfold all_headings in Hh. apply in_flat_map in Hh.
  destruct Hh as [[n p] [Hp Hh]]. cbn [fst snd] in Hh.
  unfold _extract_page_headings in Hh.
  apply in_map_iff in Hh. destruct Hh as [acc [<- Hacc]].
  apply filter_In in Hacc. destruct Hacc as [Hacc C].
  apply in_map_iff in Hacc. destruct Hacc as [line [<- _]].
  unfold is_candidate in C.
  pose proof (potential_heading_facts _ _ _ _ _ _ C) as [L [F [I [HF S]]]].
  assert (St : strip (line_text (gather_line line)) = line_text (gather_line line)).
  { unfold gather_line. cbn [line_text]. apply strip_idempotent. }
  unfold wellformed_candidate, heading_of_line.
  cbn [text level page font_size].
  rewrite strip_lower, St in F.
  split; [exact L|]. split; [exact St|]. split; [exact I|]. split; [exact F|].
  split.
  { destruct Hbody as [p' [b [_ [Hb _]]]]. cbn [bbox heading_of_line] in Hb.
    rewrite Hb in HF.
    pose proof (not_header_or_footer_not_running _ _ _ _ HF) as R.
    rewrite strip_lower, St in R. exact R. }
  split; [reflexivity|]. split.
  { apply in_enumerate_range in Hp. unfold page_count. lia. }
  split; [|exact Hbody].
  apply S. intro E.
  unfold gather_line in E, L. cbn [font_sizes line_text] in E, L.
  rewrite (fold_add_span_no_sizes line (mkLineAcc [] [] [] None)
             (fun _ => eq_refl) E) in L.
  vm_compute in L. destruct L as [L _]. apply L. reflexivity.
Qed.

End CandidateShape.

(** X3.  Every candidate the analyzer extracts from a document has a
    text of 3 to 200 characters with no space at either end, that does
    not begin with a lower-case letter, is none of the listed fragments
    and no running text (a number, a web address, a copyright notice, a
    watermark); it has no level yet, a page number between 1 and the
    number of pages, a font size of 8 at least, and a box whose top lies
    in the body of its page. *)
Theorem candidates_wellformed (rt : Runtime) (doc : Doc) :
  Forall (wellformed_candidate doc) (all_headings rt doc).
Proof. apply Forall_forall. apply all_headings_wellformed. Qed.

(** X4.  A line with a box whose lower-case text is a number, begins
    with "www.", "http://", "https://", "copyright", "all rights
    reserved" or the copyright sign, or is one of the watermarks "draft",
    "confidential", "proprietary", is never a potential heading, wherever
    it lies on the page and whatever its fonts. *)
Theorem running_text_never_candidate (txt : str) (sizes : list Q) (names : list str)
    (b : BBox) (page_height page_width : Q) :
  running_text (strip (lower txt)) = true ->
  _is_potential_heading txt sizes names (Some b) page_height page_width = false.
Proof.
  intro H. unfold _is_potential_heading.
  rewrite (running_text_is_header_or_footer txt b page_height page_width H).
  repeat match goal with
         | |- (if ?c then false else _) = false => destruct c; [reflexivity|]
         end.
  reflexivity.
Qed.

(* ===================================================================== *)
(** * Properties: the runs of the merger *)
(* ===================================================================== *)

(** X5.  Whatever the order of its input, the merger returns its
    headings in the order of page and top of box, and never more of them
    than it was given. *)
Theorem merge_keeps_reading_order (headings : list Heading) :
  sortedb pos_lt (_merge_adjacent_headings headings) = true
  /\ (List.length (_merge_adjacent_headings headings) <= List.length headings)%nat.
Proof. split; [apply merge_adjacent_sorted | apply merge_never_longer]. Qed.

Lemma gathered_snoc (run : list Heading) (h : Heading) :
  gathered (run ++ [h]) = gathered run ++ (" " : str) ++ text h.
Proof.
  unfold gathered. rewrite flat_map_app. cbn [flat_map]. rewrite app_nil_r.
  reflexivity.
Qed.

(** The inner loop cuts the sorted list into runs, the first of which
    begins with what the head has absorbed so far. *)
Lemma merge_run_partition (l : list Heading) :
  forall (current : Heading) (absorbed : list Heading),
  Forall (fun h => _should_merge current h = true) absorbed ->
  exists more rest,
    List.concat (((current :: absorbed) ++ more) :: rest) = (current :: absorbed) ++ l
    /\ maximal_runs (((current :: absorbed) ++ more) :: rest)
    /\ Forall2 closes_run (((current :: absorbed) ++ more) :: rest)
         (merge_run current (text current ++ gathered absorbed)
                    (fold_left expand_bbox (map bbox absorbed) (bbox current)) l).
Proof.
  induction l as [|next l IH]; intros current absorbed Hab.
  - exists [], []. rewrite !app_nil_r. split; [simpl; rewrite !app_nil_r; reflexivity|].
    split; [simpl; auto|].
    cbn [merge_run]. constructor; [|constructor].
    unfold closes_run, merged_heading. cbn [text page font_size font_name bbox].
    rewrite join_gathered. repeat split. exact Hab.
  - cbn [merge_run]. destruct (_should_merge current next) eqn:M.
    + destruct (IH current (absorbed ++ [next])) as [more [rest [Ec [Hm Hr]]]].
      { apply Forall_app. split; [exact Hab | constructor; [exact M | constructor]]. }
      exists (next :: more), rest.
      replace ((current :: absorbed) ++ next :: more)
        with ((current :: absorbed ++ [next]) ++ more)
        by (cbn [app]; rewrite <- app_assoc; reflexivity).
      split; [|split].
      * rewrite Ec. cbn [app]. rewrite <- app_assoc. reflexivity.
      * exact Hm.
      * rewrite gathered_snoc, map_app, fold_left_app in Hr. cbn [map fold_left] in Hr.
        rewrite <- app_assoc. exact Hr.
    + destruct (IH next []) as [more [rest [Ec [Hm Hr]]]]; [constructor|].
      exists [], (((next :: []) ++ more) :: rest). rewrite app_nil_r.
      split; [|split].
      * cbn [List.concat] in *. rewrite Ec. reflexivity.
      * split; [exact M | exact Hm].
      * constructor.
        -- unfold closes_run, merged_heading. cbn [text page font_size font_name bbox].
           rewrite join_gathered. repeat split. exact Hab.
        -- cbn [gathered flat_map map fold_left] in Hr. rewrite app_nil_r in Hr.
           exact Hr.
Qed.

Lemma merge_partition (headings : list Heading) :
  exists runs,
    List.concat runs = sort_by pos_lt headings
    /\ maximal_runs runs
    /\ Forall2 closes_run runs (_merge_adjacent_headings headings).
Proof.
  unfold _merge_adjacent_headings.
  destruct (sort_by pos_lt headings) as [|current l].
  - exists []. split; [reflexivity|]. split; [exact I | constructor].
  - destruct (merge_run_partition l current [] (Forall_nil _))
      as [more [rest [Ec [Hm Hr]]]].
    exists (((current :: []) ++ more) :: rest). split; [exact Ec|]. split; [exact Hm|].
    cbn [gathered flat_map map fold_left] in Hr. rewrite app_nil_r in Hr. exact Hr.
Qed.

(** X6.  The merger cuts its input, sorted by page and top of box, into
    consecutive runs and returns one heading for each run, in order: the
    heading has the page, font size and font name of the first candidate
    of the run, the texts of the run joined by blanks and stripped, and
    the union of the boxes; every other candidate of the run passes the
    merge test with the first one, and the first candidate of the next
    run does not. *)
Theorem merge_partitions_sorted_input (headings : list Heading) :
  exists runs,
    List.concat runs = sort_by pos_lt headings
    /\ maximal_runs runs
    /\ Forall2 closes_run runs (_merge_adjacent_headings headings).
Proof. exact (merge_partition headings). Qed.

Lemma occurs_in_join (sep : str) (parts : list str) (x : str) :
  In x parts -> occurs x (join sep parts).
Proof.
  induction parts as [|y parts IH]; intros []; subst.
  - destruct parts as [|z parts]; [apply occurs_refl|].
    cbn [join]. apply occurs_app_l. apply occurs_refl.
  - destruct parts as [|z parts]; [destruct H|].
    cbn [join]. apply occurs_app_r. apply occurs_app_r. apply IH. exact H.
Qed.

Lemma last_rev_hd (t : str) (d : ascii) : last t d = hd d (rev t).
Proof.
  induction t as [|c t IH] using rev_ind; [reflexivity|].
  rewrite last_last, rev_app_distr. reflexivity.
Qed.

(** A stripped text that is not empty has no space at either end. *)
Lemma stripped_solid (t : str) : stripped t -> t <> [] -> solid t = true.
Proof.
  unfold stripped. intros E Hne.
  destruct t as [|c t'] eqn:Et; [congruence|]. rewrite <- Et in *.
  assert (H1 : no_lead t).
  { rewrite <- E. unfold strip. apply rstrip_no_lead. apply lstrip_no_lead. }
  assert (H2 : no_lead (rev t)).
  { rewrite <- E at 1. unfold strip, rstrip. rewrite rev_involutive.
    apply lstrip_no_lead. }
  unfold solid. rewrite Et. rewrite <- Et.
  rewrite Et in H1. cbn [no_lead] in H1. rewrite H1. cbn [negb andb].
  rewrite last_rev_hd. destruct (rev t) as [|z zs] eqn:Er.
  - apply (f_equal (@rev ascii)) in Er. rewrite rev_involutive in Er.
    simpl in Er. congruence.
  - cbn [no_lead] in H2. cbn [hd]. rewrite H2. reflexivity.
Qed.

Lemma Forall2_In_l (A B : Type) (R : A -> B -> Prop) (l : list A) (l' : list B)
    (x : A) :
  Forall2 R l l' -> In x l -> exists y, In y l' /\ R x y.
Proof.
  induction 1 as [|a b l l' Hab _ IH]; intros []; subst.
  - exists b. split; [left; reflexivity | exact Hab].
  - destruct (IH H) as [y [Hy Hr]]. exists y. split; [right; exact Hy | exact Hr].
Qed.

(** The text of a candidate is found again in a merged heading of its
    page. *)
Lemma merge_keeps_text (headings : list Heading) (c : Heading) :
  In c headings -> stripped (text c) -> text c <> [] ->
  exists m, In m (_merge_adjacent_headings headings)
            /\ page m = page c /\ contains (text c) (text m) = true.
Proof.
  intros Hc St Ne.
  destruct (merge_partition headings) as [runs [Ec [_ Hr]]].
  apply (In_sort_by pos_lt) in Hc. rewrite <- Ec in Hc.
  apply in_concat in Hc. destruct Hc as [run [Hrun Hc]].
  destruct (Forall2_In_l _ _ _ _ _ _ Hr Hrun) as [m [Hm Cl]].
  exists m. split; [exact Hm|].
  unfold closes_run in Cl. destruct run as [|hd absorbed]; [destruct Cl|].
  destruct Cl as [Et [Ep [_ [_ [_ Hab]]]]]. split.
  - rewrite Ep. destruct Hc as [<-|Hc]; [reflexivity|].
    rewrite Forall_forall in Hab. apply should_merge_page. apply Hab. exact Hc.
  - rewrite Et.
    destruct (contains (text c) (strip (join " " (map text (hd :: absorbed))))) eqn:E;
      [reflexivity|].
    apply contains_strip_solid in E; [|apply stripped_solid; assumption].
    apply contains_false in E. exfalso. apply E. apply occurs_in_join.
    apply in_map. exact Hc.
Qed.

(** X7.  Merging loses no text: the text of every candidate of a
    document occurs in the text of a merged heading of the same page. *)
Theorem merging_loses_no_text (rt : Runtime) (doc : Doc) :
  Forall (fun c => exists m,
            In m (_merge_adjacent_headings (all_headings rt doc))
            /\ page m = page c /\ contains (text c) (text m) = true)
         (all_headings rt doc).
Proof.
  apply Forall_forall. intros c Hc.
  destruct (all_headings_wellformed rt doc c Hc) as [L [St _]].
  apply merge_keeps_text; [exact Hc | exact St |].
  intro E. rewrite E in L. vm_compute in L. destruct L as [L _]. apply L. reflexivity.
Qed.

(* ===================================================================== *)
(** * Properties: the result of the analyzer *)
(* ===================================================================== *)

(** [max(..., key=lambda x: x.font_size)] returns an element of the
    largest font size. *)
Lemma max_by_font_size (l : list Heading) :
  forall x,
  let m := max_by (fun a b => Qltb (font_size a) (font_size b)) x l in
  In m (x :: l) /\ forall y, In y (x :: l) -> font_size y <= font_size m.
Proof.
  induction l as [|y l IH]; intro x; cbv zeta.
  - cbn [max_by]. split; [left; reflexivity|]. intros y [<-|[]]. lra.
  - cbn [max_by]. destruct (Qltb (font_size x) (font_size y)) eqn:E.
    + destruct (IH y) as [Hin Hmax]. split.
      * right. exact Hin.
      * intros z [<-|Hz]; [|apply Hmax; exact Hz].
        apply Qltb_true in E. pose proof (Hmax y (or_introl eq_refl)). lra.
    + destruct (IH x) as [Hin Hmax]. split.
      * destruct Hin as [Hin|Hin]; [left; exact Hin | right; right; exact Hin].
      * intros z [<-|[<-|Hz]].
        -- apply Hmax. left. reflexivity.
        -- apply Qltb_false in E. pose proof (Hmax x (or_introl eq_refl)). lra.
        -- apply Hmax. right. exact Hz.
Qed.

(** X8.  The title [_classify_headings] returns is the text of a heading
    of page 1 whose font size no heading of page 1 exceeds; it is empty
    when there is no heading on page 1. *)
Theorem title_is_largest_on_first_page (rt : Runtime) (headings : list Heading) :
  if existsb (fun h => (page h =? 1)%Z) headings
  then exists h, In h headings /\ page h = 1%Z
                 /\ title (_classify_headings rt headings) = text h
                 /\ Forall (fun h' => page h' = 1%Z -> font_size h' <= font_size h)
                           headings
  else title (_classify_headings rt headings) = [].
Proof.
  unfold _classify_headings. destruct headings as [|h0 hs]; [reflexivity|].
  cbv zeta. cbn [title].
  set (hd := h0 :: hs).
  destruct (filter (fun h => (page h =? 1)%Z) (sort_by pos_lt hd)) as [|h l] eqn:F.
  - replace (existsb (fun h => (page h =? 1)%Z) hd) with false; [reflexivity|].
    symmetry. apply not_true_false. intro E. apply existsb_exists in E.
    destruct E as [x [Hx Px]].
    assert (In x (filter (fun h => (page h =? 1)%Z) (sort_by pos_lt hd))) as Hin.
    { apply filter_In. split; [apply In_sort_by; exact Hx | exact Px]. }
    rewrite F in Hin. destruct Hin.
  - replace (existsb (fun h => (page h =? 1)%Z) hd) with true.
    2:{ symmetry. apply existsb_exists. exists h.
        assert (In h (h :: l)) as Hin by (left; reflexivity).
        rewrite <- F in Hin. apply filter_In in Hin. destruct Hin as [Hin P].
        apply In_sort_by in Hin. auto. }
    destruct (max_by_font_size l h) as [Hin Hmax].
    set (m := max_by (fun a b => Qltb (font_size a) (font_size b)) h l) in *.
    rewrite <- F in Hin. apply filter_In in Hin. destruct Hin as [Hin P].
    apply In_sort_by in Hin.
    exists m. split; [exact Hin|]. split; [apply Z.eqb_eq; exact P|].
    split; [reflexivity|].
    apply Forall_forall. intros h' Hh' P'. apply Hmax. rewrite <- F.
    apply filter_In. split; [apply In_sort_by; exact Hh' | apply Z.eqb_eq; exact P'].
Qed.

Section AnalyzerPages.

Variable rt : Runtime.

Lemma classify_entry_origin (headings : list Heading) (e : Entry) :
  In e (outline (_classify_headings rt headings)) ->
  exists h, In h headings /\ entry_text e = text h /\ entry_page e = page h.
Proof.
  unfold _classify_headings. destruct headings as [|h0 hs]; [intros []|].
  cbv zeta. cbn [outline]. intro H.
  apply In_sort_by in H. apply in_flat_map in H. destruct H as [h [Hh H]].
  apply In_sort_by in Hh.
  destruct (str_eqb (text h) _); [destruct H|].
  destruct (_calculate_heading_level h _ _) as [[lvl|] conf]; [|destruct H].
  destruct (Qgtb conf 0.3); [|destruct H].
  destruct H as [<-|[]]. exists h. auto.
Qed.

(** The pages of the analyzer's outline are pages of the document. *)
Lemma analyzer_entry_page (doc : Doc) (e : Entry) :
  In e (outline (analyze_pdf_from_doc rt doc)) ->
  (1 <= entry_page e <= page_count doc)%Z.
Proof.
  unfold analyze_pdf_from_doc. intro H.
  apply classify_entry_origin in H. destruct H as [m [Hm [_ ->]]].
  apply merge_adjacent_provenance in Hm. destruct Hm as [c [run [Hc [_ [_ ->]]]]].
  unfold all_headings in Hc. apply in_flat_map in Hc.
  destruct Hc as [[n p] [Hp Hc]]. cbn [fst snd] in Hc.
  apply page_heading_body in Hc. destruct Hc as [-> _].
  apply in_enumerate_range in Hp. unfold page_count. lia.
Qed.

End AnalyzerPages.

(* ===================================================================== *)
(** * Properties: the pattern-only fallback *)
(* ===================================================================== *)

Lemma fold_left_invariant (A B : Type) (f : A -> B -> A) (P : A -> Prop)
    (l : list B) :
  (forall st x, In x l -> P st -> P (f st x)) ->
  forall st, P st -> P (fold_left f l st).
Proof.
  induction l as [|x l IH]; intros Hf st Hst; [exact Hst|].
  cbn [fold_left]. apply IH.
  - intros st' y Hy. apply Hf. right. exact Hy.
  - apply Hf; [left; reflexivity | exact Hst].
Qed.

Lemma mem_str_false (t : str) (l : list str) : mem_str t l = false <-> ~ In t l.
Proof.
  unfold mem_str. split.
  - intros H Hin. assert (existsb (str_eqb t) l = true) as E.
    { apply existsb_exists. exists t. split; [exact Hin | apply str_eqb_eq; reflexivity]. }
    congruence.
  - intro H. apply not_true_false. intro E. apply existsb_exists in E.
    destruct E as [x [Hx E]]. apply str_eqb_eq in E. subst x. exact (H Hx).
Qed.

Lemma NoDup_snoc (A : Type) (l : list A) (x : A) :
  NoDup l -> ~ In x l -> NoDup (l ++ [x]).
Proof.
  intros Hl Hx. apply NoDup_app; [exact Hl | constructor; [intros [] | constructor] |].
  intros a Ha [<-|[]]. exact (Hx Ha).
Qed.

Lemma pattern_line_invariant (lo hi n : Z) (line : Line) (st : list Entry * list str) :
  (lo <= n + 1 <= hi)%Z ->
  fallback_invariant lo hi st -> fallback_invariant lo hi (pattern_line n st line).
Proof.
  intros Hn [Hall [Hnd Hincl]]. unfold pattern_line.
  destruct st as [headings seen]. cbn [fst snd] in *.
  set (txt := strip (flat_map span_text line)).
  destruct (mem_str (lower txt) seen) eqn:Hseen; [repeat split; assumption|].
  destruct (Z.ltb_spec (len txt) 3) as [|L3]; [repeat split; assumption|].
  cbn [orb].
  destruct (pattern_level txt) as [lvl|] eqn:Hl; [|repeat split; assumption].
  apply mem_str_false in Hseen.
  unfold fallback_invariant, lower_texts. cbn [fst snd].
  rewrite map_app. cbn [map entry_text].
  split; [|split].
  - apply Forall_app. split; [exact Hall|]. constructor; [|constructor].
    unfold pattern_entry. cbn [entry_text entry_level entry_page].
    repeat split; try lia; try exact Hl. apply strip_idempotent.
  - apply NoDup_snoc; [exact Hnd|]. intro Hin. apply Hseen. apply Hincl. exact Hin.
  - intros t Ht. apply in_app_or in Ht. destruct Ht as [Ht|[<-|[]]].
    + right. apply Hincl. exact Ht.
    + left. reflexivity.
Qed.

Lemma pattern_only_invariant (doc : Doc) :
  fallback_invariant 1 (page_count doc)
    (fold_left pattern_page (enumerate_from 0 (pages doc)) ([], [])).
Proof.
  apply fold_left_invariant.
  - intros st [n p] Hp Hst. unfold pattern_page. cbn [fst snd].
    apply in_enumerate_range in Hp.
    apply fold_left_invariant; [|exact Hst].
    intros st' line _. apply pattern_line_invariant. unfold page_count. lia.
  - repeat split; [constructor | constructor | intros t []].
Qed.

(** X9.  Every entry of the pattern-only fallback has a text of three
    characters at least, with no space at either end, the level of the
    first list of patterns one of which matches the text when case is
    ignored, and a page between 1 and the number of pages. *)
Theorem fallback_entries (doc : Doc) :
  Forall (pattern_entry 1 (page_count doc)) (_extract_headings_pattern_only doc).
Proof. exact (proj1 (pattern_only_invariant doc)). Qed.

(** X10.  No two entries of the pattern-only fallback have the same text
    up to case. *)
Theorem fallback_no_duplicates (doc : Doc) :
  NoDup (lower_texts (_extract_headings_pattern_only doc)).
Proof. exact (proj1 (proj2 (pattern_only_invariant doc))). Qed.

(** The set [seen] holds only texts of [headings], [headings] only
    grows, and a line that can be an entry is one afterwards, itself or
    an earlier line of the same text up to case. *)
Lemma pattern_line_seen (n : Z) (st : list Entry * list str) (line : Line) :
  incl (snd st) (lower_texts (fst st)) ->
  incl (snd (pattern_line n st line)) (lower_texts (fst (pattern_line n st line)))
  /\ incl (lower_texts (fst st)) (lower_texts (fst (pattern_line n st line)))
  /\ ((3 <= len (fallback_text line))%Z -> pattern_level (fallback_text line) <> None ->
      In (lower (fallback_text line)) (lower_texts (fst (pattern_line n st line)))).
Proof.
  intro Hs. unfold pattern_line, fallback_text. destruct st as [headings seen].
  cbn [fst snd] in *. set (txt := strip (flat_map span_text line)).
  destruct (mem_str (lower txt) seen) eqn:Hseen.
  { cbn [orb fst snd]. split; [exact Hs|]. split; [intros t Ht; exact Ht|].
    intros _ _. apply Hs. unfold mem_str in Hseen. apply existsb_exists in Hseen.
    destruct Hseen as [x [Hx E]]. apply str_eqb_eq in E. subst x. exact Hx. }
  destruct (Z.ltb_spec (len txt) 3) as [L|L].
  { cbn [orb fst snd]. split; [exact Hs|]. split; [intros t Ht; exact Ht|]. lia. }
  cbn [orb]. destruct (pattern_level txt) as [lvl|].
  - cbn [fst snd]. unfold lower_texts. rewrite map_app. cbn [map entry_text].
    split; [|split].
    + intros t [<-|Ht]; apply in_or_app; [right; left; reflexivity | left; exact (Hs t Ht)].
    + intros t Ht. apply in_or_app. left. exact Ht.
    + intros _ _. apply in_or_app. right. left. reflexivity.
  - cbn [fst snd]. split; [exact Hs|]. split; [intros t Ht; exact Ht|].
    intros _ H. congruence.
Qed.

Lemma pattern_lines_seen (n : Z) (lines : list Line) :
  forall st,
  incl (snd st) (lower_texts (fst st)) ->
  let st' := fold_left (pattern_line n) lines st in
  incl (snd st') (lower_texts (fst st'))
  /\ incl (lower_texts (fst st)) (lower_texts (fst st'))
  /\ (forall line, In line lines ->
      (3 <= len (fallback_text line))%Z -> pattern_level (fallback_text line) <> None ->
      In (lower (fallback_text line)) (lower_texts (fst st'))).
Proof.
  induction lines as [|line lines IH]; intros st Hs; cbv zeta.
  - split; [exact Hs|]. split; [intros t Ht; exact Ht | intros line []].
  - cbn [fold_left].
    destruct (pattern_line_seen n st line Hs) as [Hs1 [Hm1 Hk1]].
    destruct (IH (pattern_line n st line) Hs1) as [Hs2 [Hm2 Hk2]].
    split; [exact Hs2|]. split; [intros t Ht; apply Hm2, Hm1; exact Ht|].
    intros l [<-|Hl] L P; [apply Hm2, Hk1; assumption | apply Hk2; assumption].
Qed.

Lemma pattern_pages_seen (ps : list (Z * Page)) :
  forall st,
  incl (snd st) (lower_texts (fst st)) ->
  let st' := fold_left pattern_page ps st in
  incl (snd st') (lower_texts (fst st'))
  /\ incl (lower_texts (fst st)) (lower_texts (fst st'))
  /\ (forall ip line, In ip ps -> In line (page_lines (snd ip)) ->
      (3 <= len (fallback_text line))%Z -> pattern_level (fallback_text line) <> None ->
      In (lower (fallback_text line)) (lower_texts (fst st'))).
Proof.
  induction ps as [|ip ps IH]; intros st Hs; cbv zeta.
  - split; [exact Hs|]. split; [intros t Ht; exact Ht | intros ? ? []].
  - cbn [fold_left].
    destruct (pattern_lines_seen (fst ip) (page_lines (snd ip)) st Hs) as [Hs1 [Hm1 Hk1]].
    fold (pattern_page st ip) in Hs1, Hm1, Hk1.
    destruct (IH (pattern_page st ip) Hs1) as [Hs2 [Hm2 Hk2]].
    split; [exact Hs2|]. split; [intros t Ht; apply Hm2, Hm1; exact Ht|].
    intros ip' l [<-|Hip] Hl L P.
    + apply Hm2. apply Hk1; assumption.
    + apply (Hk2 ip' l); assumption.
Qed.

(** X11.  The pattern-only fallback drops no line that can be an entry,
    but as a duplicate: when the stripped text of a line of the document
    has three characters at least and matches one of the patterns, the
    outline has an entry with that text up to case. *)
Theorem fallback_keeps_every_match (doc : Doc) (p : Page) (line : Line) :
  In p (pages doc) -> In line (page_lines p) ->
  (3 <= len (fallback_text line))%Z ->
  pattern_level (fallback_text line) <> None ->
  In (lower (fallback_text line)) (lower_texts (_extract_headings_pattern_only doc)).
Proof.
  intros Hp Hl L P. unfold _extract_headings_pattern_only.
  destruct (in_enumerate_of_in _ (pages doc) p Hp 0%Z) as [n Hn].
  destruct (pattern_pages_seen (enumerate_from 0 (pages doc)) ([], [])) as [_ [_ K]];
    [intros t []|].
  apply (K (n, p) line Hn Hl L P).
Qed.

(** X12.  Since the patterns are matched ignoring case, a line that
    begins with a letter and goes on with ten letters or spaces at least
    is an H1 heading for the pattern-only fallback and for
    [_determine_heading_level_by_font], in lower case as in capitals and
    whatever its font. *)
Theorem plain_line_is_H1 (c : ascii) (w : str) (size : Q)
    (is_bold is_underline : bool) (x_pos h1_threshold h2_threshold h3_threshold : Q) :
  is_alpha c = true -> forallb letter_or_space w = true ->
  (10 <= List.length w)%nat ->
  pattern_level (c :: w) = Some H1
  /\ _determine_heading_level_by_font (c :: w) size is_bold is_underline x_pos
       h1_threshold h2_threshold h3_threshold = Some H1.
Proof.
  intros Hc Hw Hlen. unfold pattern_level, _determine_heading_level_by_font.
  rewrite (plain_line_matches c w Hc Hw Hlen). split; reflexivity.
Qed.


(* ===================================================================== *)
(** * Properties: the outline and the title of the extractor *)
(* ===================================================================== *)

Lemma toc_entry_facts (item : Z * str * Z) (e : Entry) :
  In e (toc_entry item) -> toc_entry_ok e.
Proof.
  destruct item as [[lvl ttl] pg]. unfold toc_entry.
  destruct (Z.ltb_spec (len (strip ttl)) 3) as [|L]; [intros []|].
  intros [<-|[]]. unfold toc_entry_ok. cbn [entry_page entry_text].
  repeat split; [lia | exact L | apply strip_idempotent].
Qed.

Lemma process_toc_facts (toc : list (Z * str * Z)) (e : Entry) :
  In e (_process_toc toc) -> toc_entry_ok e.
Proof.
  unfold _process_toc. intro H. apply in_flat_map in H.
  destruct H as [item [_ H]]. exact (toc_entry_facts item e H).
Qed.

(** X14.  Whatever [extract_outline] returns, for a document it could
    open or not, with the table of contents, the analyzer or the
    fallback, every entry of its outline has a page of 1 at least. *)
Theorem outline_pages_positive (rt : Runtime) (opened : outcome Doc)
    (fault : option str) :
  Forall (fun e => (1 <= entry_page e)%Z) (outline (extract_outline rt opened fault)).
Proof.
  apply Forall_forall. intros e H.
  destruct opened as [msg|doc]; [destruct H|].
  unfold extract_outline, outline_of_doc in H.
  destruct (_is_form_document doc); [destruct H|].
  destruct (2 <? List.length (get_toc doc))%nat; cbn [outline] in H.
  - apply process_toc_facts in H. destruct H as [H _]. exact H.
  - unfold _extract_from_text in H. destruct fault as [msg|].
    + pose proof (proj1 (pattern_only_invariant doc)) as F.
      rewrite Forall_forall in F. destruct (F e H) as [_ [_ [_ P]]]. lia.
    + rewrite copy_outline in H. apply analyzer_entry_page in H. lia.
Qed.

(** X15.  When the table of contents is not used (it has two entries at
    most), every entry of the outline of [extract_outline] has the number
    of a page of the document, with the analyzer and with the fallback
    alike. *)
Theorem outline_pages_in_document (rt : Runtime) (doc : Doc) (fault : option str) :
  (List.length (get_toc doc) <= 2)%nat ->
  Forall (fun e => (1 <= entry_page e <= page_count doc)%Z)
         (outline (extract_outline rt (Returned doc) fault)).
Proof.
  intro Htoc. apply Forall_forall. intros e H.
  unfold extract_outline, outline_of_doc in H.
  destruct (_is_form_document doc); [destruct H|].
  destruct (Nat.ltb_spec 2 (List.length (get_toc doc))); [lia|]. cbn [outline] in H.
  unfold _extract_from_text in H. destruct fault as [msg|].
  - pose proof (proj1 (pattern_only_invariant doc)) as F.
    rewrite Forall_forall in F. destruct (F e H) as [_ [_ [_ P]]]. exact P.
  - rewrite copy_outline in H. apply analyzer_entry_page in H. exact H.
Qed.

Lemma cleanup_stripped (t : str) : stripped (_cleanup_extracted_title t).
Proof.
  unfold stripped, _cleanup_extracted_title. destruct t as [|c t']; [reflexivity|].
  cbv zeta.
  repeat match goal with
         | |- context [if ?c then _ else _] => destruct c
         end;
    try apply strip_idempotent; by_computation.
Qed.

Lemma first_partial_stripped (title_parts : list str) (todo : nat) :
  forall i t, first_partial title_parts i todo = Some t -> stripped t.
Proof.
  induction todo as [|todo IH]; intros i t H; [discriminate|].
  cbn [first_partial] in H. cbv zeta in H.
  destruct (_ && _) in H.
  - injection H as <-. apply cleanup_stripped.
  - exact (IH _ _ H).
Qed.

Lemma title_of_parts_stripped (title_parts : list str) :
  stripped (title_of_parts title_parts).
Proof.
  unfold title_of_parts. destruct title_parts as [|first_part rest]; [reflexivity|].
  cbv zeta. destruct (_ && _); [apply cleanup_stripped|].
  destruct (first_partial _ _ _) as [t|] eqn:E.
  - exact (first_partial_stripped _ _ _ _ E).
  - destruct (_ >? _)%Z; apply cleanup_stripped.
Qed.

(** X16.  The title [extract_outline] returns never begins or ends with
    a space, on any of its paths. *)
Theorem title_has_no_outer_space (rt : Runtime) (opened : outcome Doc)
    (fault : option str) :
  stripped (title (extract_outline rt opened fault)).
Proof.
  destruct opened as [msg|doc]; [by_computation|].
  assert (T : stripped (_extract_title_carefully doc)).
  { unfold _extract_title_carefully. destruct (pages doc); [reflexivity|].
    apply title_of_parts_stripped. }
  unfold extract_outline, outline_of_doc.
  destruct (_is_form_document doc); [exact T|].
  destruct (2 <? _)%nat; exact T.
Qed.

Lemma clean_text_stripped (txt : str) : stripped (_clean_text txt).
Proof.
  unfold stripped, _clean_text. destruct txt; [reflexivity|]. apply strip_idempotent.
Qed.

Lemma text_element_part (max_font : Q) (line : Line) (el : TextElement) :
  In el (text_element max_font line) -> title_part (el_text el).
Proof.
  unfold text_element. cbv zeta.
  set (t := _clean_text _).
  destruct (len t >? 2)%Z eqn:L; [|intros []]. cbn [andb].
  destruct (Qgeb _ _); [|intros []]. cbn [andb].
  destruct (isdigit t) eqn:D; [intros []|]. cbn [negb andb].
  destruct (re_match page_number (lower t)) eqn:P; [intros []|]. cbn [negb].
  intros [<-|[]]. cbn [el_text]. unfold title_part.
  split; [lia|]. split; [apply clean_text_stripped|]. split; [exact D | exact P].
Qed.

Lemma in_firstn (A : Type) (n : nat) (l : list A) (x : A) :
  In x (firstn n l) -> In x l.
Proof.
  intro H. rewrite <- (firstn_skipn n l). apply in_or_app. left. exact H.
Qed.

(** X17.  The title of a page is built from ten parts at most; each is
    the cleaned text of a line, of three characters at least, with no
    space at either end, that is neither a number nor a page number
    ("page" and digits). *)
Theorem title_parts_wellformed (p : Page) :
  Forall title_part (title_parts_of p)
  /\ (List.length (title_parts_of p) <= 10)%nat.
Proof.
  unfold title_parts_of. cbv zeta.
  set (max_font := fold_left _ _ 0).
  set (els := flat_map (text_element max_font) (page_lines p)).
  assert (Hels : forall el, In el (sort_by size_order els) -> title_part (el_text el)).
  { intros el H. apply In_sort_by in H. apply in_flat_map in H.
    destruct H as [line [_ H]]. exact (text_element_part _ _ _ H). }
  destruct (sort_by size_order els) as [|top rest] eqn:E;
    [split; [constructor|simpl; lia]|].
  split.
  - apply Forall_forall. intros t Ht. apply in_map_iff in Ht.
    destruct Ht as [el [<- Hel]]. apply In_sort_by in Hel.
    apply filter_In in Hel. destruct Hel as [Hel _].
    apply Hels. eapply in_firstn; exact Hel.
  - rewrite length_map, sort_by_length.
    eapply Nat.le_trans; [apply filter_length_le|]. apply firstn_le_length.
Qed.

Section Characters.

Variable P : ascii -> Prop.

Lemma Forall_firstn_of (n : nat) (t : str) : Forall P t -> Forall P (firstn n t).
Proof.
  intro H. apply Forall_forall. intros x Hx. rewrite Forall_forall in H.
  apply H. eapply in_firstn. exact Hx.
Qed.

Lemma step1_chars (ok : ascii -> bool) (st st' : mstate) :
  In st' (step1 ok st) -> state_of P st -> state_of P st'.
Proof.
  unfold step1, state_of. destruct (m_rest st) as [|x t]; [intros []|].
  destruct (ok x); [|intros []]. intros [<-|[]] [Hr Hc]. cbn [m_rest m_caps].
  split; [inversion Hr; assumption | exact Hc].
Qed.

Lemma eat_chars (ic : bool) (w : str) :
  forall st st', In st' (eat ic w st) -> state_of P st -> state_of P st'.
Proof.
  induction w as [|c w IH]; intros st st' H Hst.
  - destruct H as [<-|[]]. exact Hst.
  - cbn [eat] in H. apply in_flat_map in H. destruct H as [st1 [H1 H]].
    apply (IH st1 st' H). exact (step1_chars _ _ _ H1 Hst).
Qed.

Lemma rep_chars (step : mstate -> list mstate) :
  (forall st st', In st' (step st) -> state_of P st -> state_of P st') ->
  forall fuel lo hi st st',
  In st' (rep step fuel lo hi st) -> state_of P st -> state_of P st'.
Proof.
  intro Hstep. induction fuel as [|fuel IH]; intros lo hi st st' H Hst.
  - cbn [rep] in H. destruct lo; [destruct H as [<-|[]]; exact Hst | destruct H].
  - cbn [rep] in H.
    assert (Hstop : In st' (match lo with O => [st] | S _ => [] end) -> state_of P st').
    { destruct lo; [intros [<-|[]]; exact Hst | intros []]. }
    assert (Hgo : In st' (flat_map (fun st1 =>
                    if (m_off st <? m_off st1)%nat
                    then rep step fuel (pred lo) (option_map pred hi) st1 else [])
                    (step st) ++ match lo with O => [st] | S _ => [] end) ->
                  state_of P st').
    { intro G. apply in_app_or in G. destruct G as [G|G]; [|exact (Hstop G)].
      apply in_flat_map in G. destruct G as [st1 [H1 G]].
      destruct (m_off st <? m_off st1)%nat; [|destruct G].
      apply (IH _ _ _ _ G). exact (Hstep _ _ H1 Hst). }
    destruct hi as [[|n]|]; [exact (Hstop H) | exact (Hgo H) | exact (Hgo H)].
Qed.

Lemma rmatch_chars (ic : bool) (r : regex) :
  forall st st', In st' (rmatch ic r st) -> state_of P st -> state_of P st'.
Proof.
  induction r as [| c | p | | | | a IHa b IHb | a IHa b IHb | lo hi a IHa | n a IHa | n];
    intros st st' H Hst; cbn [rmatch] in H.
  - destruct H as [<-|[]]. exact Hst.
  - exact (step1_chars _ _ _ H Hst).
  - exact (step1_chars _ _ _ H Hst).
  - exact (step1_chars _ _ _ H Hst).
  - destruct (m_off st =? 0)%nat; [destruct H as [<-|[]]; exact Hst | destruct H].
  - destruct (m_rest st) as [|x [|y t]];
      [destruct H as [<-|[]]; exact Hst | | destruct H].
    destruct (ascii_eqb x newline); [destruct H as [<-|[]]; exact Hst | destruct H].
  - apply in_flat_map in H. destruct H as [st1 [H1 H]].
    exact (IHb _ _ H (IHa _ _ H1 Hst)).
  - apply in_app_or in H. destruct H as [H|H]; [exact (IHa _ _ H Hst) | exact (IHb _ _ H Hst)].
  - exact (rep_chars _ IHa _ _ _ _ _ H Hst).
  - apply in_map_iff in H. destruct H as [st1 [<- H1]].
    destruct (IHa _ _ H1 Hst) as [Hr Hc]. split; [exact Hr|].
    cbn [m_caps]. constructor; [|exact Hc]. cbn [snd].
    apply Forall_firstn_of. exact (proj1 Hst).
  - destruct (cap_lookup n (m_caps st)); [|destruct H].
    exact (eat_chars _ _ _ _ H Hst).
Qed.

Lemma search_chars (ic : bool) (r : regex) (t : str) :
  forall adv off sk st',
  search ic r adv off t = Some (sk, st') ->
  Forall P t -> Forall P sk /\ state_of P st'.
Proof.
  induction t as [|c t IH]; intros adv off sk st' H Ht.
  - cbn [search] in H.
    destruct (filter _ (rmatch ic r (MState off [] []))) as [|st1 l] eqn:F;
      [discriminate|].
    injection H as <- <-. split; [constructor|].
    assert (In st1 (st1 :: l)) as Hin by (left; reflexivity).
    rewrite <- F in Hin. apply filter_In in Hin. destruct Hin as [Hin _].
    apply (rmatch_chars _ _ _ _ Hin). split; constructor.
  - cbn [search] in H.
    destruct (filter _ (rmatch ic r (MState off (c :: t) []))) as [|st1 l] eqn:F.
    + destruct (search ic r false (S off) t) as [[sk1 st1]|] eqn:E; [|discriminate].
      injection H as <- <-. inversion Ht as [|? ? Hc Ht']; subst.
      destruct (IH _ _ _ _ E Ht') as [Hsk Hst]. split; [constructor; assumption | exact Hst].
    + injection H as <- <-. split; [constructor|].
      assert (In st1 (st1 :: l)) as Hin by (left; reflexivity).
      rewrite <- F in Hin. apply filter_In in Hin. destruct Hin as [Hin _].
      apply (rmatch_chars _ _ _ _ Hin). split; [exact Ht | constructor].
Qed.

Lemma cap_lookup_chars (n : nat) (caps : list (nat * str)) (w : str) :
  cap_lookup n caps = Some w ->
  Forall (fun nw => Forall P (snd nw)) caps -> Forall P w.
Proof.
  induction caps as [|[k v] caps IH]; [discriminate|].
  cbn [cap_lookup]. intros H Hc. inversion Hc as [|? ? Hv Hc']; subst.
  destruct (k =? n)%nat; [injection H as <-; exact Hv | exact (IH H Hc')].
Qed.

Lemma expand_chars (tpl : list titem) (caps : list (nat * str)) :
  template_of P tpl -> Forall (fun nw => Forall P (snd nw)) caps ->
  Forall P (expand tpl caps).
Proof.
  intros Ht Hc. induction tpl as [|item tpl IH]; [constructor|].
  inversion Ht as [|? ? Hi Ht']; subst. cbn [expand]. destruct item as [w|n].
  - apply Forall_app. split; [exact Hi | exact (IH Ht')].
  - destruct (cap_lookup n caps) as [w|] eqn:E; [|exact (IH Ht')].
    apply Forall_app. split; [exact (cap_lookup_chars _ _ _ E Hc) | exact (IH Ht')].
Qed.

Lemma sub_from_chars (r : regex) (tpl : list titem) (fuel : nat) :
  template_of P tpl ->
  forall adv off t, Forall P t -> Forall P (sub_from fuel r tpl adv off t).
Proof.
  intro Htpl. induction fuel as [|fuel IH]; intros adv off t Ht; [exact Ht|].
  cbn [sub_from]. destruct (search false r adv off t) as [[sk st']|] eqn:E; [|exact Ht].
  destruct (search_chars _ _ _ _ _ _ _ E Ht) as [Hsk [Hr Hc]].
  apply Forall_app. split; [exact Hsk|]. apply Forall_app. split.
  - apply expand_chars; assumption.
  - apply IH. exact Hr.
Qed.

(** A substitution brings in no character but those of its template. *)
Lemma re_sub_tpl_chars (r : regex) (tpl : list titem) (t : str) :
  template_of P tpl -> Forall P t -> Forall P (re_sub_tpl r tpl t).
Proof. intros Htpl Ht. unfold re_sub_tpl. apply sub_from_chars; assumption. Qed.

Lemma re_sub_chars (r : regex) (repl t : str) :
  Forall P repl -> Forall P t -> Forall P (re_sub r repl t).
Proof.
  intros Hr Ht. unfold re_sub. apply re_sub_tpl_chars; [|exact Ht].
  constructor; [exact Hr | constructor].
Qed.

Lemma strip_chars (t : str) : Forall P t -> Forall P (strip t).
Proof.
  intro H. destruct (strip_decomp t) as [a [b [E _]]]. rewrite E in H.
  apply Forall_app in H. destruct H as [_ H]. apply Forall_app in H. exact (proj1 H).
Qed.

End Characters.

(** X18.  Cleaning a line invents no text: every character of
    [_clean_text(text)] is a character of [text] or a blank. *)
Theorem clean_text_invents_nothing (txt : str) :
  Forall (fun c => In c txt \/ c = blank) (_clean_text txt).
Proof.
  unfold _clean_text. destruct txt as [|c0 t0] eqn:E; [constructor|]. rewrite <- E.
  cbv zeta. set (P := fun c => In c txt \/ c = blank).
  assert (H0 : Forall P txt) by (apply Forall_forall; intros x Hx; left; exact Hx).
  assert (Hb : Forall P (" " : str)) by (constructor; [right; reflexivity | constructor]).
  apply strip_chars.
  apply re_sub_chars; [constructor|].
  apply re_sub_chars; [constructor|].
  apply re_sub_tpl_chars; [repeat constructor; right; reflexivity|].
  apply re_sub_chars; [exact Hb|].
  apply re_sub_tpl_chars; [repeat constructor|].
  exact H0.
Qed.

Lemma seen_position_spec (k : Z * Z) (seen : list (Z * Z)) :
  existsb (fun k' => (fst k' =? fst k)%Z && (snd k' =? snd k)%Z) seen = true
  <-> In k seen.
Proof.
  split.
  - intro H. apply existsb_exists in H. destruct H as [[a b] [Hin H]].
    apply andb_true_iff in H. destruct H as [H1 H2]. cbn [fst snd] in *.
    apply Z.eqb_eq in H1, H2. destruct k as [x y]. cbn [fst snd] in *. subst. exact Hin.
  - intro H. apply existsb_exists. exists k. split; [exact H|].
    rewrite !Z.eqb_refl. reflexivity.
Qed.

Lemma unique_spans_fresh (line : Line) :
  forall seen,
  NoDup (map span_position (unique_spans seen line))
  /\ (forall k, In k (map span_position (unique_spans seen line)) -> ~ In k seen)
  /\ incl (unique_spans seen line) line.
Proof.
  induction line as [|span line IH]; intro seen.
  - split; [constructor|]. split; [intros k []|intros x []].
  - cbn [unique_spans]. cbv zeta. fold (span_position span).
    destruct (existsb _ seen) eqn:E.
    + destruct (IH seen) as [N [F I]]. split; [exact N|]. split; [exact F|].
      intros x Hx. right. exact (I x Hx).
    + destruct (IH (span_position span :: seen)) as [N [F I]].
      cbn [map]. split; [|split].
      * constructor; [|exact N]. intro Hin. apply (F _ Hin). left. reflexivity.
      * intros k [<-|Hk].
        -- intro Hin. apply seen_position_spec in Hin. congruence.
        -- intro Hin. apply (F _ Hk). right. exact Hin.
      * intros x [<-|Hx]; [left; reflexivity | right; exact (I x Hx)].
Qed.

Lemma unique_spans_cover (line : Line) :
  forall seen k, In k (map span_position line) ->
  In k seen \/ In k (map span_position (unique_spans seen line)).
Proof.
  induction line as [|span l IH]; intros seen k Hk; [destruct Hk|].
  cbn [unique_spans]. cbv zeta. fold (span_position span).
  destruct (existsb _ seen) eqn:E.
  - destruct Hk as [<-|Hk]; [left; apply seen_position_spec; exact E|].
    apply IH. exact Hk.
  - destruct Hk as [<-|Hk]; [right; left; reflexivity|].
    destruct (IH (span_position span :: seen) k Hk) as [[<-|H]|H].
    + right. left. reflexivity.
    + left. exact H.
    + right. right. exact H.
Qed.

(** X19.  Of the spans of a line the title extractor keeps spans of the
    line, no two of them at the same rounded position, and one at every
    rounded position of the line. *)
Theorem unique_spans_distinct (line : Line) :
  NoDup (map span_position (unique_spans [] line))
  /\ incl (unique_spans [] line) line
  /\ incl (map span_position line) (map span_position (unique_spans [] line)).
Proof.
  destruct (unique_spans_fresh line []) as [N [_ I]].
  split; [exact N|]. split; [exact I|].
  intros k Hk. destruct (unique_spans_cover line [] k Hk) as [[]|H]. exact H.
Qed.

(** X20.  A document is a form only if it has five pages at most and the
    lower-case text of its first three pages holds two of the six form
    keywords at least, or both "ltc" and "advance": shortness alone,
    or one keyword, never makes a form. *)
Theorem form_document_indicators (doc : Doc) :
  _is_form_document doc = true ->
  (List.length (pages doc) <= 5)%nat
  /\ ((2 <= keywords_present doc)%nat
      \/ (contains "ltc" (form_text doc) = true
          /\ contains "advance" (form_text doc) = true)).
Proof.
  unfold _is_form_document, keywords_present, form_text.
  destruct (Nat.ltb_spec 5 (List.length (pages doc))); [discriminate|].
  cbv zeta.
  set (txt := flat_map (fun p => lower (plain_text p)) (firstn 3 (pages doc))).
  set (n := List.length (filter (fun keyword => contains keyword txt) form_keywords)).
  intro F. split; [lia|].
  destruct (contains "ltc" txt), (contains "advance" txt); cbn [andb] in F |- *;
    try (right; split; reflexivity); left;
    destruct (len txt <? 800)%Z; lia.
Qed.

(* ===================================================================== *)
(** * Properties: the cleaner of headings *)
(* ===================================================================== *)

Lemma noise_fragments_included (t : str) :
  mem_str t noise_fragments = true -> mem_str t fragments = true.
Proof.
  unfold mem_str, noise_fragments, fragments. cbn [existsb]. intro H.
  repeat (apply orb_true_iff in H; destruct H as [H|H]);
    try discriminate H; rewrite H; rewrite ?orb_true_r; reflexivity.
Qed.

(** The test reads the stripped text only. *)
Lemma noise_is_strip (txt : str) :
  _is_noise_or_fragment txt = _is_noise_or_fragment (strip txt).
Proof. unfold _is_noise_or_fragment. rewrite strip_idempotent. reflexivity. Qed.

Lemma not_noise_length (txt : str) :
  _is_noise_or_fragment txt = false -> (3 <= len (strip txt))%Z.
Proof.
  unfold _is_noise_or_fragment.
  destruct (Z.ltb_spec (len (strip txt)) 3); [discriminate | intros _; assumption].
Qed.

(** X21.  A text that is a number, with or without spaces around it, is
    noise, however many digits it has. *)
Theorem digits_are_noise (txt : str) :
  isdigit (strip txt) = true -> _is_noise_or_fragment txt = true.
Proof.
  intro H. unfold _is_noise_or_fragment.
  destruct (len (strip txt) <? 3)%Z; [reflexivity|]. cbv zeta.
  replace (existsb _ noise_patterns) with true; [reflexivity|].
  symmetry. apply existsb_exists. exists (Seq [Bol; Plus d_; Eol]).
  split; [left; reflexivity | apply digits_match; exact H].
Qed.

(** X22.  The two fragment filters agree: a text the cleaner of main.py
    rejects as one of its eleven title fragments (up to case and
    surrounding spaces) is never a potential heading for the analyzer of
    helper.py, whatever its fonts, box and page. *)
Theorem cleaner_fragment_never_candidate (txt : str) (sizes : list Q)
    (names : list str) (bb : option BBox) (page_height page_width : Q) :
  mem_str (lower (strip txt)) noise_fragments = true ->
  _is_noise_or_fragment txt = true
  /\ _is_potential_heading txt sizes names bb page_height page_width = false.
Proof.
  intro H. split.
  - unfold _is_noise_or_fragment.
    destruct (len (strip txt) <? 3)%Z; [reflexivity|]. cbv zeta.
    rewrite H. destruct (existsb _ noise_patterns); reflexivity.
  - unfold _is_potential_heading. rewrite strip_lower.
    rewrite (noise_fragments_included _ H).
    destruct (len txt <? 3)%Z; [reflexivity|].
    destruct (len txt >? 200)%Z; reflexivity.
Qed.

Lemma str_ltb_asym (a : str) : forall b, str_ltb a b = true -> str_ltb b a = false.
Proof.
  induction a as [|x a IH]; intros [|y b] H; try reflexivity; try discriminate.
  cbn [str_ltb] in *.
  apply orb_true_iff in H. destruct H as [H|H].
  - apply Nat.ltb_lt in H.
    replace (code y <? code x)%nat with false by (symmetry; apply Nat.ltb_ge; lia).
    replace (code y =? code x)%nat with false by (symmetry; apply Nat.eqb_neq; lia).
    reflexivity.
  - apply andb_true_iff in H. destruct H as [E H]. apply Nat.eqb_eq in E.
    rewrite E, Nat.ltb_irrefl, Nat.eqb_refl. cbn [orb andb]. apply IH. exact H.
Qed.

Lemma page_text_lt_asym (a b : Entry) :
  page_text_lt a b = true -> page_text_lt b a = false.
Proof.
  unfold page_text_lt. intro H. apply orb_true_iff in H. destruct H as [H|H].
  - apply Z.ltb_lt in H.
    replace (entry_page b <? entry_page a)%Z with false by (symmetry; apply Z.ltb_ge; lia).
    replace (entry_page b =? entry_page a)%Z with false by (symmetry; apply Z.eqb_neq; lia).
    reflexivity.
  - apply andb_true_iff in H. destruct H as [E H]. apply Z.eqb_eq in E.
    rewrite E, Z.ltb_irrefl, Z.eqb_refl. cbn [orb andb]. apply str_ltb_asym. exact H.
Qed.

Lemma page_text_sorted_pages (l : list Entry) :
  sortedb page_text_lt l = true -> pages_nondecreasing l = true.
Proof.
  unfold pages_nondecreasing.
  induction l as [|x l IH]; [reflexivity|]. intro H.
  apply sortedb_cons in H. destruct H as [Hx Hl]. apply sortedb_cons.
  split; [|apply IH; exact Hl].
  destruct l as [|y l']; [exact I|].
  unfold page_text_lt in Hx. apply orb_false_iff in Hx. destruct Hx as [Hx _]. exact Hx.
Qed.

Lemma pages_nondecreasing_strong (x : Entry) (l : list Entry) :
  pages_nondecreasing (x :: l) = true <->
  Forall (fun y => (entry_page x <= entry_page y)%Z) l /\ pages_nondecreasing l = true.
Proof.
  unfold pages_nondecreasing. revert x.
  induction l as [|y l IH]; intro x.
  - split; [intros _; split; [constructor | reflexivity] | reflexivity].
  - rewrite sortedb_cons. split.
    + intros [Hxy Hl]. apply Z.ltb_ge in Hxy. split; [|exact Hl].
      constructor; [exact Hxy|].
      apply IH in Hl. destruct Hl as [Hl _].
      eapply Forall_impl; [|exact Hl]. cbv beta. intros z Hz. lia.
    + intros [Hall Hl]. split; [|exact Hl].
      apply Z.ltb_ge. inversion Hall; assumption.
Qed.

Lemma filter_pages_nondecreasing (p : Entry -> bool) (l : list Entry) :
  pages_nondecreasing l = true -> pages_nondecreasing (filter p l) = true.
Proof.
  induction l as [|x l IH]; [reflexivity|]. intro H.
  apply pages_nondecreasing_strong in H. destruct H as [Hall Hl].
  cbn [filter]. destruct (p x); [|apply IH; exact Hl].
  apply pages_nondecreasing_strong. split; [|apply IH; exact Hl].
  apply Forall_forall. intros y Hy. apply filter_In in Hy. destruct Hy as [Hy _].
  rewrite Forall_forall in Hall. apply Hall. exact Hy.
Qed.

(** A step of the cleaner leaves its state as it is, or appends the
    heading to what it keeps of [cleaned]. *)
Lemma clean_step_cases (cleaned : list Entry) (seen : list str) (heading : Entry) :
  clean_step (cleaned, seen) heading = (cleaned, seen)
  \/ (mem_str (clean_key heading) seen = false
      /\ _is_noise_or_fragment (strip (entry_text heading)) = false
      /\ exists p,
           clean_step (cleaned, seen) heading
           = (filter p cleaned ++ [heading], clean_key heading :: seen)).
Proof.
  unfold clean_step, clean_key.
  destruct (mem_str _ seen); [left; reflexivity|].
  destruct (_is_noise_or_fragment _); [left; reflexivity|].
  destruct (first_overlap _ cleaned) as [existing|].
  - destruct (_ >? _)%Z; [|left; reflexivity].
    right. repeat split. eexists. reflexivity.
  - right. repeat split. exists (fun _ => true).
    replace (filter (fun _ => true) cleaned) with cleaned; [reflexivity|].
    clear. induction cleaned as [|x l IH]; [reflexivity|]. cbn [filter]. congruence.
Qed.

(** Dropping headings from [cleaned] leaves its keys distinct. *)
Lemma distinct_keys_filter (keep : Entry -> bool) (cleaned : list Entry) :
  NoDup (map clean_key cleaned) -> NoDup (map clean_key (filter keep cleaned)).
Proof.
  induction cleaned as [|e cleaned IH]; intro Hnd; [constructor|].
  cbn [map filter] in *. inversion Hnd as [|? ? Hfresh Hrest]; subst.
  destruct (keep e); [|exact (IH Hrest)].
  cbn [map]. constructor; [|exact (IH Hrest)].
  intro Hin. apply Hfresh. apply in_map_iff in Hin. destruct Hin as [e' [Ek He']].
  apply filter_In in He'. apply in_map_iff. exists e'. split; [exact Ek | exact (proj1 He')].
Qed.

Lemma clean_step_invariant (headings : list Entry) (st : list Entry * list str)
    (heading : Entry) :
  In heading headings ->
  clean_invariant headings st -> clean_invariant headings (clean_step st heading).
Proof.
  intros Hin [Hall [Hnd Hincl]]. destruct st as [cleaned seen]. cbn [fst snd] in *.
  destruct (clean_step_cases cleaned seen heading) as [->|[Hseen [Hnoise [p ->]]]];
    [repeat split; assumption|].
  apply mem_str_false in Hseen.
  unfold clean_invariant. cbn [fst snd]. rewrite map_app. cbn [map].
  split; [|split].
  - apply Forall_app. split.
    + apply Forall_forall. intros e He. apply filter_In in He. destruct He as [He _].
      rewrite Forall_forall in Hall. apply Hall. exact He.
    + constructor; [|constructor]. unfold kept_heading.
      rewrite noise_is_strip. split; [exact Hin|]. split; [exact Hnoise|].
      apply not_noise_length. rewrite noise_is_strip. exact Hnoise.
  - apply NoDup_snoc; [apply distinct_keys_filter; exact Hnd|].
    intro H. apply Hseen. apply Hincl. apply in_map_iff in H.
    destruct H as [y [E Hy]]. apply filter_In in Hy. destruct Hy as [Hy _].
    apply in_map_iff. exists y. auto.
  - intros t Ht. apply in_app_or in Ht. destruct Ht as [Ht|[<-|[]]].
    + right. apply Hincl. apply in_map_iff in Ht. destruct Ht as [y [E Hy]].
      apply filter_In in Hy. destruct Hy as [Hy _]. apply in_map_iff. exists y. auto.
    + left. reflexivity.
Qed.

Lemma clean_fold_invariant (headings : list Entry) :
  clean_invariant headings
    (fold_left clean_step (sort_by page_text_lt headings) ([], [])).
Proof.
  apply fold_left_invariant.
  - intros st x Hx. apply clean_step_invariant. apply In_sort_by in Hx. exact Hx.
  - repeat split; [constructor | constructor | intros t []].
Qed.

(** X23.  Every heading [_clean_headings] returns is one of the headings
    it was given, is not noise, and has three characters at least once
    stripped; no two of the headings it returns have the same stripped
    text up to case. *)
Theorem clean_headings_kept (headings : list Entry) :
  Forall (kept_heading headings) (_clean_headings headings)
  /\ NoDup (map clean_key (_clean_headings headings)).
Proof.
  unfold _clean_headings. destruct headings as [|h hs]; [split; constructor|].
  destruct (clean_fold_invariant (h :: hs)) as [Hall [Hnd _]]. split; assumption.
Qed.

Lemma clean_fold_pages (l : list Entry) :
  forall cleaned seen,
  pages_nondecreasing l = true ->
  pages_nondecreasing cleaned = true ->
  (forall e h, In e cleaned -> In h l -> (entry_page e <= entry_page h)%Z) ->
  pages_nondecreasing (fst (fold_left clean_step l (cleaned, seen))) = true.
Proof.
  induction l as [|h l IH]; intros cleaned seen Hl Hc Hb; [exact Hc|].
  cbn [fold_left].
  apply pages_nondecreasing_strong in Hl. destruct Hl as [Hh Hl].
  destruct (clean_step_cases cleaned seen h) as [->|[_ [_ [p ->]]]].
  - apply IH; [exact Hl | exact Hc |].
    intros e h' He Hh'. apply Hb; [exact He | right; exact Hh'].
  - apply IH; [exact Hl | |].
    + apply pages_nondecreasing_snoc; [apply filter_pages_nondecreasing; exact Hc|].
      intros x Hx. apply filter_In in Hx. destruct Hx as [Hx _].
      apply Hb; [exact Hx | left; reflexivity].
    + intros e h' He Hh'. apply in_app_or in He. destruct He as [He|[<-|[]]].
      * apply filter_In in He. destruct He as [He _].
        apply Hb; [exact He | right; exact Hh'].
      * rewrite Forall_forall in Hh. apply Hh. exact Hh'.
Qed.

(** X24.  [_clean_headings] returns its headings in non-decreasing order
    of page, whatever the order of its input. *)
Theorem clean_headings_page_order (headings : list Entry) :
  pages_nondecreasing (_clean_headings headings) = true.
Proof.
  unfold _clean_headings. destruct headings as [|h hs]; [reflexivity|].
  apply clean_fold_pages; [|reflexivity|intros e h' []].
  apply page_text_sorted_pages. apply sort_by_sorted. exact page_text_lt_asym.
Qed.

(* ===================================================================== *)
(** * The properties on the sample documents *)
(* ===================================================================== *)

Lemma title_exclusion_witness :
  entry_text (mkEntry H3 "Deliverables" 1)
  <> title (analyze_pdf_from_doc sample_runtime chapter_doc)
  /\ outline (extract_outline sample_runtime (Returned form_doc) None) = [].
Proof.
  split.
  - apply (proj1 (title_exclusion sample_runtime chapter_doc None)).
    vm_compute. left. reflexivity.
  - apply (proj2 (title_exclusion sample_runtime form_doc None)).
    vm_compute. reflexivity.
Defined.

Lemma outline_ordering_witness :
  pages_nondecreasing
    (outline (extract_outline sample_runtime (Returned chapter_doc)
                              (Some ("analysis failed" : str)))) = true.
Proof.
  apply (outline_ordering sample_runtime chapter_doc).
  right. vm_compute. lia.
Defined.

Lemma toc_passthrough_witness :
  extract_outline sample_runtime (Returned report_doc) None
  = mkResult (_extract_title_carefully report_doc)
             (toc_kept_mapped (get_toc report_doc)) None.
Proof.
  apply (toc_passthrough sample_runtime report_doc None).
  - vm_compute. reflexivity.
  - vm_compute. lia.
Defined.


Lemma header_footer_exclusion_witness :
  exists c run,
    entry_text (mkEntry H3 "Deliverables" 1)
    = strip (join " " (map text (c :: run)))
    /\ entry_page (mkEntry H3 "Deliverables" 1) = page c
    /\ forall h, In h (c :: run) ->
                 In h (all_headings sample_runtime chapter_doc)
                 /\ body_candidate chapter_doc h.
Proof.
  apply (proj2 (header_footer_exclusion sample_runtime chapter_doc)).
  vm_compute. left. reflexivity.
Defined.

Lemma monotonic_font_ordering_witness :
  (rank (fst (_calculate_heading_level small_overview 12 2))
   <= rank (fst (_calculate_heading_level large_overview 12 2)))%nat.
Proof.
  apply (@monotonic_font_ordering large_overview small_overview 12 2).
  - reflexivity.
  - reflexivity.
  - reflexivity.
  - vm_compute. reflexivity.
Defined.

Lemma rfp_title_reconstruction_witness :
  _extract_title_carefully rfp_full_doc = full_rfp_title
  /\ _extract_title_carefully rfp_partial_doc = partial_rfp_title.
Proof.
  split.
  - apply (proj1 (rfp_title_reconstruction rfp_full_doc
                    (two_line_page "RFP: Request f" "or Proposal") []
                    eq_refl ltac:(vm_compute; reflexivity)
                    ltac:(vm_compute; reflexivity))).
    vm_compute. reflexivity.
  - apply (proj2 (rfp_title_reconstruction rfp_partial_doc
                    (two_line_page "RFP: Request" "for services") []
                    eq_refl ltac:(vm_compute; reflexivity)
                    ltac:(vm_compute; reflexivity))).
    vm_compute. reflexivity.
Defined.

Lemma running_text_never_candidate_witness :
  _is_potential_heading date_line [12] ["Arial" : str] (Some (72, 300, 200, 312))
                        792 612 = false.
Proof.
  apply (running_text_never_candidate date_line [12] ["Arial" : str]
           (72, 300, 200, 312) 792 612).
  vm_compute. reflexivity.
Defined.

Lemma outline_pages_in_document_witness :
  Forall (fun e => (1 <= entry_page e <= page_count chapter_doc)%Z)
         (outline (extract_outline sample_runtime (Returned chapter_doc) None)).
Proof.
  apply (outline_pages_in_document sample_runtime chapter_doc None).
  vm_compute. lia.
Defined.

Lemma form_document_indicators_witness :
  (List.length (pages form_doc) <= 5)%nat
  /\ ((2 <= keywords_present form_doc)%nat
      \/ (contains "ltc" (form_text form_doc) = true
          /\ contains "advance" (form_text form_doc) = true)).
Proof.
  apply (form_document_indicators form_doc).
  vm_compute. reflexivity.
Defined.

Lemma fallback_keeps_every_match_witness :
  In (lower (fallback_text chapter_header))
     (lower_texts (_extract_headings_pattern_only chapter_doc)).
Proof.
  apply (fallback_keeps_every_match chapter_doc chapter_page chapter_header).
  - left. reflexivity.
  - left. reflexivity.
  - vm_compute. discriminate.
  - vm_compute. discriminate.
Defined.

Lemma plain_line_is_H1_witness :
  pattern_level plain_line = Some H1
  /\ _determine_heading_level_by_font plain_line 9 false false 72 12 11 10 = Some H1.
Proof.
  apply (plain_line_is_H1 "t" "he quick brown fox" 9 false false 72 12 11 10).
  - reflexivity.
  - reflexivity.
  - vm_compute. lia.
Defined.

Lemma digits_are_noise_witness :
  _is_noise_or_fragment "  20240115 " = true.
Proof.
  apply (digits_are_noise "  20240115 ").
  vm_compute. reflexivity.
Defined.

Lemma cleaner_fragment_never_candidate_witness :
  _is_noise_or_fragment "Quest For Pr" = true
  /\ _is_potential_heading "Quest For Pr" [14] ["Arial-Bold" : str]
                           (Some (72, 300, 200, 314)) 792 612 = false.
Proof.
  apply (cleaner_fragment_never_candidate "Quest For Pr" [14] ["Arial-Bold" : str]
           (Some (72, 300, 200, 314)) 792 612).
  vm_compute. reflexivity.
Defined.
